(** * bulk_file_rename: a shallow embedding of the renaming engine

    The development follows [bulk_file_rename/bulk_file_rename.py]:
    - [sanitize_filename]   (line 28)
    - [get_unique_path]     (line 33)
    - [rename_items]        (line 55)
    together with the parts of [pathlib] (POSIX flavour, CPython 3.11) and
    [os.walk] that these functions call.  Python strings are modelled as
    [string] (a sequence of bytes, UTF-8 for text outside ASCII); every
    character the program inspects (the nine reserved characters, the dot
    and the path separator) is ASCII, so a byte-wise reading agrees with
    the code-point-wise one. *)

From Stdlib Require Import Strings.String Strings.Ascii ZArith Lia.
From Stdlib Require Import Numbers.DecimalString Numbers.DecimalNat Numbers.DecimalZ.
From stdpp Require Import base list strings gmap sets sorting.


(** ** Python string primitives *)

(** [c in s] for a one-character needle. *)
Fixpoint contains (c : ascii) (s : string) : bool :=
  match s with
  | "" => false
  | String a s' => if decide (a = c) then true else contains c s'
  end.

(** [s[:i]] and [s[i:]] for [0 <= i]. *)
Fixpoint str_take (i : nat) (s : string) : string :=
  match i, s with
  | S i', String a s' => String a (str_take i' s')
  | _, _ => ""
  end.

Fixpoint str_drop (i : nat) (s : string) : string :=
  match i, s with
  | S i', String a s' => str_drop i' s'
  | _, _ => s
  end.

(** [s.rfind(c)]: the highest index holding [c]; [None] stands for -1. *)
Fixpoint rfind (c : ascii) (s : string) : option nat :=
  match s with
  | "" => None
  | String a s' =>
      match rfind c s' with
      | Some i => Some (S i)
      | None => if decide (a = c) then Some 0 else None
      end
  end.

(** [str(n)] for a non-negative integer, and for any integer. *)
Definition str_nat (n : nat) : string := NilEmpty.string_of_uint (Nat.to_uint n).
Definition str_int (z : Z) : string := NilEmpty.string_of_int (Z.to_int z).

(** ** Values read from a mapping table

    [pd.read_csv] hands each cell over as a Python object: text stays a
    [str], an all-digits column becomes integers and an empty cell becomes
    NaN.  Both uses in the program go through [str(...)]. *)
Inductive pyobj :=
  | PyStr (s : string)
  | PyInt (z : Z)
  | PyNaN.

Definition py_str (o : pyobj) : string :=
  match o with
  | PyStr s => s
  | PyInt z => str_int z
  | PyNaN => "nan"
  end.

(** ** [sanitize_filename] (line 28) *)

(** The character class of the regular expression on line 31: less-than,
    greater-than, colon, double quote (code 34), slash, backslash, bar,
    question mark and star. *)
Definition reserved_char (c : ascii) : bool :=
  match c with
  | "<" | ">" | ":" | "034" | "/" | "\" | "|" | "?" | "*" => true
  | _ => false
  end%char.

(** [re.sub(cls, '_', s)] for a one-character class: scan left to right,
    every match is one character and is replaced by the replacement. *)
Fixpoint re_sub_class (cls : ascii → bool) (repl : string) (s : string) : string :=
  match s with
  | "" => ""
  | String a s' =>
      if cls a then repl +:+ re_sub_class cls repl s'
      else String a (re_sub_class cls repl s')
  end.

Definition sanitize_filename (name : pyobj) : string :=
  re_sub_class reserved_char "_" (py_str name).

(** ** [pathlib] paths (POSIX flavour)

    A path is the list of its components ([PurePath.parts]); two paths are
    equal when their components are.  Absolute paths have the empty string as
    first component, so that joining with the separator prints them. *)
Definition Path := list string.

(** [p.name]: the final component, the empty string when there is none. *)
Definition name (p : Path) : string := default "" (last p).

(** [p.parent]: the path without its final component. *)
Definition parent (p : Path) : Path := removelast p.

(** The index at which [suffix] and [stem] cut a name:
    [i = name.rfind('.')] when [0 < i < len(name) - 1]. *)
Definition suffix_index (nm : string) : option nat :=
  match rfind "." nm with
  | Some i => if decide (0 < i < String.length nm - 1) then Some i else None
  | None => None
  end.

(** [p.suffix] *)
Definition suffix (p : Path) : string :=
  match suffix_index (name p) with
  | Some i => str_drop i (name p)
  | None => ""
  end.

(** [p.stem] *)
Definition stem (p : Path) : string :=
  match suffix_index (name p) with
  | Some i => str_take i (name p)
  | None => name p
  end.

(** [s.split(c)] *)
Fixpoint split_on (c : ascii) (s : string) : list string :=
  match s with
  | "" => [""]
  | String a s' =>
      if decide (a = c) then "" :: split_on c s'
      else match split_on c s' with
           | h :: t => String a h :: t
           | [] => [String a ""]
           end
  end.

(** The components pathlib reads off a string: split at the separator,
    empty and single-dot pieces dropped. *)
Definition parse_parts (s : string) : list string :=
  filter (λ x, x ≠ "" ∧ x ≠ ".") (split_on "/" s).

(** [p / s]: an operand that starts with the separator is absolute and
    replaces [p]; otherwise its components are appended. *)
Definition truediv (p : Path) (s : string) : Path :=
  match s with
  | String "/" _ => "" :: parse_parts s
  | _ => p ++ parse_parts s
  end.

(** [p.with_name(n)]; [None] stands for the [ValueError] raised when [p] has
    an empty name or [n] is empty, a single dot or holds a separator.
    (CPython 3.11 lets a few names with a separator inside through; they do
    not reach this call, since every new name is sanitized and an extension
    has no separator.) *)
Definition with_name (p : Path) (n : string) : option Path :=
  if decide (name p = "") then None
  else if decide (n = "" ∨ n = "." ∨ contains "/" n = true) then None
  else Some (parent p ++ [n]).

(** [str(p)] *)
Definition path_str (p : Path) : string := String.concat "/" p.

(** ** The filesystem

    The entries below the walked root, each with its full path and kind, in
    the order in which the operating system enumerates them
    ([os.scandir] promises no particular order). *)
Record entry := Entry { e_path : Path; e_is_dir : bool }.

Definition FS := list entry.

Definition paths (fs : FS) : list Path := e_path <$> fs.

(** [p.exists()].  The double-dot entry of a directory is not listed among
    the entries but always resolves (to the directory above). *)
Definition path_exists (fs : FS) (p : Path) : bool :=
  bool_decide (name p = "..") || bool_decide (p ∈ paths fs).

Definition is_child (top : Path) (e : entry) : Prop :=
  parent (e_path e) = top ∧ e_path e ≠ [].

#[global] Instance is_child_dec top e : Decision (is_child top e).
Proof. unfold is_child. apply _. Defined.

(** [os.scandir(top)] as [os.walk] sorts it: the names of the
    sub-directories and the names of the other entries. *)
Definition scandir (fs : FS) (top : Path) : list string * list string :=
  let kids := filter (is_child top) fs in
  ((name ∘ e_path) <$> filter (λ e, e_is_dir e = true) kids,
   (name ∘ e_path) <$> filter (λ e, e_is_dir e = false) kids).

(** The path of an entry after [old] has been moved to [new]. *)
Definition reprefix (old new p : Path) : Path :=
  if decide (old `prefix_of` p) then new ++ drop (length old) p else p.

(** A successful [os.rename(old, new)]: the entry and everything below it
    move. *)
Definition fs_rename (old new : Path) (fs : FS) : FS :=
  (λ e, Entry (reprefix old new (e_path e)) (e_is_dir e)) <$> fs.

(** The operating system decides whether a rename goes through; when it
    does not, it gives the text of the exception. *)
Class OsRename := os_error : FS → Path → Path → option string.

(** ** Program state

    The three module-level objects of lines 24 to 26, the filesystem, the two
    counters local to [rename_items], and the record of what the run printed:
    one [event] per line [File: old -> new] or [Folder: old -> new]. *)
Inductive outcome :=
  | Previewed
  | Renamed
  | Failed (cause : string).

Record event := Event {
  ev_is_dir : bool;
  ev_old : Path;
  ev_new : Path;
  ev_outcome : outcome }.

Record State := mkState {
  fs : FS;
  reserved_paths : gset Path;
  conflict_log : list string;
  error_log : list string;
  file_counter : nat;
  folder_counter : nat;
  trace : list event }.

(** The module right after import (lines 24 to 26), on a given filesystem. *)
Definition module_loaded (disk : FS) : State :=
  mkState disk ∅ [] [] 0 0 [].

Definition reserve (p : Path) (st : State) : State :=
  mkState (fs st) ({[ p ]} ∪ reserved_paths st) (conflict_log st) (error_log st)
          (file_counter st) (folder_counter st) (trace st).

Definition log_conflict (msg : string) (st : State) : State :=
  mkState (fs st) (reserved_paths st) (conflict_log st ++ [msg]) (error_log st)
          (file_counter st) (folder_counter st) (trace st).

Definition log_error (msg : string) (st : State) : State :=
  mkState (fs st) (reserved_paths st) (conflict_log st) (error_log st ++ [msg])
          (file_counter st) (folder_counter st) (trace st).

Definition count (is_dir : bool) (st : State) : State :=
  mkState (fs st) (reserved_paths st) (conflict_log st) (error_log st)
          (if is_dir then file_counter st else S (file_counter st))
          (if is_dir then S (folder_counter st) else folder_counter st)
          (trace st).

Definition emit (e : event) (st : State) : State :=
  mkState (fs st) (reserved_paths st) (conflict_log st) (error_log st)
          (file_counter st) (folder_counter st) (trace st ++ [e]).

Definition set_fs (disk : FS) (st : State) : State :=
  mkState disk (reserved_paths st) (conflict_log st) (error_log st)
          (file_counter st) (folder_counter st) (trace st).

(** ** [get_unique_path] (line 33) *)

(** The test of lines 35 and 49. *)
Definition is_free (st : State) (p : Path) : bool :=
  negb (path_exists (fs st) p) && bool_decide (p ∉ reserved_paths st).

(** Line 47: the name tried at a given counter. *)
Definition candidate_name (new_file_path : Path) (counter : nat) : string :=
  stem new_file_path +:+ "_" +:+ str_nat counter +:+ suffix new_file_path.

(** Line 48 *)
Definition candidate (new_file_path : Path) (counter : nat) : Path :=
  truediv (parent new_file_path) (candidate_name new_file_path counter).

(** The loop of lines 46 to 53, for at most [budget] rounds: the counter at
    which it returns. *)
Fixpoint probe (budget : nat) (st : State) (new_file_path : Path)
    (counter : nat) : option nat :=
  match budget with
  | 0 => None
  | S budget' =>
      if is_free st (candidate new_file_path counter) then Some counter
      else probe budget' st new_file_path (S counter)
  end.

(** Every taken candidate is an entry of the filesystem or a reserved path,
    and different counters give different candidates, so the loop returns
    within this many rounds. *)
Definition loop_budget (st : State) : nat :=
  S (length (fs st) + size (reserved_paths st)).

Definition conflict_message (old_file_path : Path) (new_unique_file_name : string) : string :=
  "Renaming: " +:+ path_str old_file_path +:+ " -> " +:+ new_unique_file_name
    +:+ " to avoid conflict".

(** [None] only if the loop used up its budget. *)
Definition get_unique_path (old_file_path new_file_path : Path) (st : State)
    : option (Path * State) :=
  if is_free st new_file_path then Some (new_file_path, reserve new_file_path st)
  else
    match probe (loop_budget st) st new_file_path 1 with
    | Some counter =>
        let new_unique_file_name := candidate_name new_file_path counter in
        let new_unique_file_path := truediv (parent new_file_path) new_unique_file_name in
        Some (new_unique_file_path,
              reserve new_unique_file_path
                (log_conflict (conflict_message old_file_path new_unique_file_name) st))
    | None => None
    end.

(** ** [rename_items] (line 55) *)

(** How a run, or a part of it, ends. *)
Inductive result :=
  | Ok (st : State)
  | Raised (exn : string) (st : State)
  | Diverged.

Definition bind (r : result) (k : State → result) : result :=
  match r with
  | Ok st => k st
  | Raised e st => Raised e st
  | Diverged => Diverged
  end.

Notation "r >>= k" := (bind r k) (at level 50, left associativity).

(** A [for] loop over a list. *)
Fixpoint for_each {A} (body : A → State → result) (l : list A) (st : State) : result :=
  match l with
  | [] => Ok st
  | x :: l' => body x st >>= for_each body l'
  end.

(** Lines 65 and 66: the dictionary comprehension inserts row after row. *)
Definition build_map (rows : list (pyobj * pyobj)) : gmap string string :=
  foldl (λ m row, <[ py_str row.1 := sanitize_filename row.2 ]> m) ∅ rows.

Definition error_message (is_dir : bool) (old_path : Path) (new_name cause : string) : string :=
  "Failed to rename " +:+ (if is_dir then "folder " else "file ") +:+ path_str old_path
    +:+ " -> " +:+ new_name +:+ ": " +:+ cause.

Section engine.
Context `{OsRename}.
Variable dry_run : bool.
Variables file_map folder_map : gmap string string.

(** Lines 87 to 93 and 106 to 112: print, count, and unless this is a dry
    run, rename inside [try]. *)
Definition attempt (is_dir : bool) (old_path new_path : Path) (st : State) : result :=
  let st := count is_dir st in
  if dry_run then Ok (emit (Event is_dir old_path new_path Previewed) st)
  else
    match os_error (fs st) old_path new_path with
    | None =>
        Ok (emit (Event is_dir old_path new_path Renamed)
              (set_fs (fs_rename old_path new_path (fs st)) st))
    | Some cause =>
        Ok (emit (Event is_dir old_path new_path (Failed cause))
              (log_error (error_message is_dir old_path (name new_path) cause) st))
    end.

(** Lines 82 to 93 and 101 to 112, for an entry whose new name is known. *)
Definition rename_to (is_dir : bool) (old_path : Path) (new_name : string)
    (st : State) : result :=
  match with_name old_path new_name with
  | None => Raised "ValueError" st
  | Some new_path =>
      match get_unique_path old_path new_path st with
      | None => Diverged
      | Some (new_path, st) => attempt is_dir old_path new_path st
      end
  end.

(** Lines 76 to 93: the body of the loop over [files]. *)
Definition process_file (root : Path) (file_name : string) (st : State) : result :=
  let old_file_path := truediv root file_name in
  let old_stem := stem old_file_path in
  let extension := suffix old_file_path in
  match file_map !! old_stem with
  | Some new_stem => rename_to false old_file_path (new_stem +:+ extension) st
  | None => Ok st
  end.

(** Lines 98 to 112: the body of the loop over [dirs]. *)
Definition process_dir (root : Path) (dir_name : string) (st : State) : result :=
  let old_dir_path := truediv root dir_name in
  match folder_map !! dir_name with
  | Some new_dir_name => rename_to true old_dir_path new_dir_name st
  | None => Ok st
  end.

(** Line 72 with the loop body of lines 74 to 112:
    [os.walk(top, topdown=False)] lists [top], walks into every
    sub-directory, and only then yields [(top, dirs, files)]; the body runs
    at each yield, so it is interleaved with the walk.  [depth] bounds the
    nesting of the recursion.  Symbolic links are left out of the model. *)
Fixpoint walk (depth : nat) (top : Path) (st : State) : result :=
  match depth with
  | 0 => Diverged
  | S depth' =>
      let '(dirs, files) := scandir (fs st) top in
      for_each (λ dir_name, walk depth' (truediv top dir_name)) dirs st
        >>= for_each (process_file top) files
        >>= for_each (process_dir top) dirs
  end.
End engine.

(** The walk never goes deeper than the longest path is long. *)
Definition walk_budget (disk : FS) : nat :=
  S (max_list (length <$> paths disk)).

(** Lines 57 and 58 *)
Definition enter (st : State) : State :=
  mkState (fs st) (reserved_paths st) (conflict_log st) (error_log st) 0 0 [].

(** [rename_items(root_directory, files_csv, folders_csv, dry_run)] called
    in state [st]; the value returned on line 127 is the pair of counters of
    the final state. *)
Definition rename_items `{OsRename} (root_directory : Path)
    (files_csv folders_csv : list (pyobj * pyobj)) (dry_run : bool)
    (st : State) : result :=
  let file_map := build_map files_csv in
  let folder_map := build_map folders_csv in
  walk dry_run file_map folder_map (walk_budget (fs st)) root_directory (enter st).

Definition returned (r : result) : option (nat * nat) :=
  match r with
  | Ok st => Some (file_counter st, folder_counter st)
  | _ => None
  end.

(** The state in which a run ended, normally or by an exception. *)
Definition final (r : result) : option State :=
  match r with
  | Ok st => Some st
  | Raised _ st => Some st
  | Diverged => None
  end.

(** ** Well-formed inputs *)

(** A name a directory entry can have. *)
Definition valid_name (n : string) : Prop :=
  n ≠ "" ∧ n ≠ "." ∧ contains "/" n = false.

#[global] Instance valid_name_dec n : Decision (valid_name n).
Proof. unfold valid_name. apply _. Defined.

(** [p] lies below the directory [d]. *)
Definition below (d p : Path) : Prop := d `prefix_of` p ∧ d ≠ p.

#[global] Instance below_dec d p : Decision (below d p).
Proof. unfold below. apply _. Defined.

(** The filesystem under [base]: no path is listed twice, every entry lies
    below [base], has a valid name, and the directories on the way down to
    it are entries themselves. *)
Definition wf_fs (base : Path) (disk : FS) : Prop :=
  NoDup (paths disk)
  ∧ ∀ p, p ∈ paths disk →
      below base p ∧ valid_name (name p)
      ∧ ∀ q, below base q → q `prefix_of` p → q ∈ paths disk.

(** No path is as long as [n]. *)
Definition bounded (n : nat) (disk : FS) : Prop :=
  ∀ p, p ∈ paths disk → length p < n.

(** A new name in a mapping table that [with_name] accepts once it is
    sanitized. *)
Definition usable_row (row : pyobj * pyobj) : Prop :=
  py_str row.2 ≠ "" ∧ py_str row.2 ≠ ".".

(** Every new name in a lookup mapping is one [with_name] accepts. *)
Definition clean_map (m : gmap string string) : Prop :=
  ∀ k v, m !! k = Some v → valid_name v.

(** ** Vocabulary of the properties *)

(** The paths [get_unique_path] returned during the run, in order. *)
Definition returned_paths (st : State) : list Path := ev_new <$> trace st.

(** The kind and path of a handled entry. *)
Definition ev_entry (e : event) : bool * Path := (ev_is_dir e, ev_old e).

(** Line 93 or 112 for an event: the entry it adds to [error_log]. *)
Definition failure_message (e : event) : option string :=
  match ev_outcome e with
  | Failed cause =>
      Some (error_message (ev_is_dir e) (ev_old e) (name (ev_new e)) cause)
  | _ => None
  end.

(** [p], or a directory above it, was renamed away by one of the events. *)
Definition vacated (tr : list event) (p : Path) : Prop :=
  ∃ e, e ∈ tr ∧ ev_outcome e = Renamed ∧ ev_old e `prefix_of` p.

(** The order in which two entries may be handled one after the other: the
    second is not below the first. *)
Definition bottom_up (a b : event) : Prop := ¬ below (ev_old a) (ev_old b).

(** What a state says about deconfliction, conflict logging and counting:
    the reserved paths, the conflict log, the counters and, for each handled
    entry, its kind, its path and the destination chosen for it.  The
    filesystem, the error log and how the entry was dealt with are left
    out. *)
Definition plan (st : State)
    : gset Path * list string * nat * nat * list (bool * Path * Path) :=
  (reserved_paths st, conflict_log st, file_counter st, folder_counter st,
   (λ e, (ev_is_dir e, ev_old e, ev_new e)) <$> trace st).

Definition plan_of (r : result) : option (option string * _) :=
  match r with
  | Ok st => Some (None, plan st)
  | Raised exn st => Some (Some exn, plan st)
  | Diverged => None
  end.

(** The entries a run handles, read off the filesystem as it is before the
    run: first those below each sub-directory of [top], then the files of
    [top] whose stem is a key of the file mapping, then the sub-directories
    of [top] whose name is a key of the folder mapping. *)
Fixpoint targets (file_map folder_map : gmap string string) (depth : nat)
    (disk : FS) (top : Path) : list (bool * Path) :=
  match depth with
  | 0 => []
  | S depth' =>
      let '(dirs, files) := scandir disk top in
      concat ((λ dir_name, targets file_map folder_map depth' disk (truediv top dir_name))
                <$> dirs)
      ++ omap (λ n, (λ _, (false, truediv top n)) <$> file_map !! stem (truediv top n)) files
      ++ omap (λ n, (λ _, (true, truediv top n)) <$> folder_map !! n) dirs
  end.

(** What lines 85 to 93 (and 104 to 112) do to the state for one entry:
    [new_path] is the path [get_unique_path] returned and [out] says how the
    entry was dealt with. *)
Definition handled `{OsRename} (dry_run is_dir : bool) (old_path new_path : Path)
    (out : outcome) (st st' : State) : Prop :=
  is_free st new_path = true
  ∧ old_path ≠ [] ∧ parent new_path = parent old_path ∧ valid_name (name new_path)
  ∧ reserved_paths st' = {[ new_path ]} ∪ reserved_paths st
  ∧ trace st' = trace st ++ [Event is_dir old_path new_path out]
  ∧ file_counter st' = (if is_dir then file_counter st else S (file_counter st))
  ∧ folder_counter st' = (if is_dir then S (folder_counter st) else folder_counter st)
  ∧ (∃ msgs, conflict_log st' = conflict_log st ++ msgs)
  ∧ match out with
    | Previewed =>
        dry_run = true ∧ fs st' = fs st ∧ error_log st' = error_log st
    | Renamed =>
        dry_run = false ∧ os_error (fs st) old_path new_path = None
        ∧ fs st' = fs_rename old_path new_path (fs st)
        ∧ error_log st' = error_log st
    | Failed cause =>
        dry_run = false ∧ os_error (fs st) old_path new_path = Some cause
        ∧ fs st' = fs st
        ∧ error_log st'
          = error_log st ++ [error_message is_dir old_path (name new_path) cause]
    end.

(** The shape of a loop invariant: [ok] on normal exit, [exc] when an
    exception leaves the loop; running out of budget is excluded. *)
Definition ends (ok exc : State → Prop) (r : result) : Prop :=
  match r with
  | Ok st => ok st
  | Raised _ st => exc st
  | Diverged => False
  end.

(** ** Sample inputs *)

(** An operating system on which every rename goes through. *)
Definition always_ok : OsRename := λ _ _ _, None.

(** An operating system that refuses every rename. *)
Definition denying : OsRename := λ _ _ _, Some "Permission denied".

(** Two files in the root whose names the table swaps. *)
Definition swap_disk : FS :=
  [Entry ["r"; "a.txt"] false; Entry ["r"; "b.txt"] false].

Definition swap_csv : list (pyobj * pyobj) :=
  [(PyStr "a", PyStr "b"); (PyStr "b", PyStr "a")].

(** One file in the root, renamed by the table. *)
Definition one_disk : FS := [Entry ["r"; "a.txt"] false].

Definition one_csv : list (pyobj * pyobj) := [(PyStr "a", PyStr "z")].

(** A directory with a file inside, and a directory with a dot in its name
    next to a directory that the table renames to that name. *)
Definition tree_disk : FS :=
  [Entry ["r"; "OldFolder"] true; Entry ["r"; "OldFolder"; "doc.pdf"] false;
   Entry ["r"; "v1.2"] true; Entry ["r"; "x"] true].

(** ** Vocabulary of the further properties *)

(** The filesystem after the renames of a record that went through have
    been applied, in order. *)
Definition replay (tr : list event) (disk : FS) : FS :=
  foldl (λ d e,
           match ev_outcome e with
           | Renamed => fs_rename (ev_old e) (ev_new e) d
           | _ => d
           end) disk tr.

(** The kinds of the entries, in the order of the listing. *)
Definition kinds (disk : FS) : list bool := e_is_dir <$> disk.

(** Every event of a record found its old path among the entries, and its
    new path not among them, on the filesystem as the events before it had
    left it. *)
Definition sourced (disk : FS) (evs : list event) : Prop :=
  ∀ j e, evs !! j = Some e →
    ev_old e ∈ paths (replay (take j evs) disk)
    ∧ ev_new e ∉ paths (replay (take j evs) disk).

(** The new name lines 81 and 100 compute for an entry: for a file the
    mapped stem followed by the old extension, for a directory the mapped
    name. *)
Definition mapped_name (file_map folder_map : gmap string string)
    (is_dir : bool) (old_path : Path) (new_name : string) : Prop :=
  if is_dir then folder_map !! name old_path = Some new_name
  else ∃ new_stem, file_map !! stem old_path = Some new_stem
                   ∧ new_name = new_stem +:+ suffix old_path.

(** The destination of an event is the entry's directory joined with
    [new_name], or a candidate of that path. *)
Definition named_after (new_name : string) (e : event) : Prop :=
  ev_new e = parent (ev_old e) ++ [new_name]
  ∨ ∃ k, 1 ≤ k ∧ ev_new e = candidate (parent (ev_old e) ++ [new_name]) k.

(** The test of line 80 for a file and of line 99 for a directory. *)
Definition matched (file_map folder_map : gmap string string)
    (is_dir : bool) (p : Path) : Prop :=
  if is_dir then is_Some (folder_map !! name p) else is_Some (file_map !! stem p).

(** [os.walk] gets from [top] to [p]: whatever lies between them is a
    directory. *)
Definition reachable (disk : FS) (top p : Path) : Prop :=
  ∀ q, below top q → below q p → Entry q true ∈ disk.

(** Lines 81 and 100: the name asked for an entry, if it matches. *)
Definition asked_name (file_map folder_map : gmap string string)
    (t : bool * Path) : option string :=
  if t.1 then folder_map !! name t.2
  else (λ new_stem, new_stem +:+ suffix t.2) <$> file_map !! stem t.2.

Definition desired_name (file_map folder_map : gmap string string)
    (e : event) : option string :=
  asked_name file_map folder_map (ev_entry e).

(** Lines 82 and 101: [with_name] raises [ValueError] on the name asked for
    the entry. *)
Definition refused (file_map folder_map : gmap string string)
    (t : bool * Path) : Prop :=
  ∃ n, asked_name file_map folder_map t = Some n ∧ ¬ valid_name n.

(** The only exception a result may carry is [ValueError]. *)
Definition value_error_only (r : result) : Prop :=
  match r with
  | Raised exn _ => exn = "ValueError"
  | _ => True
  end.

(** Line 50 for an event: the entry it adds to [conflict_log]. *)
Definition logged_conflict (file_map folder_map : gmap string string)
    (e : event) : option string :=
  match desired_name file_map folder_map e with
  | Some n =>
      if decide (ev_new e = parent (ev_old e) ++ [n]) then None
      else Some (conflict_message (ev_old e) (name (ev_new e)))
  | None => None
  end.

(** * Properties *)

(** *** Strings *)

Lemma app_String (a : ascii) (s t : string) :
  String a s +:+ t = String a (s +:+ t).
Proof. reflexivity. Qed.

Lemma app_empty_l (t : string) : "" +:+ t = t.
Proof. reflexivity. Qed.

Lemma app_empty_r (s : string) : s +:+ "" = s.
Proof. induction s as [|a s IH]; [done|]. by rewrite app_String, IH. Qed.

Lemma length_app_str (s t : string) :
  String.length (s +:+ t) = String.length s + String.length t.
Proof.
  induction s as [|a s IH]; [done|]. rewrite app_String. simpl. by rewrite IH.
Qed.

Lemma contains_app c s t : contains c (s +:+ t) = contains c s || contains c t.
Proof.
  induction s as [|a s IH]; [done|]. rewrite app_String. simpl.
  by destruct (decide (a = c)).
Qed.

Lemma str_take_drop i s : str_take i s +:+ str_drop i s = s.
Proof.
  revert s. induction i as [|i IH]; intros [|a s]; try done.
  simpl. by rewrite app_String, IH.
Qed.

Lemma str_nat_inj n m : str_nat n = str_nat m → n = m.
Proof.
  unfold str_nat. intros H.
  apply (f_equal NilEmpty.uint_of_string) in H.
  rewrite !NilEmpty.usu in H. injection H as H.
  apply (f_equal Nat.of_uint) in H. by rewrite !DecimalNat.Unsigned.of_to in H.
Qed.

Lemma contains_string_of_uint c d :
  Ascii.is_nat c = None → contains c (NilEmpty.string_of_uint d) = false.
Proof.
  intros Hc. induction d; simpl; try done;
    (destruct (decide (_ = c)) as [<-|]; [done|assumption]).
Qed.

Lemma contains_str_nat c n : Ascii.is_nat c = None → contains c (str_nat n) = false.
Proof. apply contains_string_of_uint. Qed.

Lemma app_inj_r_str (s1 s2 t : string) : s1 +:+ t = s2 +:+ t → s1 = s2.
Proof.
  revert s2. induction s1 as [|a s1 IH]; intros [|b s2] Heq; try done.
  - apply (f_equal String.length) in Heq.
    rewrite app_empty_l, app_String in Heq. simpl in Heq.
    rewrite length_app_str in Heq. lia.
  - apply (f_equal String.length) in Heq.
    rewrite app_empty_l, app_String in Heq. simpl in Heq.
    rewrite length_app_str in Heq. lia.
  - rewrite !app_String in Heq. injection Heq as -> Heq. f_equal. by apply IH.
Qed.

(** *** The sanitizer *)

Lemma re_sub_class_length cls (r : ascii) s :
  String.length (re_sub_class cls (String r "") s) = String.length s.
Proof.
  induction s as [|a s IH]; [done|]. simpl.
  destruct (cls a); rewrite ?app_String, ?app_empty_l; simpl; by rewrite IH.
Qed.

Lemma re_sub_class_get cls (r : ascii) s i :
  String.get i (re_sub_class cls (String r "") s)
  = (λ c, if cls c then r else c) <$> String.get i s.
Proof.
  revert i. induction s as [|a s IH]; intros i; [done|]. simpl.
  destruct (cls a) eqn:Ha; rewrite ?app_String, ?app_empty_l;
    destruct i as [|i]; simpl; rewrite ?Ha; try done; apply IH.
Qed.

Lemma re_sub_class_clean cls (r : ascii) s c :
  cls r = false → cls c = true →
  contains c (re_sub_class cls (String r "") s) = false.
Proof.
  intros Hr Hc. induction s as [|a s IH]; [done|]. simpl.
  destruct (cls a) eqn:Ha; rewrite ?app_String, ?app_empty_l; simpl;
    rewrite IH; case_decide; congruence.
Qed.

Lemma re_sub_class_idem cls (r : ascii) s :
  cls r = false →
  re_sub_class cls (String r "") (re_sub_class cls (String r "") s)
  = re_sub_class cls (String r "") s.
Proof.
  intros Hr. induction s as [|a s IH]; [done|]. simpl.
  destruct (cls a) eqn:Ha; rewrite ?app_String, ?app_empty_l; simpl;
    rewrite ?Hr, ?Ha, ?app_String, ?app_empty_l; by rewrite IH.
Qed.

Lemma re_sub_class_id cls r s :
  (∀ c, cls c = true → contains c s = false) → re_sub_class cls r s = s.
Proof.
  induction s as [|a s IH]; [done|]. intros Hs. simpl.
  destruct (cls a) eqn:Ha.
  - specialize (Hs a Ha). simpl in Hs. by rewrite decide_True in Hs.
  - f_equal. apply IH. intros c Hc. specialize (Hs c Hc). simpl in Hs.
    by case_decide.
Qed.

(** C9.  [sanitize_filename] is a function on every value a mapping table can
    hold: the value is first turned into its [str], the result has the same
    length, each position holds an underscore where the input held a
    reserved character and the input's character elsewhere, so no reserved
    character is left; and sanitizing a sanitized name changes nothing. *)
Theorem sanitize_filename_spec (x : pyobj) :
  String.length (sanitize_filename x) = String.length (py_str x)
  ∧ (∀ i, String.get i (sanitize_filename x)
          = (λ c, if reserved_char c then "_"%char else c) <$> String.get i (py_str x))
  ∧ (∀ c, reserved_char c && contains c (sanitize_filename x) = false)
  ∧ sanitize_filename (PyStr (sanitize_filename x)) = sanitize_filename x.
Proof.
  unfold sanitize_filename. repeat split.
  - apply re_sub_class_length.
  - apply re_sub_class_get.
  - intros c. destruct (reserved_char c) eqn:Hc; [|done]. simpl.
    by apply re_sub_class_clean.
  - simpl. by apply re_sub_class_idem.
Qed.

(** *** The lookup mappings *)

Lemma build_map_snoc rows row :
  build_map (rows ++ [row]) = <[ py_str row.1 := sanitize_filename row.2 ]> (build_map rows).
Proof. unfold build_map. by rewrite foldl_app. Qed.

Lemma build_map_app_notin rows rows' (k : string) :
  Forall (λ row, py_str row.1 ≠ k) rows' →
  build_map (rows ++ rows') !! k = build_map rows !! k.
Proof.
  induction rows' as [|row rows' IH] using rev_ind; intros Hk.
  - by rewrite app_nil_r.
  - apply Forall_app in Hk as [Hk Hrow%Forall_inv].
    rewrite app_assoc, build_map_snoc, lookup_insert_ne; [by apply IH|done].
Qed.

(** C7.  When a table holds a row for [A] and later another row for [A],
    and no row for [A] after that, the dictionary built on lines 65 and 66
    maps [A] to the (sanitized) new name of the later row, whatever the
    earlier row said; the new name itself when it has no reserved
    character. *)
Theorem build_map_last_write_wins (before between after : list (pyobj * pyobj))
    (A B C : pyobj) :
  Forall (λ row, py_str row.1 ≠ py_str A) after →
  let m := build_map (before ++ [(A, B)] ++ between ++ [(A, C)] ++ after) in
  m !! py_str A = Some (sanitize_filename C)
  ∧ ((∀ c, reserved_char c && contains c (py_str C) = false) →
     m !! py_str A = Some (py_str C)).
Proof.
  intros Hafter m.
  assert (Hm : m !! py_str A = Some (sanitize_filename C)).
  { unfold m. rewrite !app_assoc, build_map_app_notin by done.
    rewrite build_map_snoc. simpl. by rewrite lookup_insert_eq. }
  split; [done|]. intros Hclean. rewrite Hm. f_equal.
  apply re_sub_class_id. intros c Hc. specialize (Hclean c).
  by rewrite Hc in Hclean.
Qed.

Lemma build_map_last_write_wins_witness :
  build_map ([(PyStr "A", PyStr "B")] ++ [(PyStr "A", PyStr "C")]) !! "A" = Some "C".
Proof.
  apply (build_map_last_write_wins [] [] [] (PyStr "A") (PyStr "B") (PyStr "C")).
  - constructor.
  - intros c. simpl. repeat case_decide; subst; try done; by rewrite andb_false_r.
Defined.

(** *** Paths *)

Lemma name_snoc (p : Path) (n : string) : name (p ++ [n]) = n.
Proof. unfold name. by rewrite last_snoc. Qed.

Lemma parent_snoc (p : Path) (n : string) : parent (p ++ [n]) = p.
Proof. apply removelast_last. Qed.

Lemma parent_name (p : Path) : p ≠ [] → p = parent p ++ [name p].
Proof.
  intros Hp. destruct (exists_last Hp) as (q & n & ->).
  by rewrite parent_snoc, name_snoc.
Qed.

Lemma split_on_single c s : contains c s = false → split_on c s = [s].
Proof.
  induction s as [|a s IH]; [done|]. simpl.
  destruct (decide (a = c)); [done|]. intros Hs. by rewrite IH.
Qed.

Lemma parse_parts_single s :
  contains "/" s = false → s ≠ "" → s ≠ "." → parse_parts s = [s].
Proof.
  intros Hs H1 H2. unfold parse_parts. rewrite split_on_single by done.
  rewrite filter_cons_True by done. done.
Qed.

Lemma truediv_single (p : Path) s :
  contains "/" s = false → s ≠ "" → s ≠ "." → truediv p s = p ++ [s].
Proof.
  intros Hs H1 H2. unfold truediv. rewrite parse_parts_single by done.
  destruct s as [|a s]; [done|]. simpl in Hs.
  destruct (decide (a = "/"%char)) as [->|Hne]; [done|].
  destruct a as [[] [] [] [] [] [] [] []]; done.
Qed.

Lemma stem_suffix (p : Path) : stem p +:+ suffix p = name p.
Proof.
  unfold stem, suffix. destruct (suffix_index (name p)).
  - apply str_take_drop.
  - apply app_empty_r.
Qed.

Lemma contains_stem c (p : Path) :
  contains c (name p) = false → contains c (stem p) = false.
Proof.
  rewrite <- (stem_suffix p), contains_app. by intros [??]%orb_false_elim.
Qed.

Lemma contains_suffix c (p : Path) :
  contains c (name p) = false → contains c (suffix p) = false.
Proof.
  rewrite <- (stem_suffix p), contains_app. by intros [??]%orb_false_elim.
Qed.

(** *** Candidate names *)

Lemma candidate_name_underscore new counter :
  contains "_" (candidate_name new counter) = true.
Proof.
  unfold candidate_name. rewrite !contains_app. simpl.
  by rewrite orb_true_r.
Qed.

Lemma candidate_name_no_sep new counter :
  contains "/" (name new) = false →
  contains "/" (candidate_name new counter) = false.
Proof.
  intros Hn. unfold candidate_name. rewrite !contains_app.
  rewrite contains_stem, contains_suffix, contains_str_nat by done. done.
Qed.

Lemma candidate_name_not_special new counter (s : string) :
  contains "_" s = false → candidate_name new counter ≠ s.
Proof.
  intros Hs Heq. pose proof (candidate_name_underscore new counter) as Hu.
  rewrite Heq in Hu. congruence.
Qed.

Lemma candidate_snoc new counter :
  contains "/" (name new) = false →
  candidate new counter = parent new ++ [candidate_name new counter].
Proof.
  intros Hn. unfold candidate. apply truediv_single.
  - by apply candidate_name_no_sep.
  - by apply candidate_name_not_special.
  - by apply candidate_name_not_special.
Qed.

Lemma candidate_name_inj new c1 c2 :
  candidate_name new c1 = candidate_name new c2 → c1 = c2.
Proof.
  unfold candidate_name. intros Heq.
  apply (inj (String.app _)) in Heq. apply (inj (String.app _)) in Heq.
  apply app_inj_r_str in Heq. by apply str_nat_inj.
Qed.

Lemma candidate_inj new c1 c2 :
  contains "/" (name new) = false →
  candidate new c1 = candidate new c2 → c1 = c2.
Proof.
  intros Hn. rewrite !candidate_snoc by done.
  intros Heq%app_inv_head. injection Heq as Heq. by apply candidate_name_inj in Heq.
Qed.

(** *** The search loop *)

Lemma probe_Some budget st new c k :
  probe budget st new c = Some k →
  is_free st (candidate new k) = true
  ∧ c ≤ k
  ∧ ∀ j, c ≤ j < k → is_free st (candidate new j) = false.
Proof.
  revert c. induction budget as [|b IH]; intros c; [done|]. simpl.
  destruct (is_free st (candidate new c)) eqn:Hfree.
  - intros [= <-]. repeat split; [done|lia|]. intros j Hj. lia.
  - intros (Hk & Hle & Hlt)%IH. repeat split; [done|lia|].
    intros j Hj. destruct (decide (j = c)) as [->|]; [done|]. apply Hlt. lia.
Qed.

Lemma probe_None budget st new c :
  probe budget st new c = None →
  ∀ j, c ≤ j < c + budget → is_free st (candidate new j) = false.
Proof.
  revert c. induction budget as [|b IH]; intros c; simpl; [lia|].
  destruct (is_free st (candidate new c)) eqn:Hfree; [done|].
  intros Hb j Hj. destruct (decide (j = c)) as [->|]; [done|].
  apply (IH _ Hb). lia.
Qed.

Lemma not_free_blocked st p :
  name p ≠ ".." → is_free st p = false →
  p ∈ paths (fs st) ++ elements (reserved_paths st).
Proof.
  unfold is_free, path_exists. intros Hn Hf. apply elem_of_app.
  rewrite bool_decide_eq_false_2 in Hf by done. simpl in Hf.
  destruct (bool_decide (p ∈ paths (fs st))) eqn:Hp.
  - left. by apply bool_decide_eq_true in Hp.
  - right. simpl in Hf. apply bool_decide_eq_false in Hf.
    apply elem_of_elements. by apply dec_stable.
Qed.

(** The budget is never used up: among [loop_budget st] consecutive
    counters one gives a free candidate. *)
Lemma probe_finds st new c :
  contains "/" (name new) = false →
  is_Some (probe (loop_budget st) st new c).
Proof.
  intros Hn. destruct (probe _ _ _ _) eqn:Hp; [by eexists|exfalso].
  pose proof (probe_None _ _ _ _ Hp) as Hall.
  set (cands := candidate new <$> seq c (loop_budget st)).
  assert (Hnd : NoDup cands).
  { apply NoDup_fmap_2_strong; [|apply NoDup_seq].
    intros ?? _ _. by apply candidate_inj. }
  assert (Hsub : cands ⊆ paths (fs st) ++ elements (reserved_paths st)).
  { intros p (j & -> & Hj%elem_of_seq)%list_elem_of_fmap.
    apply not_free_blocked; [|apply Hall; lia].
    rewrite candidate_snoc, name_snoc by done.
    by apply candidate_name_not_special. }
  apply NoDup_submseteq in Hsub; [|done].
  apply submseteq_length in Hsub.
  unfold cands, paths in Hsub.
  rewrite length_fmap, length_seq, length_app, length_fmap in Hsub.
  unfold loop_budget in Hsub. fold (size (reserved_paths st)) in Hsub.
  unfold loop_budget, size, set_size in *. simpl in *. lia.
Qed.

Lemma get_unique_path_total old new st :
  contains "/" (name new) = false → is_Some (get_unique_path old new st).
Proof.
  intros Hn. unfold get_unique_path.
  destruct (is_free st new); [by eexists|].
  destruct (probe_finds st new 1 Hn) as [k ->]. by eexists.
Qed.

(** What a call returns and how it leaves the state. *)
Lemma get_unique_path_inv old new st p st' :
  get_unique_path old new st = Some (p, st') →
  is_free st p = true
  ∧ reserved_paths st' = {[ p ]} ∪ reserved_paths st
  ∧ fs st' = fs st ∧ error_log st' = error_log st
  ∧ file_counter st' = file_counter st ∧ folder_counter st' = folder_counter st
  ∧ trace st' = trace st
  ∧ ((p = new ∧ conflict_log st' = conflict_log st)
     ∨ (∃ k, 1 ≤ k ∧ p = candidate new k ∧ is_free st new = false
          ∧ (∀ j, 1 ≤ j < k → is_free st (candidate new j) = false)
          ∧ conflict_log st'
            = conflict_log st ++ [conflict_message old (candidate_name new k)])).
Proof.
  unfold get_unique_path. destruct (is_free st new) eqn:Hfree.
  - intros [= <- <-]. repeat split; try done. by left.
  - destruct (probe _ _ _ _) as [k|] eqn:Hp; [|done].
    intros [= <- <-]. apply probe_Some in Hp as (Hk & Hle & Hlt).
    repeat split; try done. right. exists k. by repeat split.
Qed.

(** C10.  A call to [get_unique_path] with a destination whose final
    component holds no separator (as every pathlib path does) returns, and
    the path it returns has the parent of the destination. *)
Theorem get_unique_path_same_parent (old new : Path) (st : State) :
  contains "/" (name new) = false →
  ∃ p st', get_unique_path old new st = Some (p, st') ∧ parent p = parent new.
Proof.
  intros Hn. destruct (get_unique_path_total old new st Hn) as [[p st'] Hg].
  exists p, st'. split; [done|].
  apply get_unique_path_inv in Hg as (_ & _ & _ & _ & _ & _ & _ & Hcase).
  destruct Hcase as [[-> _]|(k & _ & -> & _)]; [done|].
  by rewrite candidate_snoc, parent_snoc.
Qed.

Lemma get_unique_path_same_parent_witness :
  ∃ p st', get_unique_path ["r"; "a.txt"] ["r"; "b.txt"]
             (module_loaded [Entry ["r"; "b.txt"] false]) = Some (p, st')
           ∧ parent p = parent ["r"; "b.txt"].
Proof. apply get_unique_path_same_parent. reflexivity. Defined.

(** *** Listing and renaming *)

Lemma with_name_Some (p : Path) n q :
  with_name p n = Some q → p ≠ [] ∧ valid_name n ∧ q = parent p ++ [n].
Proof.
  unfold with_name, valid_name. repeat case_decide; try done.
  intros [= <-]. split; [by intros ->|]. split; [|done].
  destruct (contains "/" n) eqn:?; naive_solver.
Qed.

Lemma with_name_valid (p : Path) n :
  p ≠ [] → name p ≠ "" → valid_name n → with_name p n = Some (parent p ++ [n]).
Proof.
  unfold with_name, valid_name. intros _ Hp (H1 & H2 & H3).
  rewrite decide_False by done. rewrite decide_False; [done|].
  intros [?|[?|?]]; congruence.
Qed.

Lemma below_length (d p : Path) : below d p → length d < length p.
Proof.
  intros [[k ->] Hne]. rewrite length_app.
  destruct k; [by rewrite app_nil_r in Hne|]. simpl. lia.
Qed.

Lemma below_snoc (d : Path) n : below d (d ++ [n]).
Proof.
  split; [by apply prefix_app_r|]. intros Heq.
  apply (f_equal length) in Heq. rewrite length_app in Heq. simpl in Heq. lia.
Qed.

Lemma below_prefix_l (a d p : Path) : a `prefix_of` d → below d p → below a p.
Proof.
  intros Had Hdp. split; [by etrans; [|apply Hdp]|].
  intros ->. apply below_length in Hdp. apply prefix_length in Had. lia.
Qed.

Lemma is_child_iff top e :
  is_child top e ↔ e_path e = top ++ [name (e_path e)].
Proof.
  unfold is_child. split.
  - intros [<- Hne]. by apply parent_name.
  - intros Heq. rewrite Heq. rewrite parent_snoc. split; [done|].
    by destruct top.
Qed.

Lemma NoDup_fmap_inj_on {A B} (f : A → B) (l : list A) x y :
  NoDup (f <$> l) → x ∈ l → y ∈ l → f x = f y → x = y.
Proof.
  induction l as [|a l IH]; [by intros _ ?%elem_of_nil|].
  rewrite fmap_cons, NoDup_cons, !elem_of_cons.
  intros [Ha Hnd] [->|Hx] [->|Hy] Hf; try done.
  - destruct Ha. rewrite Hf. by apply list_elem_of_fmap_2.
  - destruct Ha. rewrite <- Hf. by apply list_elem_of_fmap_2.
  - by apply IH.
Qed.

Lemma elem_of_scandir disk top n :
  n ∈ (scandir disk top).1 ∨ n ∈ (scandir disk top).2 ↔ top ++ [n] ∈ paths disk.
Proof.
  unfold scandir, paths. simpl. rewrite !list_elem_of_fmap. split.
  - intros [(e & -> & He)|(e & -> & He)];
      apply list_elem_of_filter in He as [_ He];
      apply list_elem_of_filter in He as [Hc%is_child_iff He];
      exists e; (split; [by symmetry|done]).
  - intros (e & Hp & He).
    assert (Hc : is_child top e) by (apply is_child_iff; by rewrite <- Hp, name_snoc).
    assert (Hn : n = (name ∘ e_path) e) by (simpl; by rewrite <- Hp, name_snoc).
    destruct (e_is_dir e) eqn:Hd; [left|right]; exists e; (split; [done|]);
      by rewrite !list_elem_of_filter.
Qed.

Lemma scandir_NoDup disk top :
  NoDup (paths disk) → NoDup (scandir disk top).1 ∧ NoDup (scandir disk top).2.
Proof.
  intros Hnd.
  assert (Hinj : ∀ (P : entry → Prop) `{∀ e, Decision (P e)},
    NoDup ((name ∘ e_path) <$> filter P (filter (is_child top) disk))).
  { intros P ?. apply NoDup_fmap_2_strong.
    - intros e1 e2 [_ [H1%is_child_iff He1]%list_elem_of_filter]%list_elem_of_filter
        [_ [H2%is_child_iff He2]%list_elem_of_filter]%list_elem_of_filter Hn.
      simpl in Hn. apply (NoDup_fmap_inj_on e_path disk); try done.
      by rewrite H1, H2, Hn.
    - do 2 apply NoDup_filter. by apply (NoDup_fmap_1 e_path). }
  split; apply Hinj.
Qed.

Lemma paths_fs_rename old new disk :
  paths (fs_rename old new disk) = reprefix old new <$> paths disk.
Proof. unfold paths, fs_rename. rewrite <- !list_fmap_compose. done. Qed.

Lemma reprefix_under (d : Path) o n k :
  reprefix (d ++ [o]) (d ++ [n]) (d ++ o :: k) = d ++ n :: k.
Proof.
  replace (d ++ o :: k) with ((d ++ [o]) ++ k) by (by rewrite <- app_assoc).
  unfold reprefix. rewrite decide_True by (by apply prefix_app_r).
  by rewrite drop_app_length, <- app_assoc.
Qed.

Lemma reprefix_other (old new p : Path) :
  ¬ old `prefix_of` p → reprefix old new p = p.
Proof. intros Hp. unfold reprefix. by rewrite decide_False. Qed.

Lemma prefix_snoc_inv (d : Path) o p :
  d ++ [o] `prefix_of` p → ∃ k, p = d ++ o :: k.
Proof. intros [k ->]. exists k. by rewrite <- app_assoc. Qed.

Lemma reprefix_cases (d : Path) o n p :
  (∃ k, p = d ++ o :: k ∧ reprefix (d ++ [o]) (d ++ [n]) p = d ++ n :: k)
  ∨ (¬ d ++ [o] `prefix_of` p ∧ reprefix (d ++ [o]) (d ++ [n]) p = p).
Proof.
  destruct (decide (d ++ [o] `prefix_of` p)) as [Hp|Hp].
  - left. apply prefix_snoc_inv in Hp as [k ->]. exists k.
    by rewrite reprefix_under.
  - right. by rewrite reprefix_other.
Qed.

Lemma reprefix_length (d : Path) o n p :
  length (reprefix (d ++ [o]) (d ++ [n]) p) = length p.
Proof.
  destruct (reprefix_cases d o n p) as [(k & -> & ->)|[_ ->]]; [|done].
  by rewrite !length_app.
Qed.

Lemma name_app_cons (d : Path) x k : name (d ++ x :: k) = name (x :: k).
Proof.
  unfold name. rewrite last_app. destruct (last (x :: k)) eqn:E; [done|].
  by apply last_None in E.
Qed.

Lemma name_cons_cons x y (k : Path) : name (x :: y :: k) = name (y :: k).
Proof. unfold name. by rewrite last_cons_cons. Qed.

Lemma prefix_app_cases (q d k : Path) :
  q `prefix_of` d ++ k →
  q `prefix_of` d ∨ ∃ k1, q = d ++ k1 ∧ k1 `prefix_of` k.
Proof.
  intros Hq.
  destruct (prefix_weak_total q d (d ++ k) Hq) as [?|[k1 ->]];
    [by apply prefix_app_r|by left|].
  right. exists k1. split; [done|]. by apply prefix_app_inv in Hq.
Qed.

(** Renaming an entry to a free name in its own directory keeps the
    filesystem well-formed. *)
Lemma wf_fs_rename base (d : Path) o n disk :
  base `prefix_of` d → valid_name n → d ++ [n] ∉ paths disk →
  wf_fs base disk → wf_fs base (fs_rename (d ++ [o]) (d ++ [n]) disk).
Proof.
  intros Hbase Hn Hnew [Hnd Hwf].
  assert (Hold_not : ∀ q, q `prefix_of` d → ¬ d ++ [o] `prefix_of` q).
  { intros q Hq Ho. apply prefix_length in Hq, Ho.
    rewrite length_app in Ho. simpl in Ho. lia. }
  assert (Hno : ∀ p, p ∈ paths disk → ¬ d ++ [n] `prefix_of` p).
  { intros p Hp Hpre. destruct (Hwf p Hp) as (_ & _ & Hcl).
    apply Hnew, Hcl; [|done]. eapply below_prefix_l; [done|apply below_snoc]. }
  split; rewrite paths_fs_rename.
  - apply NoDup_fmap_2_strong; [|done]. intros p1 p2 Hp1 Hp2.
    destruct (reprefix_cases d o n p1) as [(k1 & -> & ->)|[Hn1 ->]];
      destruct (reprefix_cases d o n p2) as [(k2 & -> & ->)|[Hn2 ->]].
    + intros Heq%app_inv_head. by injection Heq as ->.
    + intros Heq. destruct (Hno _ Hp2). rewrite <- Heq.
      exists k1. by rewrite <- app_assoc.
    + intros Heq. destruct (Hno _ Hp1). rewrite Heq.
      exists k2. by rewrite <- app_assoc.
    + done.
  - intros p' (p & -> & Hp)%list_elem_of_fmap.
    destruct (Hwf p Hp) as (Hbelow & Hvalid & Hcl).
    destruct (reprefix_cases d o n p) as [(k & -> & ->)|[Hnp ->]].
    + split; [|split].
      * eapply below_prefix_l; [done|]. split; [by apply prefix_app_r|].
        intros Heq. apply (f_equal length) in Heq.
        rewrite length_app in Heq. simpl in Heq. lia.
      * rewrite name_app_cons. rewrite name_app_cons in Hvalid.
        destruct k as [|y k]; [done|]. by rewrite name_cons_cons in *.
      * intros q Hq Hpre. apply list_elem_of_fmap.
        apply prefix_app_cases in Hpre as [Hqd|(k1 & -> & Hk1)].
        -- exists q. rewrite reprefix_other by by apply Hold_not.
           split; [done|]. apply Hcl; [done|]. by apply prefix_app_r.
        -- destruct k1 as [|x k1].
           { exists d. rewrite app_nil_r. rewrite reprefix_other by by apply Hold_not.
             split; [done|]. rewrite app_nil_r in Hq.
             apply Hcl; [done|]. by apply prefix_app_r. }
           apply prefix_cons_inv_1 in Hk1 as Hx. subst x.
           apply prefix_cons_inv_2 in Hk1.
           exists (d ++ o :: k1). rewrite reprefix_under. split; [done|].
           apply Hcl.
           ++ eapply below_prefix_l; [done|]. split; [by apply prefix_app_r|].
              intros Heq. apply (f_equal length) in Heq.
              rewrite length_app in Heq. simpl in Heq. lia.
           ++ by apply prefix_app, prefix_cons.
    + split; [done|]. split; [done|].
      intros q Hq Hpre. apply list_elem_of_fmap. exists q.
      rewrite reprefix_other; [by auto|].
      intros Ho. apply Hnp. by etrans.
Qed.

Lemma is_free_spec st p :
  is_free st p = true →
  (p ∉ paths (fs st)) ∧ (p ∉ reserved_paths st) ∧ name p ≠ "..".
Proof.
  unfold is_free, path_exists.
  intros [[H1 H2]%negb_true_iff%orb_false_elim H3]%andb_true_iff.
  apply bool_decide_eq_false in H1, H2. by apply bool_decide_eq_true in H3.
Qed.

(** *** Loops *)

Lemma ends_mono (ok ok' exc exc' : State → Prop) r :
  (∀ st, ok st → ok' st) → (∀ st, exc st → exc' st) →
  ends ok exc r → ends ok' exc' r.
Proof. destruct r; simpl; auto. Qed.

Lemma ends_bind (ok mid exc : State → Prop) r k :
  ends mid exc r → (∀ st, mid st → ends ok exc (k st)) → ends ok exc (r >>= k).
Proof. destruct r; simpl; auto. Qed.

(** The invariant rule for a [for] loop: [inv done] holds after the items
    [done] have been processed. *)
Lemma for_each_rule {A} (body : A → State → result)
    (inv : list A → State → Prop) (exc : State → Prop) (l : list A) (st : State) :
  inv [] st →
  (∀ done x rest st, l = done ++ x :: rest → inv done st →
     ends (inv (done ++ [x])) exc (body x st)) →
  ends (inv l) exc (for_each body l st).
Proof.
  intros Hinit Hbody.
  enough (Hgen : ∀ rest done st, l = done ++ rest → inv done st →
            ends (inv l) exc (for_each body rest st)) by by apply (Hgen l []).
  clear st Hinit. induction rest as [|x rest IH]; intros done st Hl Hinv.
  - rewrite app_nil_r in Hl. by subst.
  - simpl. eapply ends_bind; [by eapply Hbody|].
    intros st' Hst'. apply (IH (done ++ [x])); [|done].
    by rewrite <- app_assoc.
Qed.

(** *** One entry *)

Section steps.
Context `{OsRename} (dry_run : bool).

Lemma attempt_handled is_dir old new st0 st :
  is_free st0 new = true → old ≠ [] → parent new = parent old →
  valid_name (name new) →
  reserved_paths st = {[ new ]} ∪ reserved_paths st0 →
  fs st = fs st0 → error_log st = error_log st0 →
  file_counter st = file_counter st0 → folder_counter st = folder_counter st0 →
  trace st = trace st0 →
  (∃ msgs, conflict_log st = conflict_log st0 ++ msgs) →
  ∃ out st', attempt dry_run is_dir old new st = Ok st'
             ∧ handled dry_run is_dir old new out st0 st'.
Proof.
  intros Hfree Hold Hpar Hval Hres Hfs Herr Hfc Hdc Htr Hcl. unfold attempt.
  destruct dry_run eqn:Hdry.
  - eexists Previewed, _. split; [done|]. unfold handled. simpl.
    rewrite Hres, Hfs, Herr, Hfc, Hdc, Htr. by destruct is_dir.
  - simpl. destruct (os_error (fs st) old new) as [cause|] eqn:Hos.
    + eexists (Failed cause), _. split; [done|]. unfold handled. simpl.
      rewrite Hres, Herr, Hfc, Hdc, Htr, <- Hfs. by destruct is_dir.
    + eexists Renamed, _. split; [done|]. unfold handled. simpl.
      rewrite Hres, Herr, Hfc, Hdc, Htr, <- Hfs. by destruct is_dir.
Qed.

(** Handling an entry never runs out of budget; it raises only when
    [with_name] does, and then nothing has changed. *)
Lemma rename_to_inv is_dir old n st :
  match rename_to dry_run is_dir old n st with
  | Ok st' => ∃ new out, handled dry_run is_dir old new out st st'
  | Raised _ st' => st' = st ∧ with_name old n = None
  | Diverged => False
  end.
Proof.
  unfold rename_to. destruct (with_name old n) as [new|] eqn:Hwn; [|done].
  apply with_name_Some in Hwn as (Hold & Hn & ->).
  assert (Hsep : contains "/" (name (parent old ++ [n])) = false).
  { rewrite name_snoc. apply Hn. }
  destruct (get_unique_path_total old (parent old ++ [n]) st Hsep) as [[p st1] Hg].
  rewrite Hg.
  apply get_unique_path_inv in Hg
    as (Hfree & Hres & Hfs & Herr & Hfc & Hdc & Htr & Hcase).
  assert (Hp : parent p = parent old ∧ valid_name (name p)
               ∧ ∃ msgs, conflict_log st1 = conflict_log st ++ msgs).
  { destruct Hcase as [[-> Hcl]|(k & _ & -> & _ & _ & Hcl)].
    - rewrite parent_snoc, name_snoc. repeat split; try apply Hn.
      exists []. by rewrite app_nil_r.
    - rewrite candidate_snoc, !parent_snoc, name_snoc by done.
      split; [done|]. split; [|by eexists].
      split; [by apply candidate_name_not_special|].
      split; [by apply candidate_name_not_special|].
      by apply candidate_name_no_sep. }
  destruct Hp as (Hpar & Hval & Hcl).
  destruct (attempt_handled is_dir old p st st1) as (out & st' & -> & Hh); try done.
  by exists p, out.
Qed.

End steps.

Lemma valid_name_nonempty (p : Path) : valid_name (name p) → p = parent p ++ [name p].
Proof. intros [Hn _]. apply parent_name. by intros ->. Qed.

Lemma truediv_valid (p : Path) n : valid_name n → truediv p n = p ++ [n].
Proof. intros (H1 & H2 & H3). by apply truediv_single. Qed.

Lemma scandir_valid base disk top n :
  wf_fs base disk → n ∈ (scandir disk top).1 ∨ n ∈ (scandir disk top).2 →
  valid_name n ∧ top ++ [n] ∈ paths disk.
Proof.
  intros [_ Hwf] Hn%elem_of_scandir. split; [|done].
  destruct (Hwf _ Hn) as (_ & Hv & _). by rewrite name_snoc in Hv.
Qed.

(** *** The walk *)

Section run.
Context `{OsRename} (dry_run : bool) (file_map folder_map : gmap string string).
Context (base : Path).

(** Handling an entry of a directory under [base] keeps the filesystem
    well-formed and no path grows. *)
Lemma handled_fs is_dir (d : Path) o new out st st' N :
  base `prefix_of` d → wf_fs base (fs st) → bounded N (fs st) →
  handled dry_run is_dir (d ++ [o]) new out st st' →
  wf_fs base (fs st') ∧ bounded N (fs st').
Proof.
  intros Hbase Hwf Hb (Hfree & _ & Hpar & Hval & _ & _ & _ & _ & _ & Hout).
  rewrite parent_snoc in Hpar.
  assert (Hnew : new = d ++ [name new]).
  { rewrite <- Hpar. by apply valid_name_nonempty. }
  destruct out; destruct Hout as (? & Hout); try (destruct Hout as [-> _]; done).
  - destruct Hout as (_ & -> & _). apply is_free_spec in Hfree as (Hnotin & _).
    revert Hnotin. rewrite Hnew. generalize (name new) Hval.
    intros n Hn Hnotin. split.
    + by apply wf_fs_rename.
    + intros p. rewrite paths_fs_rename.
      intros (p0 & -> & Hp0)%list_elem_of_fmap. rewrite reprefix_length. by apply Hb.
  - destruct Hout as (_ & -> & _). done.
Qed.

Lemma walk_unfold depth top st :
  walk dry_run file_map folder_map (S depth) top st
  = for_each (λ dir_name, walk dry_run file_map folder_map depth (truediv top dir_name))
      (scandir (fs st) top).1 st
    >>= for_each (process_file dry_run file_map top) (scandir (fs st) top).2
    >>= for_each (process_dir dry_run folder_map top) (scandir (fs st) top).1.
Proof. reflexivity. Qed.

Lemma valid_name_app v ext :
  valid_name v → contains "/" ext = false → valid_name (v +:+ ext).
Proof.
  intros (H1 & H2 & H3) Hext. repeat split.
  - destruct v; [done|]. by rewrite app_String.
  - destruct v as [|a v]; [done|]. rewrite app_String. intros [= -> Hv].
    destruct v; [|by rewrite app_String in Hv]. rewrite app_empty_l in Hv.
    by subst.
  - by rewrite contains_app, H3, Hext.
Qed.

Section relation.
Variable R : State → State → Prop.
Context `{!PreOrder R}.
Variable anchor : Path.
Hypothesis R_step : ∀ is_dir (d : Path) o new out st st',
  base `prefix_of` d → anchor `prefix_of` d → valid_name o → wf_fs base (fs st) →
  handled dry_run is_dir (d ++ [o]) new out st st' → R st st'.

Local Abbreviation good N st0 :=
  (λ st', wf_fs base (fs st') ∧ bounded N (fs st') ∧ R st0 st').
Local Abbreviation unclean :=
  (¬ (clean_map file_map ∧ clean_map folder_map)).

Lemma good_trans N (C : Prop) st0 st1 r :
  R st0 st1 →
  ends (good N st1) (λ st', C ∧ good N st1 st') r →
  ends (good N st0) (λ st', C ∧ good N st0 st') r.
Proof.
  intros HR. apply ends_mono.
  - intros st (Hw & Hb & HR'). split; [done|]. split; [done|]. by etrans.
  - intros st (HC & Hw & Hb & HR'). do 3 (split; [done|]). by etrans.
Qed.

Lemma rename_to_rel is_dir (d : Path) o n st N :
  base `prefix_of` d → anchor `prefix_of` d → valid_name o →
  wf_fs base (fs st) → bounded N (fs st) →
  ends (good N st) (λ st', ¬ valid_name n ∧ good N st st')
       (rename_to dry_run is_dir (d ++ [o]) n st).
Proof.
  intros Hbase Hanchor Ho Hwf Hb.
  pose proof (rename_to_inv dry_run is_dir (d ++ [o]) n st) as Hinv.
  destruct (rename_to _ _ _ _ _) as [st'|e st'|]; simpl; [| |done].
  - destruct Hinv as (new & out & Hh).
    destruct (handled_fs _ _ _ _ _ _ _ N Hbase Hwf Hb Hh). eauto.
  - destruct Hinv as [-> Hw]. split; [|done]. intros Hn.
    rewrite with_name_valid in Hw; [done|by destruct d|..|done].
    rewrite name_snoc. apply Ho.
Qed.

Lemma walk_rel depth top st :
  base `prefix_of` top → anchor `prefix_of` top → 1 ≤ depth →
  wf_fs base (fs st) → bounded (depth + length top) (fs st) →
  ends (good (depth + length top) st)
       (λ st', unclean ∧ good (depth + length top) st st')
       (walk dry_run file_map folder_map depth top st).
Proof.
  revert top st.
  induction depth as [|depth IH]; intros top st Hbase Hanchor Hd Hwf Hb; [lia|].
  rewrite walk_unfold.
  set (dirs := (scandir (fs st) top).1). set (files := (scandir (fs st) top).2).
  set (N := S depth + length top).
  assert (Hnames : ∀ n, n ∈ dirs ∨ n ∈ files →
            valid_name n ∧ top ++ [n] ∈ paths (fs st)).
  { intros n Hn. by apply (scandir_valid base (fs st) top). }
  assert (Hloop : ∀ is_dir (names : list string) (map_ : gmap string string)
            (key : string → string)
            (new_name : string → string → string) st1,
            (∀ n, n ∈ names → valid_name n) →
            (∀ n v, valid_name n → map_ !! key n = Some v →
               ¬ valid_name (new_name v n) → unclean) →
            wf_fs base (fs st1) → bounded N (fs st1) →
            ends (good N st1) (λ st', unclean ∧ good N st1 st')
              (for_each (λ n s,
                 match map_ !! key n with
                 | Some v => rename_to dry_run is_dir (truediv top n) (new_name v n) s
                 | None => Ok s
                 end) names st1)).
  { intros is_dir names map_ key new_name st1 Hv Hnew Hwf1 Hb1.
    apply (for_each_rule _ (λ _, good N st1)); [done|].
    intros done n rest s Hl (Hwfs & Hbs & HR).
    assert (Hn : valid_name n).
    { apply Hv. rewrite Hl. apply elem_of_app. right. by left. }
    destruct (map_ !! key n) as [v|] eqn:Hlook; [|done].
    rewrite truediv_valid by done.
    eapply good_trans; [done|].
    eapply ends_mono; [| |by apply rename_to_rel]; [done|].
    intros st' [Hbad Hgood]. split; [|done]. by eapply Hnew. }
  eapply ends_bind; [eapply ends_bind|].
  - apply (for_each_rule _ (λ _, good N st)); [done|].
    intros done dn rest s Hl (Hwfs & Hbs & HR).
    assert (Hdn : dn ∈ dirs) by (rewrite Hl; apply elem_of_app; right; by left).
    destruct (Hnames dn (or_introl Hdn)) as [Hv Hin].
    rewrite truediv_valid by done.
    assert (HN : depth + length (top ++ [dn]) = N).
    { rewrite length_app. simpl. unfold N. lia. }
    eapply good_trans; [done|]. rewrite <- HN. apply IH; rewrite ?HN; try done.
    + by apply prefix_app_r.
    + by apply prefix_app_r.
    + apply Hb in Hin. rewrite length_app in Hin. simpl in Hin. lia.
  - intros st1 (Hwf1 & Hb1 & HR1). eapply good_trans; [done|].
    apply (Hloop false files file_map (λ n, stem (truediv top n))
             (λ v n, v +:+ suffix (truediv top n))); try done.
    + intros n Hn. by apply Hnames; right.
    + intros n v Hn Hlook Hbad [Hclean _]. apply Hbad.
      apply valid_name_app; [by eapply Hclean|].
      apply contains_suffix. rewrite truediv_valid, name_snoc by done. apply Hn.
  - intros st2 (Hwf2 & Hb2 & HR2). eapply good_trans; [done|].
    apply (Hloop true dirs folder_map (λ n, n) (λ v _, v)); try done.
    + intros n Hn. by apply Hnames; left.
    + intros n v Hn Hlook Hbad [_ Hclean]. apply Hbad. by eapply Hclean.
Qed.
End relation.
End run.

(** *** The run *)

Lemma build_map_values rows k v :
  build_map rows !! k = Some v → ∃ row, row ∈ rows ∧ v = sanitize_filename row.2.
Proof.
  induction rows as [|row rows IH] using rev_ind; [done|].
  rewrite build_map_snoc. destruct (decide (py_str row.1 = k)) as [->|Hne].
  - rewrite lookup_insert_eq. intros [= <-]. exists row. split; [|done].
    apply elem_of_app. right. by left.
  - rewrite lookup_insert_ne by done. intros (r & Hr & ->)%IH.
    exists r. split; [|done]. apply elem_of_app. by left.
Qed.

Lemma sanitize_valid x :
  py_str x ≠ "" → py_str x ≠ "." → valid_name (sanitize_filename x).
Proof.
  intros H1 H2. unfold sanitize_filename. repeat split.
  - intros Heq. apply (f_equal String.length) in Heq.
    rewrite re_sub_class_length in Heq. by destruct (py_str x).
  - destruct (py_str x) as [|a [|b s]]; simpl; try done.
    + destruct (reserved_char a) eqn:Ha; [done|]. intros [= ->]. done.
    + destruct (reserved_char a), (reserved_char b); done.
  - by apply re_sub_class_clean.
Qed.

Lemma build_map_clean rows : Forall usable_row rows → clean_map (build_map rows).
Proof.
  intros Hrows k v (row & Hrow & ->)%build_map_values.
  rewrite Forall_forall in Hrows. destruct (Hrows row Hrow). by apply sanitize_valid.
Qed.

Lemma bounded_walk_budget disk n : bounded (walk_budget disk + n) disk.
Proof.
  intros p Hp. unfold walk_budget.
  assert (length p ≤ max_list (length <$> paths disk)); [|lia].
  apply max_list_elem_of_le. by apply list_elem_of_fmap_2.
Qed.

Section rename_items_rel.
Context `{OsRename} (dry_run : bool) (root_directory : Path).
Context (files_csv folders_csv : list (pyobj * pyobj)).
Variable R : State → State → Prop.
Context `{!PreOrder R}.
Hypothesis R_step : ∀ is_dir (d : Path) o new out st st',
  root_directory `prefix_of` d → valid_name o → wf_fs root_directory (fs st) →
  handled dry_run is_dir (d ++ [o]) new out st st' → R st st'.

(** A relation that every handled entry respects holds between the state
    at entry and the state in which the run ends, and the run does end;
    it ends by an exception only if a table holds an unusable new name. *)
Lemma rename_items_rel st :
  wf_fs root_directory (fs st) →
  ends (λ st', wf_fs root_directory (fs st') ∧ R (enter st) st')
       (λ st', ¬ (Forall usable_row files_csv ∧ Forall usable_row folders_csv)
               ∧ wf_fs root_directory (fs st') ∧ R (enter st) st')
       (rename_items root_directory files_csv folders_csv dry_run st).
Proof.
  intros Hwf. unfold rename_items.
  eapply ends_mono; [| |apply (walk_rel dry_run _ _ root_directory R root_directory)].
  - intros st' (? & _ & ?). done.
  - intros st' (Hbad & ? & _ & ?). split; [|done].
    intros [??]. apply Hbad. split; by apply build_map_clean.
  - intros ???????? _. by apply R_step.
  - done.
  - done.
  - unfold walk_budget. lia.
  - done.
  - apply bounded_walk_budget.
Qed.
End rename_items_rel.

(** The same for a property of single states. *)
Lemma rename_items_inv `{OsRename} dry_run root_directory files_csv folders_csv
    (I : State → Prop) st :
  (∀ is_dir (d : Path) o new out st st',
     root_directory `prefix_of` d → valid_name o → wf_fs root_directory (fs st) →
     handled dry_run is_dir (d ++ [o]) new out st st' → I st → I st') →
  wf_fs root_directory (fs st) → I (enter st) →
  ∃ st', final (rename_items root_directory files_csv folders_csv dry_run st) = Some st'
         ∧ wf_fs root_directory (fs st') ∧ I st'
         ∧ (Forall usable_row files_csv → Forall usable_row folders_csv →
            rename_items root_directory files_csv folders_csv dry_run st = Ok st').
Proof.
  intros Hstep Hwf HI.
  assert (HP : PreOrder (λ s s' : State, I s → I s')).
  { split; [by intros ?|]. intros x y z Hxy Hyz ?. eauto. }
  pose proof (rename_items_rel dry_run root_directory files_csv folders_csv
                (λ s s', I s → I s') Hstep st Hwf) as Hrel.
  destruct (rename_items _ _ _ _ _) as [st'|e st'|] eqn:Hrun; simpl in Hrel.
  - exists st'. destruct Hrel as [? HI']. auto.
  - exists st'. destruct Hrel as (Hbad & ? & HI').
    split; [done|]. split; [done|]. split; [by apply HI'|].
    intros ??. by destruct Hbad.
  - done.
Qed.

(** A check of well-formedness that can be run on a given filesystem. *)
Lemma wf_fs_check base disk :
  NoDup (paths disk) →
  Forall (λ p, below base p ∧ valid_name (name p)
               ∧ Forall (λ i, take i p ∈ paths disk)
                   (seq (S (length base)) (length p - length base)))
         (paths disk) →
  wf_fs base disk.
Proof.
  intros Hnd Hall. split; [done|]. intros p Hp.
  rewrite Forall_forall in Hall. destruct (Hall p Hp) as (Hb & Hv & Hcl).
  split; [done|]. split; [done|]. intros q Hq Hpre.
  rewrite Forall_forall in Hcl.
  assert (Hq' : q = take (length q) p).
  { destruct Hpre as [k ->]. by rewrite take_app_length. }
  rewrite Hq'. apply Hcl. apply elem_of_seq.
  apply below_length in Hq. apply prefix_length in Hpre. lia.
Qed.

Lemma wf_swap_disk : wf_fs ["r"] swap_disk.
Proof. apply wf_fs_check; by apply (bool_decide_unpack _). Qed.

Lemma wf_one_disk : wf_fs ["r"] one_disk.
Proof. apply wf_fs_check; by apply (bool_decide_unpack _). Qed.

Lemma wf_tree_disk : wf_fs ["r"] tree_disk.
Proof. apply wf_fs_check; by apply (bool_decide_unpack _). Qed.

(** *** Reserved paths *)

Lemma handled_reserved `{OsRename} (dry_run is_dir : bool) (old new : Path)
    (out : outcome) (st st' : State) (res0 : gset Path) :
  handled dry_run is_dir old new out st st' →
  NoDup (returned_paths st)
    ∧ reserved_paths st = res0 ∪ list_to_set (returned_paths st) →
  NoDup (returned_paths st')
    ∧ reserved_paths st' = res0 ∪ list_to_set (returned_paths st').
Proof.
  intros (Hfree & _ & _ & _ & Hres & Htr & _) [Hnd Heq].
  apply is_free_spec in Hfree as (_ & Hnew & _).
  unfold returned_paths in *. rewrite Htr, fmap_app. simpl. split.
  - apply NoDup_app. split; [done|]. split; [|apply NoDup_singleton].
    intros p Hp ->%list_elem_of_singleton. apply Hnew. rewrite Heq.
    apply elem_of_union_r. by apply elem_of_list_to_set.
  - rewrite Hres, Heq, list_to_set_app_L. simpl. apply set_eq. intros x.
    rewrite !elem_of_union, elem_of_singleton, elem_of_empty. tauto.
Qed.

Lemma run_reserved `{OsRename} (root_directory : Path)
    (files_csv folders_csv : list (pyobj * pyobj)) (dry_run : bool) (st : State) :
  wf_fs root_directory (fs st) →
  ∃ st', final (rename_items root_directory files_csv folders_csv dry_run st) = Some st'
    ∧ NoDup (returned_paths st')
    ∧ reserved_paths st' = reserved_paths st ∪ list_to_set (returned_paths st').
Proof.
  intros Hwf.
  destruct (rename_items_inv dry_run root_directory files_csv folders_csv
    (λ s, NoDup (returned_paths s)
          ∧ reserved_paths s = reserved_paths st ∪ list_to_set (returned_paths s)) st)
    as (st' & Hfin & _ & [Hnd Hres] & _); [| done | |by exists st'].
  - intros ????????? Hh. by eapply handled_reserved.
  - split; [constructor|]. unfold returned_paths. simpl.
    by rewrite (right_id_L ∅ (∪)).
Qed.

(** C5.  The set of reserved paths is empty when the module is loaded;
    [rename_items] does not reset it on entry, so a run starts with whatever
    the module holds; during a run it only grows: at the end it is the set
    at entry together with every path [get_unique_path] returned. *)
Theorem reserved_paths_lifecycle `{OsRename} (root_directory : Path)
    (files_csv folders_csv : list (pyobj * pyobj)) (dry_run : bool) (st : State) :
  wf_fs root_directory (fs st) →
  reserved_paths (module_loaded (fs st)) = ∅
  ∧ reserved_paths (enter st) = reserved_paths st
  ∧ ∃ st', final (rename_items root_directory files_csv folders_csv dry_run st) = Some st'
      ∧ reserved_paths st ⊆ reserved_paths st'
      ∧ reserved_paths st' = reserved_paths st ∪ list_to_set (returned_paths st').
Proof.
  intros Hwf. split; [done|]. split; [done|].
  destruct (run_reserved root_directory files_csv folders_csv dry_run st Hwf)
    as (st' & Hfin & _ & Hres).
  exists st'. split; [done|]. split; [|done]. rewrite Hres.
  apply union_subseteq_l.
Qed.

Lemma reserved_paths_lifecycle_witness :
  ∃ st', final (@rename_items always_ok ["r"] one_csv [] true (module_loaded one_disk))
         = Some st'
    ∧ reserved_paths (module_loaded one_disk) ⊆ reserved_paths st'.
Proof.
  destruct (@reserved_paths_lifecycle always_ok ["r"] one_csv [] true
              (module_loaded one_disk) wf_one_disk) as (_ & _ & st' & Hfin & Hsub & _).
  by exists st'.
Defined.

(** C5, as stated, fails: a second run in the same process is entered with
    the paths the first run reserved. *)
Lemma second_run_enters_with_reserved_paths :
  ∃ st1, @rename_items always_ok ["r"] one_csv [] true (module_loaded one_disk) = Ok st1
    ∧ reserved_paths (enter st1) ≠ ∅.
Proof.
  eexists. split; [vm_compute; reflexivity|].
  intros Hempty. apply (not_elem_of_empty (C:=gset Path) ["r"; "z.txt"]).
  rewrite <- Hempty. by apply (bool_decide_unpack _).
Qed.

(** *** Returned paths and the filesystem *)

Lemma vacated_app tr tr' p : vacated tr p → vacated (tr ++ tr') p.
Proof. intros (e & He & ?). exists e. split; [|done]. apply elem_of_app. by left. Qed.

Lemma handled_vacated `{OsRename} (dry_run is_dir : bool) (old new : Path)
    (out : outcome) (st st' : State) (disk : FS) :
  handled dry_run is_dir old new out st st' →
  (∀ p, p ∈ paths disk → p ∈ paths (fs st) ∨ vacated (trace st) p)
  ∧ (∀ i e, trace st !! i = Some e → ev_new e ∈ paths disk →
       vacated (take i (trace st)) (ev_new e)) →
  (∀ p, p ∈ paths disk → p ∈ paths (fs st') ∨ vacated (trace st') p)
  ∧ (∀ i e, trace st' !! i = Some e → ev_new e ∈ paths disk →
       vacated (take i (trace st')) (ev_new e)).
Proof.
  intros (Hfree & _ & _ & _ & _ & Htr & _ & _ & _ & Hout) [HK HT].
  apply is_free_spec in Hfree as (Hnew & _ & _). rewrite Htr. split.
  - intros p Hp. destruct (HK p Hp) as [Hin|Hvac]; [|right; by apply vacated_app].
    destruct out.
    + destruct Hout as (_ & -> & _). by left.
    + destruct Hout as (_ & _ & -> & _). rewrite paths_fs_rename.
      destruct (decide (old `prefix_of` p)) as [Hpre|Hpre].
      * right. exists (Event is_dir old new Renamed). split; [|done].
        apply elem_of_app. right. by left.
      * left. apply list_elem_of_fmap. exists p. by rewrite reprefix_other.
    + destruct Hout as (_ & _ & -> & _). by left.
  - intros i e Hi He. destruct (decide (i < length (trace st))) as [Hlt|Hge].
    + rewrite lookup_app_l in Hi by done. rewrite take_app_le by lia. by apply HT.
    + apply lookup_lt_Some in Hi as Hlen. rewrite length_app in Hlen. simpl in Hlen.
      assert (i = length (trace st)) as -> by lia.
      rewrite take_app_length. rewrite list_lookup_middle in Hi by done.
      injection Hi as <-. simpl in *. by destruct (HK _ He).
Qed.

Lemma run_vacated `{OsRename} (root_directory : Path)
    (files_csv folders_csv : list (pyobj * pyobj)) (dry_run : bool) (st : State) :
  wf_fs root_directory (fs st) →
  ∃ st', final (rename_items root_directory files_csv folders_csv dry_run st) = Some st'
    ∧ ∀ i e, trace st' !! i = Some e → ev_new e ∈ paths (fs st) →
        vacated (take i (trace st')) (ev_new e).
Proof.
  intros Hwf.
  destruct (rename_items_inv dry_run root_directory files_csv folders_csv
    (λ s, (∀ p, p ∈ paths (fs st) → p ∈ paths (fs s) ∨ vacated (trace s) p)
          ∧ (∀ i e, trace s !! i = Some e → ev_new e ∈ paths (fs st) →
               vacated (take i (trace s)) (ev_new e))) st)
    as (st' & Hfin & _ & [_ HT] & _); [| done | |by exists st'].
  - intros ????????? Hh. by eapply handled_vacated.
  - split; [by left|]. intros i e Hi. done.
Qed.

(** *** Dry runs *)

Lemma handled_dry `{OsRename} (is_dir : bool) (old new : Path)
    (out : outcome) (st st' : State) (disk : FS) (errors : list string) :
  handled true is_dir old new out st st' →
  fs st = disk ∧ error_log st = errors
  ∧ Forall (λ e, ev_outcome e = Previewed ∧ ev_new e ∉ paths disk) (trace st) →
  fs st' = disk ∧ error_log st' = errors
  ∧ Forall (λ e, ev_outcome e = Previewed ∧ ev_new e ∉ paths disk) (trace st').
Proof.
  intros (Hfree & _ & _ & _ & _ & Htr & _ & _ & _ & Hout) (Hfs & Herr & Hall).
  apply is_free_spec in Hfree as (Hnew & _ & _).
  destruct out; try (by destruct Hout as [? _]).
  destruct Hout as (_ & -> & ->). split; [done|]. split; [done|].
  rewrite Htr. apply Forall_app. split; [done|]. apply Forall_singleton.
  simpl. by rewrite <- Hfs.
Qed.

Lemma run_dry `{OsRename} (root_directory : Path)
    (files_csv folders_csv : list (pyobj * pyobj)) (st : State) :
  wf_fs root_directory (fs st) →
  ∃ st', final (rename_items root_directory files_csv folders_csv true st) = Some st'
    ∧ fs st' = fs st ∧ error_log st' = error_log st
    ∧ Forall (λ e, ev_outcome e = Previewed ∧ ev_new e ∉ paths (fs st)) (trace st').
Proof.
  intros Hwf.
  destruct (rename_items_inv true root_directory files_csv folders_csv
    (λ s, fs s = fs st ∧ error_log s = error_log st
          ∧ Forall (λ e, ev_outcome e = Previewed ∧ ev_new e ∉ paths (fs st)) (trace s)) st)
    as (st' & Hfin & _ & HI & _); [| done | |by exists st'].
  - intros ????????? Hh. by eapply handled_dry.
  - done.
Qed.

Lemma final_inj r (st1 st2 : State) : final r = Some st1 → final r = Some st2 → st1 = st2.
Proof. congruence. Qed.

(** C1.  A path [get_unique_path] returns is, at that moment, neither an
    entry of the filesystem nor reserved.  In a run, the returned paths are
    pairwise distinct.  A returned path equals an entry that existed before
    the run only if that entry, or a directory above it, was renamed away
    earlier in the run; in a dry run, where nothing is renamed, no returned
    path equals an entry of the filesystem. *)
Theorem returned_paths_unique `{OsRename} (root_directory : Path)
    (files_csv folders_csv : list (pyobj * pyobj)) (dry_run : bool) (st : State) :
  wf_fs root_directory (fs st) →
  (∀ old_path new_path s p s',
     get_unique_path old_path new_path s = Some (p, s') →
     (p ∉ paths (fs s)) ∧ (p ∉ reserved_paths s) ∧ p ∈ reserved_paths s')
  ∧ ∃ st', final (rename_items root_directory files_csv folders_csv dry_run st) = Some st'
      ∧ NoDup (returned_paths st')
      ∧ (∀ i e, trace st' !! i = Some e → ev_new e ∈ paths (fs st) →
           vacated (take i (trace st')) (ev_new e))
      ∧ (dry_run = true → ∀ p, p ∈ returned_paths st' → p ∉ paths (fs st)).
Proof.
  intros Hwf. split.
  { intros old_path new_path s p s' Hg.
    apply get_unique_path_inv in Hg as (Hfree & -> & _).
    apply is_free_spec in Hfree as (? & ? & _).
    split; [done|]. split; [done|]. apply elem_of_union_l. by apply elem_of_singleton. }
  destruct (run_reserved root_directory files_csv folders_csv dry_run st Hwf)
    as (st' & Hfin & Hnd & _).
  destruct (run_vacated root_directory files_csv folders_csv dry_run st Hwf)
    as (st2 & Hfin2 & Hvac).
  rewrite (final_inj _ _ _ Hfin2 Hfin) in Hvac.
  exists st'. split; [done|]. split; [done|]. split; [done|].
  intros -> p (e & -> & He)%list_elem_of_fmap.
  destruct (run_dry root_directory files_csv folders_csv st Hwf)
    as (st3 & Hfin3 & _ & _ & Hall).
  rewrite (final_inj _ _ _ Hfin3 Hfin) in Hall.
  rewrite Forall_forall in Hall. by apply Hall.
Qed.

Lemma returned_paths_unique_witness :
  ∃ st', final (@rename_items always_ok ["r"] swap_csv [] false (module_loaded swap_disk))
         = Some st'
    ∧ NoDup (returned_paths st').
Proof.
  destruct (@returned_paths_unique always_ok ["r"] swap_csv [] false
              (module_loaded swap_disk) wf_swap_disk) as (_ & st' & Hfin & Hnd & _).
  by exists st'.
Defined.

(** C1, as stated, fails in execute mode: with [a.txt] and [b.txt] in the
    root and a table that swaps the two stems, [a.txt] is renamed first (to
    [b_1.txt]), after which [get_unique_path] returns [a.txt] for [b.txt]:
    a path that existed before the run. *)
Lemma returned_path_existed_before_run :
  ∃ st', @rename_items always_ok ["r"] swap_csv [] false (module_loaded swap_disk) = Ok st'
    ∧ ["r"; "a.txt"] ∈ returned_paths st'
    ∧ ["r"; "a.txt"] ∈ paths (fs (module_loaded swap_disk)).
Proof.
  eexists. split; [vm_compute; reflexivity|].
  split; by apply (bool_decide_unpack _).
Qed.


(** *** A dry run does not consult the operating system *)

Lemma for_each_ext {A} (f g : A → State → result) l st :
  (∀ x s, f x s = g x s) → for_each f l st = for_each g l st.
Proof.
  intros Hfg. revert st. induction l as [|x l IH]; intros st; [done|].
  simpl. rewrite Hfg. destruct (g x st); simpl; auto.
Qed.

Lemma walk_dry_os (os1 os2 : OsRename) file_map folder_map depth top st :
  @walk os1 true file_map folder_map depth top st
  = @walk os2 true file_map folder_map depth top st.
Proof.
  revert top st. induction depth as [|depth IH]; intros top st; [done|].
  rewrite !walk_unfold.
  rewrite (for_each_ext _ (λ dir_name,
             @walk os2 true file_map folder_map depth (truediv top dir_name)))
    by (intros; apply IH).
  reflexivity.
Qed.

(** C4.  Two dry runs over the same tree with the same tables, each entered
    with the module freshly loaded, end in the same state: same planned
    renames, same conflict log, same counters.  This holds whatever the
    operating system would have answered to a rename, and the second run
    may follow the first, which left the tree as it was. *)
Theorem dry_run_reproducible (os1 os2 : OsRename) (root_directory : Path)
    (files_csv folders_csv : list (pyobj * pyobj)) (disk : FS) :
  wf_fs root_directory disk →
  ∃ st1,
    final (@rename_items os1 root_directory files_csv folders_csv true
             (module_loaded disk)) = Some st1
    ∧ final (@rename_items os2 root_directory files_csv folders_csv true
               (module_loaded (fs st1))) = Some st1.
Proof.
  intros Hwf.
  destruct (@run_dry os1 root_directory files_csv folders_csv (module_loaded disk) Hwf)
    as (st1 & Hfin & Hfs & _).
  exists st1. split; [done|]. rewrite Hfs. simpl. rewrite <- Hfin.
  unfold rename_items. by rewrite (walk_dry_os os2 os1).
Qed.

Lemma dry_run_reproducible_witness :
  ∃ st1,
    final (@rename_items always_ok ["r"] swap_csv [] true (module_loaded swap_disk))
    = Some st1
    ∧ final (@rename_items (λ _ _ _, Some "denied") ["r"] swap_csv [] true
               (module_loaded (fs st1))) = Some st1.
Proof.
  apply (dry_run_reproducible always_ok (λ _ _ _, Some "denied") ["r"] swap_csv []
           swap_disk wf_swap_disk).
Defined.

(** C4, as stated, fails for two calls in one process: the second dry run
    is entered with the paths the first one reserved, so on the same tree
    and table it plans [z_1.txt] where the first planned [z.txt], and logs
    a conflict. *)
Lemma second_dry_run_plans_differently :
  ∃ st1 st2,
    @rename_items always_ok ["r"] one_csv [] true (module_loaded one_disk) = Ok st1
    ∧ fs st1 = one_disk
    ∧ @rename_items always_ok ["r"] one_csv [] true st1 = Ok st2
    ∧ returned_paths st1 ≠ returned_paths st2
    ∧ conflict_log st1 ≠ conflict_log st2.
Proof.
  do 2 eexists. split; [vm_compute; reflexivity|]. split; [reflexivity|].
  split; [vm_compute; reflexivity|]. split; by vm_compute.
Qed.

(** *** Counting and the error log *)

Lemma handled_counted `{OsRename} (dry_run is_dir : bool) (old new : Path)
    (out : outcome) (st st' : State) (errors : list string) :
  handled dry_run is_dir old new out st st' →
  file_counter st = length (filter (λ e, ev_is_dir e = false) (trace st))
  ∧ folder_counter st = length (filter (λ e, ev_is_dir e = true) (trace st))
  ∧ error_log st = errors ++ omap failure_message (trace st) →
  file_counter st' = length (filter (λ e, ev_is_dir e = false) (trace st'))
  ∧ folder_counter st' = length (filter (λ e, ev_is_dir e = true) (trace st'))
  ∧ error_log st' = errors ++ omap failure_message (trace st').
Proof.
  intros (_ & _ & _ & _ & _ & Htr & Hfc & Hdc & _ & Hout) (Hf & Hd & He).
  rewrite Htr, !filter_app, !length_app, omap_app, Hfc, Hdc.
  unfold failure_message at 2. simpl. split; [|split].
  - destruct is_dir; simpl; rewrite Hf; lia.
  - destruct is_dir; simpl; rewrite Hd; lia.
  - destruct out; simpl.
    + destruct Hout as (_ & _ & ->). by rewrite app_nil_r.
    + destruct Hout as (_ & _ & _ & ->). by rewrite app_nil_r.
    + destruct Hout as (_ & _ & _ & ->). by rewrite He, <- app_assoc.
Qed.


(** *** Bottom-up order *)

Lemma ends_and (ok ok' exc exc' : State → Prop) r :
  ends ok exc r → ends ok' exc' r →
  ends (λ s, ok s ∧ ok' s) (λ s, exc s ∧ exc' s) r.
Proof. destruct r; simpl; auto. Qed.

Lemma prefix_same_length {A} (l1 l2 l : list A) :
  l1 `prefix_of` l → l2 `prefix_of` l → length l1 = length l2 → l1 = l2.
Proof.
  intros [k1 ->] [k2 Heq] Hlen.
  apply (f_equal (take (length l1))) in Heq.
  rewrite take_app_length in Heq. rewrite Hlen, take_app_length in Heq. done.
Qed.

Lemma bottom_up_leaf (top : Path) n a e :
  below top (ev_old a) → ev_old e = top ++ [n] → bottom_up a e.
Proof.
  intros Ha He Hbelow. rewrite He in Hbelow.
  apply below_length in Ha, Hbelow. rewrite length_app in Hbelow. simpl in Hbelow. lia.
Qed.

Lemma bottom_up_siblings (top : Path) d1 d2 a b :
  d1 ≠ d2 → below (top ++ [d1]) (ev_old a) → below (top ++ [d2]) (ev_old b) →
  bottom_up a b.
Proof.
  intros Hne [Ha _] [Hb _] [Hab _]. apply Hne.
  assert (Heq : top ++ [d1] = top ++ [d2]).
  { apply (prefix_same_length _ _ (ev_old b)); [by etrans|done|].
    by rewrite !length_app. }
  apply app_inv_head in Heq. by injection Heq.
Qed.

Lemma StronglySorted_lookup {A} (R : relation A) l i j a b :
  StronglySorted R l → l !! i = Some a → l !! j = Some b → i < j → R a b.
Proof.
  intros Hs Hi Hj Hij.
  rewrite <- (take_drop j l) in Hs.
  apply (StronglySorted_app_1_elem_of _ _ _ a b) in Hs; [done|..].
  - apply list_elem_of_lookup. exists i. by rewrite lookup_take_lt.
  - apply list_elem_of_lookup. exists 0. by rewrite lookup_drop, Nat.add_0_r.
Qed.

Lemma walk_sound `{OsRename} (dry_run : bool) (file_map folder_map : gmap string string)
    (base : Path) depth top st :
  base `prefix_of` top → 1 ≤ depth →
  wf_fs base (fs st) → bounded (depth + length top) (fs st) →
  ends (λ s, wf_fs base (fs s) ∧ bounded (depth + length top) (fs s))
       (λ s, wf_fs base (fs s) ∧ bounded (depth + length top) (fs s))
       (walk dry_run file_map folder_map depth top st).
Proof.
  intros Hbase Hd Hwf Hb.
  assert (HP : PreOrder (λ _ _ : State, True)) by (split; by intros ?).
  eapply ends_mono; [| |
    by apply (walk_rel dry_run file_map folder_map base (λ _ _, True) base)].
  - intros s (? & ? & _). done.
  - intros s (_ & ? & ? & _). done.
Qed.

Section order.
Context `{OsRename} (dry_run : bool) (file_map folder_map : gmap string string).
Context (base : Path).

Local Abbreviation ordered top st0 :=
  (λ s, ∃ evs, trace s = trace st0 ++ evs
               ∧ Forall (λ e, below top (ev_old e)) evs
               ∧ StronglySorted bottom_up evs).
Local Abbreviation sound N :=
  (λ s, wf_fs base (fs s) ∧ bounded N (fs s)).

Lemma leaf_loop_order is_dir (names : list string) (map_ : gmap string string)
    (key : string → string) (new_name : string → string → string) top st0 st N :
  base `prefix_of` top → (∀ n, n ∈ names → valid_name n) →
  sound N st → ordered top st0 st →
  ends (λ s, sound N s ∧ ordered top st0 s) (ordered top st0)
    (for_each (λ n s,
       match map_ !! key n with
       | Some v => rename_to dry_run is_dir (truediv top n) (new_name v n) s
       | None => Ok s
       end) names st).
Proof.
  intros Hbase Hv Hsound Hord.
  apply (for_each_rule _ (λ _ s, sound N s ∧ ordered top st0 s)); [done|].
  intros done n rest s Hl [[Hwf Hb] (evs & Htr & Hbelow & Hsorted)].
  assert (Hn : valid_name n).
  { apply Hv. rewrite Hl. apply elem_of_app. right. by left. }
  destruct (map_ !! key n) as [v|]; [|simpl; eauto 10].
  rewrite truediv_valid by done.
  pose proof (rename_to_inv dry_run is_dir (top ++ [n]) (new_name v n) s) as Hinv.
  destruct (rename_to _ _ _ _ _) as [s'|e s'|]; simpl; [| |done].
  - destruct Hinv as (new & out & Hh). split; [by eapply handled_fs|].
    destruct Hh as (_ & _ & _ & _ & _ & Htr' & _).
    exists (evs ++ [Event is_dir (top ++ [n]) new out]).
    rewrite Htr', Htr, <- app_assoc. split; [done|]. split.
    + apply Forall_app. split; [done|]. apply Forall_singleton. apply below_snoc.
    + apply StronglySorted_app. split; [|split; [done|]].
      * intros a b Ha ->%list_elem_of_singleton.
        rewrite Forall_forall in Hbelow. by eapply bottom_up_leaf; [apply Hbelow|].
      * repeat constructor.
  - destruct Hinv as [-> _]. eauto.
Qed.

Lemma walk_order depth top st :
  base `prefix_of` top → 1 ≤ depth →
  wf_fs base (fs st) → bounded (depth + length top) (fs st) →
  ends (ordered top st) (ordered top st)
       (walk dry_run file_map folder_map depth top st).
Proof.
  revert top st. induction depth as [|depth IH]; intros top st Hbase Hd Hwf Hb;
    [lia|].
  rewrite walk_unfold.
  set (dirs := (scandir (fs st) top).1). set (files := (scandir (fs st) top).2).
  set (N := S depth + length top).
  assert (Hnames : ∀ n, n ∈ dirs ∨ n ∈ files →
            valid_name n ∧ top ++ [n] ∈ paths (fs st)).
  { intros n Hn. by apply (scandir_valid base (fs st) top). }
  assert (Hnd : NoDup dirs) by (apply scandir_NoDup, Hwf).
  eapply ends_bind; [eapply ends_bind|].
  - apply (for_each_rule _ (λ done s, sound N s ∧ ∃ evs,
             trace s = trace st ++ evs
             ∧ Forall (λ e, ∃ dn, dn ∈ done ∧ below (top ++ [dn]) (ev_old e)) evs
             ∧ StronglySorted bottom_up evs) (ordered top st)).
    { split; [done|]. exists []. rewrite app_nil_r. repeat constructor. }
    intros done dn rest s Hl [[Hwfs Hbs] (evs & Htr & Hunder & Hsorted)].
    assert (Hdn : dn ∈ dirs) by (rewrite Hl; apply elem_of_app; right; by left).
    assert (Hfresh : dn ∉ done).
    { fold dirs in Hl. rewrite Hl in Hnd. apply NoDup_app in Hnd as (_ & Hnd & _).
      intros Hin. apply (Hnd dn Hin). by left. }
    destruct (Hnames dn (or_introl Hdn)) as [Hvalid Hin].
    rewrite truediv_valid by done.
    assert (HN : depth + length (top ++ [dn]) = N).
    { rewrite length_app. simpl. unfold N. lia. }
    assert (Hdepth : 1 ≤ depth).
    { apply Hb in Hin. rewrite length_app in Hin. simpl in Hin. lia. }
    assert (Hbase' : base `prefix_of` top ++ [dn]) by by apply prefix_app_r.
    rewrite <- HN in Hbs.
    pose proof (IH (top ++ [dn]) s Hbase' Hdepth Hwfs Hbs) as Hord.
    pose proof (walk_sound dry_run file_map folder_map base depth (top ++ [dn]) s
                  Hbase' Hdepth Hwfs Hbs) as Hgood.
    rewrite HN in Hgood.
    pose proof (ends_and _ _ _ _ _ Hgood Hord) as Hboth.
    eapply ends_mono; [| |exact Hboth]; simpl.
    + intros s' [(Hwf' & Hb') (evs' & Htr' & Hunder' & Hsorted')].
      split; [done|]. exists (evs ++ evs'). rewrite Htr', Htr, <- app_assoc.
      split; [done|]. split.
      * apply Forall_app. split.
        -- eapply Forall_impl; [exact Hunder|]. simpl.
           intros e (d & Hd' & ?). exists d. split; [|done].
           apply elem_of_app. by left.
        -- eapply Forall_impl; [exact Hunder'|]. simpl.
           intros e ?. exists dn. split; [|done]. apply elem_of_app. right. by left.
      * apply StronglySorted_app. split; [|done].
        intros a b Ha Hb0. rewrite Forall_forall in Hunder, Hunder'.
        destruct (Hunder a Ha) as (d & Hd' & Hbelow).
        eapply (bottom_up_siblings top d dn); [|done|by apply Hunder'].
        by intros ->.
    + intros s' [_ (evs' & Htr' & Hunder' & Hsorted')].
      exists (evs ++ evs'). rewrite Htr', Htr, <- app_assoc.
      split; [done|]. rewrite Forall_forall in Hunder, Hunder'. split.
      * apply Forall_forall. intros e [He|He]%elem_of_app.
        -- destruct (Hunder e He) as (d & _ & Hbelow).
           eapply below_prefix_l; [|done]. by apply prefix_app_r.
        -- eapply below_prefix_l; [|by apply Hunder']. by apply prefix_app_r.
      * apply StronglySorted_app. split; [|done].
        intros a b Ha Hb0. destruct (Hunder a Ha) as (d & Hd' & Hbelow).
        eapply (bottom_up_siblings top d dn); [|done|by apply Hunder'].
        by intros ->.
  - intros s1 [Hsound (evs & Htr & Hunder & Hsorted)].
    apply (leaf_loop_order false files file_map (λ n, stem (truediv top n))
             (λ v n, v +:+ suffix (truediv top n)) top st s1 N); try done.
    + intros n Hn. by apply Hnames; right.
    + exists evs. split; [done|]. split; [|done].
      eapply Forall_impl; [exact Hunder|]. simpl. intros e (d & _ & Hbelow).
      eapply below_prefix_l; [|done]. by apply prefix_app_r.
  - intros s2 [Hsound Hord]. eapply ends_mono; [| |
      apply (leaf_loop_order true dirs folder_map (λ n, n) (λ v _, v) top st s2 N)];
      try done.
    + by intros s' [_ ?].
    + intros n Hn. by apply Hnames; left.
Qed.
End order.

(** C2.  In the record of a run, an entry that lies below a directory is
    handled before that directory: whenever the path of one handled entry
    lies below the path of another, the rename of the deeper one was
    attempted (or planned) earlier. *)
Theorem descendants_before_directory `{OsRename} (root_directory : Path)
    (files_csv folders_csv : list (pyobj * pyobj)) (dry_run : bool) (st : State) :
  wf_fs root_directory (fs st) →
  ∃ st', final (rename_items root_directory files_csv folders_csv dry_run st) = Some st'
    ∧ ∀ i j eD eX,
        trace st' !! i = Some eD → trace st' !! j = Some eX →
        below (ev_old eD) (ev_old eX) → j < i.
Proof.
  intros Hwf.
  assert (Hord : ends (λ s, StronglySorted bottom_up (trace s))
                      (λ s, StronglySorted bottom_up (trace s))
                      (rename_items root_directory files_csv folders_csv dry_run st)).
  { unfold rename_items. eapply ends_mono; [| |
      apply (walk_order dry_run _ _ root_directory)]; try done.
    - by intros s (evs & -> & _ & Hs).
    - by intros s (evs & -> & _ & Hs).
    - unfold walk_budget. lia.
    - apply bounded_walk_budget. }
  destruct (rename_items _ _ _ _ _) as [st'|e st'|]; simpl in *; [| |done].
  all: exists st'; split; [done|]; intros i j eD eX Hi Hj Hbelow.
  all: destruct (decide (j < i)) as [|Hge]; [done|exfalso].
  all: destruct (decide (i = j)) as [->|Hne];
    [rewrite Hi in Hj; injection Hj as ->; by destruct Hbelow|].
  all: apply (StronglySorted_lookup _ _ i j eD eX Hord Hi Hj); [lia|done].
Qed.

Lemma descendants_before_directory_witness :
  ∃ st', final (@rename_items always_ok ["r"]
                  [(PyStr "doc", PyStr "final")] [(PyStr "OldFolder", PyStr "NewFolder")]
                  false (module_loaded tree_disk)) = Some st'
    ∧ ∀ i j eD eX,
        trace st' !! i = Some eD → trace st' !! j = Some eX →
        below (ev_old eD) (ev_old eX) → j < i.
Proof.
  apply (@descendants_before_directory always_ok ["r"] _ _ false
           (module_loaded tree_disk) wf_tree_disk).
Defined.

(** The scenario of the specification: [doc.pdf] is renamed inside
    [OldFolder], and only then [OldFolder] itself. *)
Example old_folder_scenario :
  (λ r, (λ e, (ev_old e, ev_new e)) <$> trace r) <$>
    final (@rename_items always_ok ["r"]
             [(PyStr "doc", PyStr "final")] [(PyStr "OldFolder", PyStr "NewFolder")]
             false (module_loaded tree_disk))
  = Some [(["r"; "OldFolder"; "doc.pdf"], ["r"; "OldFolder"; "final.pdf"]);
          (["r"; "OldFolder"], ["r"; "NewFolder"])].
Proof. by vm_compute. Qed.

(** *** Candidate names of dotted destinations *)

(** A name without a suffix gets the counter appended at its end. *)
Lemma candidate_name_no_suffix (new : Path) counter :
  suffix_index (name new) = None →
  candidate_name new counter = name new +:+ "_" +:+ str_nat counter.
Proof.
  intros Hs. unfold candidate_name, stem, suffix. rewrite Hs.
  by rewrite app_empty_r.
Qed.

(** A name with a suffix gets the counter in front of its last dot. *)
Lemma candidate_name_suffix (new : Path) counter i :
  suffix_index (name new) = Some i →
  candidate_name new counter
  = str_take i (name new) +:+ "_" +:+ str_nat counter +:+ str_drop i (name new).
Proof. intros Hs. unfold candidate_name, stem, suffix. by rewrite Hs. Qed.

(** C8.  [get_unique_path] on taken destinations: a file [b.txt] becomes
    [b_1.txt] and a directory [NewFolder] becomes [NewFolder_1], but a
    directory [v1.2] becomes [v1_1.2]: the name is cut at its last dot
    whether or not the destination is a directory. *)
Theorem candidate_of_dotted_directory :
  fst <$> get_unique_path ["r"; "a.txt"] ["r"; "b.txt"] (module_loaded swap_disk)
  = Some ["r"; "b_1.txt"]
  ∧ fst <$> get_unique_path ["r"; "x"] ["r"; "OldFolder"] (module_loaded tree_disk)
    = Some ["r"; "OldFolder_1"]
  ∧ fst <$> get_unique_path ["r"; "x"] ["r"; "v1.2"] (module_loaded tree_disk)
    = Some ["r"; "v1_1.2"].
Proof. by vm_compute. Qed.


(** *** The scenarios of the specification *)

(** [report.docx] and [report.txt] with the table [report -> summary]: each
    keeps its extension and there is no conflict. *)
Example report_scenario :
  (λ s, (fs s, conflict_log s, file_counter s)) <$>
    final (@rename_items always_ok ["r"] [(PyStr "report", PyStr "summary")] [] false
             (module_loaded [Entry ["r"; "report.docx"] false;
                             Entry ["r"; "report.txt"] false]))
  = Some ([Entry ["r"; "summary.docx"] false; Entry ["r"; "summary.txt"] false], [], 2).
Proof. by vm_compute. Qed.

(** [a.txt] next to an existing [b.txt] with the table [a -> b]: [a.txt]
    becomes [b_1.txt] and one conflict is logged. *)
Example taken_name_scenario :
  (λ s, (fs s, conflict_log s, file_counter s)) <$>
    final (@rename_items always_ok ["r"] [(PyStr "a", PyStr "b")] [] false
             (module_loaded swap_disk))
  = Some ([Entry ["r"; "b_1.txt"] false; Entry ["r"; "b.txt"] false],
          ["Renaming: r/a.txt -> b_1.txt to avoid conflict"], 1).
Proof. by vm_compute. Qed.

(** *** The entries a run handles *)

Lemma filter_fmap_fixed {A} (P : A → Prop) `{∀ x, Decision (P x)} (f : A → A)
    (l : list A) :
  (∀ x, P (f x) → f x = x) → (∀ x, P x → f x = x) →
  filter P (f <$> l) = filter P l.
Proof.
  intros Hf Hx. induction l as [|x l IH]; [done|]. rewrite fmap_cons.
  destruct (decide (P (f x))) as [Hp|Hp].
  - pose proof (Hf x Hp) as Hfx. rewrite Hfx in Hp |- *.
    rewrite !filter_cons_True by done. by rewrite IH.
  - rewrite filter_cons_False by done.
    rewrite filter_cons_False; [done|]. intros Hpx. by rewrite (Hx x Hpx) in Hp.
Qed.

Lemma parent_app_cons (e : Path) x k : parent (e ++ x :: k) = e ++ parent (x :: k).
Proof. unfold parent. by rewrite removelast_app. Qed.

(** A rename inside the directory [e] leaves the listing of every directory
    that is neither [e] nor below it as it was. *)
Lemma scandir_fs_rename (e : Path) o n disk (d : Path) :
  ¬ e `prefix_of` d →
  scandir (fs_rename (e ++ [o]) (e ++ [n]) disk) d = scandir disk d.
Proof.
  intros Hd. unfold scandir, fs_rename, FS. cbv zeta.
  rewrite filter_fmap_fixed; [done|..].
  - intros [p k] [Hpar Hne]. simpl in *. f_equal.
    destruct (reprefix_cases e o n p) as [(k' & -> & Heq)|[_ Heq]]; [|done].
    rewrite Heq in Hpar. rewrite parent_app_cons in Hpar. destruct Hd.
    rewrite <- Hpar. by apply prefix_app_r.
  - intros [p k] [Hpar Hne]. simpl in *. f_equal.
    destruct (reprefix_cases e o n p) as [(k' & -> & Heq)|[_ Heq]]; [|done].
    rewrite parent_app_cons in Hpar. destruct Hd.
    rewrite <- Hpar. by apply prefix_app_r.
Qed.

Lemma handled_frame `{OsRename} (dry_run is_dir : bool) (e : Path) o (new : Path)
    (out : outcome) (st st' : State) (d : Path) :
  handled dry_run is_dir (e ++ [o]) new out st st' → ¬ e `prefix_of` d →
  scandir (fs st') d = scandir (fs st) d.
Proof.
  intros (_ & _ & Hpar & Hval & _ & _ & _ & _ & _ & Hout) Hd.
  rewrite parent_snoc in Hpar.
  destruct out; destruct Hout as (_ & Hout).
  - by destruct Hout as [-> _].
  - destruct Hout as (_ & -> & _).
    rewrite (valid_name_nonempty new Hval), Hpar. by apply scandir_fs_rename.
  - by destruct Hout as (_ & -> & _).
Qed.

(** A walk at [top] leaves the listing of every directory that is neither
    [top] nor below it as it was, and the filesystem well-formed. *)
Lemma walk_frame `{OsRename} (dry_run : bool) (file_map folder_map : gmap string string)
    (base : Path) depth top st :
  base `prefix_of` top → 1 ≤ depth →
  wf_fs base (fs st) → bounded (depth + length top) (fs st) →
  ends (λ s, wf_fs base (fs s) ∧ bounded (depth + length top) (fs s)
             ∧ ∀ d, ¬ top `prefix_of` d → scandir (fs s) d = scandir (fs st) d)
       (λ _, True)
       (walk dry_run file_map folder_map depth top st).
Proof.
  intros Hbase Hd Hwf Hb.
  set (R := λ s s' : State,
         ∀ d, ¬ top `prefix_of` d → scandir (fs s') d = scandir (fs s) d).
  assert (HP : PreOrder R).
  { split; [by intros ???|]. intros x y z Hxy Hyz d Hnd.
    by rewrite Hyz, Hxy. }
  eapply ends_mono; [| |
    apply (walk_rel dry_run file_map folder_map base R top)]; try done.
  intros is_dir e o new out s s' _ Htop _ _ Hh d Hnd.
  eapply handled_frame; [done|]. intros He. apply Hnd. by etrans.
Qed.

Lemma targets_unfold file_map folder_map depth disk top :
  targets file_map folder_map (S depth) disk top
  = concat ((λ dir_name, targets file_map folder_map depth disk (truediv top dir_name))
              <$> (scandir disk top).1)
    ++ omap (λ n, (λ _, (false, truediv top n)) <$> file_map !! stem (truediv top n))
         (scandir disk top).2
    ++ omap (λ n, (λ _, (true, truediv top n)) <$> folder_map !! n) (scandir disk top).1.
Proof. reflexivity. Qed.

(** The targets below [top] depend only on the listings of [top] and of the
    directories below it. *)
Lemma targets_ext file_map folder_map base depth disk1 disk2 top :
  wf_fs base disk2 →
  (∀ d, top `prefix_of` d → scandir disk1 d = scandir disk2 d) →
  targets file_map folder_map depth disk1 top
  = targets file_map folder_map depth disk2 top.
Proof.
  intros Hwf. revert top. induction depth as [|depth IH]; intros top Hsame; [done|].
  rewrite !targets_unfold, (Hsame top) by done. f_equal. f_equal.
  apply list_fmap_ext. intros i dn Hdn%list_elem_of_lookup_2.
  destruct (scandir_valid base disk2 top dn Hwf (or_introl Hdn)) as [Hv _].
  apply IH. intros d Hpre. apply Hsame. rewrite truediv_valid in Hpre by done.
  by eapply prefix_app_l.
Qed.

Section handled_entries.
Context `{OsRename} (dry_run : bool) (file_map folder_map : gmap string string).
Context (base : Path).
Hypothesis file_map_clean : clean_map file_map.
Hypothesis folder_map_clean : clean_map folder_map.

Local Abbreviation sound N := (λ s, wf_fs base (fs s) ∧ bounded N (fs s)).

Lemma leaf_loop_targets is_dir (names : list string) (map_ : gmap string string)
    (key : string → string) (new_name : string → string → string) top st N :
  base `prefix_of` top → (∀ n, n ∈ names → valid_name n) →
  (∀ n v, valid_name n → map_ !! key n = Some v → valid_name (new_name v n)) →
  sound N st →
  ends (λ s, sound N s ∧ ∃ evs,
          trace s = trace st ++ evs
          ∧ ev_entry <$> evs
            = omap (λ n, (λ _, (is_dir, truediv top n)) <$> map_ !! key n) names)
       (λ _, False)
       (for_each (λ n s,
          match map_ !! key n with
          | Some v => rename_to dry_run is_dir (truediv top n) (new_name v n) s
          | None => Ok s
          end) names st).
Proof.
  intros Hbase Hv Hnew Hsound.
  apply (for_each_rule _ (λ done s, sound N s ∧ ∃ evs,
           trace s = trace st ++ evs
           ∧ ev_entry <$> evs
             = omap (λ n, (λ _, (is_dir, truediv top n)) <$> map_ !! key n) done)).
  { split; [done|]. exists []. by rewrite app_nil_r. }
  intros done n rest s Hl [[Hwf Hb] (evs & Htr & Hproj)].
  assert (Hn : valid_name n).
  { apply Hv. rewrite Hl. apply elem_of_app. right. by left. }
  rewrite omap_app. simpl.
  destruct (map_ !! key n) as [v|] eqn:Hlook; simpl.
  - rewrite truediv_valid by done.
    pose proof (rename_to_inv dry_run is_dir (top ++ [n]) (new_name v n) s) as Hinv.
    destruct (rename_to _ _ _ _ _) as [s'|e s'|]; simpl; [| |done].
    + destruct Hinv as (new & out & Hh). split; [by eapply handled_fs|].
      destruct Hh as (_ & _ & _ & _ & _ & Htr' & _).
      exists (evs ++ [Event is_dir (top ++ [n]) new out]).
      rewrite Htr', Htr, <- app_assoc. split; [done|].
      by rewrite fmap_app, Hproj.
    + destruct Hinv as [_ Hw]. rewrite with_name_valid in Hw; [done|by destruct top|..].
      * rewrite name_snoc. apply Hn.
      * by eapply Hnew.
  - split; [done|]. exists evs. by rewrite app_nil_r.
Qed.

Lemma walk_targets depth top st :
  base `prefix_of` top → 1 ≤ depth →
  wf_fs base (fs st) → bounded (depth + length top) (fs st) →
  ends (λ s, ∃ evs, trace s = trace st ++ evs
                    ∧ ev_entry <$> evs
                      = targets file_map folder_map depth (fs st) top)
       (λ _, False)
       (walk dry_run file_map folder_map depth top st).
Proof.
  revert top st. induction depth as [|depth IH]; intros top st Hbase Hd Hwf Hb;
    [lia|].
  rewrite walk_unfold, targets_unfold.
  set (dirs := (scandir (fs st) top).1). set (files := (scandir (fs st) top).2).
  set (N := S depth + length top).
  set (below_dirs := λ done : list string,
         concat ((λ dn, targets file_map folder_map depth (fs st) (truediv top dn))
                   <$> done)).
  set (of_files := omap (λ n, (λ _, (false, truediv top n))
                                <$> file_map !! stem (truediv top n)) files).
  set (of_dirs := omap (λ n, (λ _, (true, truediv top n)) <$> folder_map !! n) dirs).
  assert (Hnames : ∀ n, n ∈ dirs ∨ n ∈ files →
            valid_name n ∧ top ++ [n] ∈ paths (fs st)).
  { intros n Hn. by apply (scandir_valid base (fs st) top). }
  assert (Hnd : NoDup dirs) by (apply scandir_NoDup, Hwf).
  eapply (ends_bind _ (λ s, sound N s ∧ ∃ evs,
            trace s = trace st ++ evs
            ∧ ev_entry <$> evs = below_dirs dirs ++ of_files));
    [eapply (ends_bind _ (λ s, sound N s ∧ ∃ evs,
               trace s = trace st ++ evs ∧ ev_entry <$> evs = below_dirs dirs))|].
  - eapply ends_mono; [| |
      apply (for_each_rule _ (λ done s, sound N s
               ∧ (∀ d, (∀ dn, dn ∈ done → ¬ top ++ [dn] `prefix_of` d) →
                    scandir (fs s) d = scandir (fs st) d)
               ∧ ∃ evs, trace s = trace st ++ evs
                        ∧ ev_entry <$> evs = below_dirs done) (λ _, False))].
    { by intros s (? & _ & ?). }
    { done. }
    { split; [done|]. split; [done|]. exists []. by rewrite app_nil_r. }
    intros done dn rest s Hl ([Hwfs Hbs] & Hframe & evs & Htr & Hproj).
    assert (Hdn : dn ∈ dirs) by (rewrite Hl; apply elem_of_app; right; by left).
    assert (Hfresh : dn ∉ done).
    { fold dirs in Hl. rewrite Hl in Hnd. apply NoDup_app in Hnd as (_ & Hnd & _).
      intros Hin. apply (Hnd dn Hin). by left. }
    destruct (Hnames dn (or_introl Hdn)) as [Hvalid Hin].
    assert (HN : depth + length (top ++ [dn]) = N).
    { rewrite length_app. simpl. unfold N. lia. }
    assert (Hdepth : 1 ≤ depth).
    { apply Hb in Hin. rewrite length_app in Hin. simpl in Hin. lia. }
    assert (Hbase' : base `prefix_of` top ++ [dn]) by by apply prefix_app_r.
    assert (Hsame : targets file_map folder_map depth (fs s) (top ++ [dn])
                    = targets file_map folder_map depth (fs st) (top ++ [dn])).
    { apply (targets_ext _ _ base); [done|]. intros d Hpre. apply Hframe.
      intros dn' Hdn' Hpre'. apply Hfresh.
      assert (Heq : top ++ [dn'] = top ++ [dn]).
      { apply (prefix_same_length _ _ d); [done..|]. by rewrite !length_app. }
      apply app_inv_head in Heq. injection Heq as ->. done. }
    rewrite <- HN in Hbs.
    pose proof (IH (top ++ [dn]) s Hbase' Hdepth Hwfs Hbs) as Htargets.
    pose proof (walk_frame dry_run file_map folder_map base depth (top ++ [dn]) s
                  Hbase' Hdepth Hwfs Hbs) as Hfr.
    rewrite HN in Hfr.
    pose proof (ends_and _ _ _ _ _ Hfr Htargets) as Hboth.
    rewrite truediv_valid by done.
    eapply ends_mono; [| |exact Hboth]; simpl; [|by intros ? [_ ?]].
    intros s' [(Hwf' & Hb' & Hframe') (evs' & Htr' & Hproj')].
    split; [done|]. split.
    + intros d Hd'. rewrite Hframe'.
      * apply Hframe. intros dn' Hdn'. apply Hd'. apply elem_of_app. by left.
      * apply Hd'. apply elem_of_app. right. by left.
    + exists (evs ++ evs'). rewrite Htr', Htr, <- app_assoc. split; [done|].
      rewrite fmap_app, Hproj, Hproj', Hsame. unfold below_dirs.
      rewrite fmap_app, concat_app. simpl.
      by rewrite truediv_valid, app_nil_r by done.
  - intros s1 [Hsound1 (evs1 & Htr1 & Hproj1)].
    eapply ends_mono; [| |
      apply (leaf_loop_targets false files file_map (λ n, stem (truediv top n))
               (λ v n, v +:+ suffix (truediv top n)) top s1 N)]; try done.
    + intros s [Hsound (evs & Htr & Hproj)]. split; [done|].
      exists (evs1 ++ evs). rewrite Htr, Htr1, <- app_assoc. split; [done|].
      by rewrite fmap_app, Hproj1, Hproj.
    + intros n Hn. by apply Hnames; right.
    + intros n v Hn Hlook. apply valid_name_app; [by eapply file_map_clean|].
      apply contains_suffix. rewrite truediv_valid, name_snoc by done. apply Hn.
  - intros s2 [Hsound2 (evs2 & Htr2 & Hproj2)].
    eapply ends_mono; [| |
      apply (leaf_loop_targets true dirs folder_map (λ n, n) (λ v _, v) top s2 N)];
      try done.
    + intros s [Hsound (evs & Htr & Hproj)].
      exists (evs2 ++ evs). rewrite Htr, Htr2, <- app_assoc. split; [done|].
      by rewrite fmap_app, Hproj2, Hproj, <- app_assoc.
    + intros n Hn. by apply Hnames; left.
    + intros n v Hn Hlook. by eapply folder_map_clean.
Qed.
End handled_entries.

(** With usable tables a run returns normally and handles exactly the
    targets of the filesystem it started on, in order, whether it is a dry
    run and whatever the operating system refuses. *)
Lemma run_targets `{OsRename} (root_directory : Path)
    (files_csv folders_csv : list (pyobj * pyobj)) (dry_run : bool) (st : State) :
  wf_fs root_directory (fs st) →
  Forall usable_row files_csv → Forall usable_row folders_csv →
  ∃ st', rename_items root_directory files_csv folders_csv dry_run st = Ok st'
    ∧ ev_entry <$> trace st'
      = targets (build_map files_csv) (build_map folders_csv)
          (walk_budget (fs st)) (fs st) root_directory.
Proof.
  intros Hwf Hfiles Hfolders.
  pose proof (walk_targets dry_run (build_map files_csv) (build_map folders_csv)
                root_directory (build_map_clean _ Hfiles) (build_map_clean _ Hfolders)
                (walk_budget (fs st)) root_directory (enter st)) as Hrun.
  unfold rename_items.
  destruct (walk _ _ _ _ _ _) as [st'| |]; simpl in Hrun.
  - exists st'. split; [done|]. destruct Hrun as (evs & -> & Hevs); try done.
    + unfold walk_budget. lia.
    + apply bounded_walk_budget.
  - destruct Hrun; try done.
    + unfold walk_budget. lia.
    + apply bounded_walk_budget.
  - destruct Hrun; try done.
    + unfold walk_budget. lia.
    + apply bounded_walk_budget.
Qed.

(** *** Dry run and live run *)

Lemma rename_to_plan `{OsRename} (is_dir : bool) (old : Path) (n : string) (st : State) :
  plan_of (rename_to true is_dir old n st) = plan_of (rename_to false is_dir old n st).
Proof.
  unfold rename_to. destruct (with_name old n) as [new|]; [|done].
  destruct (get_unique_path old new st) as [[p st1]|]; [|done].
  unfold attempt. destruct (os_error _ _ _); simpl; unfold plan; simpl;
    by rewrite !fmap_app.
Qed.

(** C3.  A dry run leaves the filesystem as it was and adds no error-log
    entry: every entry it handles is only reported.  Deconfliction and
    conflict logging are the same code in both modes: handled from the same
    state, an entry gets the same destination, reservation, conflict-log
    entry and count in a dry run as in a live run.  Over a dry run the
    destinations are deconflicted against the unchanged filesystem: they are
    pairwise distinct, none is an entry of the filesystem, and all of them
    are reserved at the end.  With usable tables the dry run reports exactly
    the entries the live run handles, in the same order. *)
Theorem dry_run_does_not_mutate `{OsRename} (root_directory : Path)
    (files_csv folders_csv : list (pyobj * pyobj)) (st : State) :
  wf_fs root_directory (fs st) →
  (∀ is_dir old_path new_name s,
     plan_of (rename_to true is_dir old_path new_name s)
     = plan_of (rename_to false is_dir old_path new_name s))
  ∧ ∃ st', final (rename_items root_directory files_csv folders_csv true st) = Some st'
      ∧ fs st' = fs st
      ∧ error_log st' = error_log st
      ∧ Forall (λ e, ev_outcome e = Previewed ∧ ev_new e ∉ paths (fs st)) (trace st')
      ∧ NoDup (returned_paths st')
      ∧ reserved_paths st' = reserved_paths st ∪ list_to_set (returned_paths st')
      ∧ (Forall usable_row files_csv → Forall usable_row folders_csv →
         ∃ st_live,
           rename_items root_directory files_csv folders_csv false st = Ok st_live
           ∧ ev_entry <$> trace st' = ev_entry <$> trace st_live).
Proof.
  intros Hwf. split.
  { intros is_dir old_path new_name s. apply rename_to_plan. }
  destruct (run_dry root_directory files_csv folders_csv st Hwf)
    as (st' & Hfin & Hfs & Herr & Hall).
  destruct (run_reserved root_directory files_csv folders_csv true st Hwf)
    as (st2 & Hfin2 & Hnd & Hres).
  rewrite (final_inj _ _ _ Hfin2 Hfin) in Hnd, Hres.
  exists st'. do 6 (split; [done|]). intros Hfiles Hfolders.
  destruct (run_targets root_directory files_csv folders_csv true st Hwf Hfiles Hfolders)
    as (st3 & Hdry & Htargets).
  destruct (run_targets root_directory files_csv folders_csv false st Hwf Hfiles Hfolders)
    as (st_live & Hlive & Htargets').
  exists st_live. split; [done|]. rewrite Hdry in Hfin. injection Hfin as <-.
  by rewrite Htargets, Htargets'.
Qed.

Lemma dry_run_does_not_mutate_witness :
  ∃ st', final (@rename_items always_ok ["r"] swap_csv [] true (module_loaded swap_disk))
         = Some st'
    ∧ fs st' = swap_disk.
Proof.
  destruct (@dry_run_does_not_mutate always_ok ["r"] swap_csv [] (module_loaded swap_disk)
              wf_swap_disk) as (_ & st' & Hfin & Hfs & _).
  by exists st'.
Defined.

(** C3, as stated, fails: on the swap example the dry run plans [a_1.txt]
    for [b.txt] and logs two conflicts, while the live run renames [b.txt]
    to [a.txt] and logs one. *)
Lemma dry_run_differs_from_live_run :
  ∃ st_dry st_live,
    @rename_items always_ok ["r"] swap_csv [] true (module_loaded swap_disk) = Ok st_dry
    ∧ @rename_items always_ok ["r"] swap_csv [] false (module_loaded swap_disk) = Ok st_live
    ∧ returned_paths st_dry ≠ returned_paths st_live
    ∧ conflict_log st_dry ≠ conflict_log st_live.
Proof.
  do 2 eexists. split; [vm_compute; reflexivity|].
  split; [vm_compute; reflexivity|]. split; by vm_compute.
Qed.

(** *** Failed renames *)

(** C6.  A rename that fails inside [try] still leaves the entry counted
    and adds one entry to the error log, made of the old path, the new name
    and the text of the exception; the call returns normally.  Over a run
    with usable tables, whatever renames the operating system refuses, the
    run returns normally, it handles every target of the tree it started
    on, the two counters count every handled entry, and the error log has
    grown by exactly one entry per failed rename, in order. *)
Theorem failed_rename_counted_and_logged `{OsRename} (root_directory : Path)
    (files_csv folders_csv : list (pyobj * pyobj)) (dry_run : bool) (st : State) :
  wf_fs root_directory (fs st) →
  Forall usable_row files_csv → Forall usable_row folders_csv →
  (∀ is_dir old_path new_path s cause,
     os_error (fs s) old_path new_path = Some cause →
     attempt false is_dir old_path new_path s
     = Ok (emit (Event is_dir old_path new_path (Failed cause))
             (log_error
                ("Failed to rename " +:+ (if is_dir then "folder " else "file ")
                   +:+ path_str old_path +:+ " -> " +:+ name new_path +:+ ": " +:+ cause)
                (count is_dir s))))
  ∧ ∃ st', rename_items root_directory files_csv folders_csv dry_run st = Ok st'
      ∧ ev_entry <$> trace st'
        = targets (build_map files_csv) (build_map folders_csv)
            (walk_budget (fs st)) (fs st) root_directory
      ∧ file_counter st' = length (filter (λ e, ev_is_dir e = false) (trace st'))
      ∧ folder_counter st' = length (filter (λ e, ev_is_dir e = true) (trace st'))
      ∧ error_log st' = error_log st ++ omap failure_message (trace st').
Proof.
  intros Hwf Hfiles Hfolders. split.
  - intros is_dir old_path new_path s cause Hos. unfold attempt. simpl.
    by rewrite Hos.
  - destruct (rename_items_inv dry_run root_directory files_csv folders_csv
      (λ s, file_counter s = length (filter (λ e, ev_is_dir e = false) (trace s))
            ∧ folder_counter s = length (filter (λ e, ev_is_dir e = true) (trace s))
            ∧ error_log s = error_log st ++ omap failure_message (trace s)) st)
      as (st' & _ & _ & HI & Hok); [| done | |].
    + intros ????????? Hh. by eapply handled_counted.
    + simpl. by rewrite app_nil_r.
    + destruct (run_targets root_directory files_csv folders_csv dry_run st
                  Hwf Hfiles Hfolders) as (st2 & Hrun & Htargets).
      rewrite (Hok Hfiles Hfolders) in Hrun. injection Hrun as <-.
      exists st'. split; [by apply Hok|done].
Qed.

Lemma failed_rename_counted_and_logged_witness :
  ∃ st', @rename_items denying ["r"] swap_csv [] false (module_loaded swap_disk) = Ok st'
    ∧ file_counter st' = length (filter (λ e, ev_is_dir e = false) (trace st'))
    ∧ error_log st' = [] ++ omap failure_message (trace st').
Proof.
  destruct (@failed_rename_counted_and_logged denying ["r"] swap_csv [] false
              (module_loaded swap_disk) wf_swap_disk)
    as [_ (st' & Hok & _ & Hfc & _ & Herr)].
  - repeat constructor; by vm_compute.
  - constructor.
  - by exists st'.
Defined.

(** On the swap example with every rename refused: both files are counted,
    both failures are logged, nothing is renamed. *)
Example denied_run :
  match @rename_items denying ["r"] swap_csv [] false (module_loaded swap_disk) with
  | Ok st' =>
      (file_counter st', folder_counter st') = (2, 0)
      ∧ error_log st'
        = ["Failed to rename file r/a.txt -> b_1.txt: Permission denied";
           "Failed to rename file r/b.txt -> a_1.txt: Permission denied"]
      ∧ fs st' = swap_disk
  | _ => False
  end.
Proof. vm_compute. done. Qed.

(** * Further properties *)

(** *** More on strings *)

Lemma app_assoc_str (s t u : string) : (s +:+ t) +:+ u = s +:+ (t +:+ u).
Proof. induction s as [|a s IH]; [done|]. by rewrite !app_String, IH. Qed.

Lemma str_take_app_length a b : str_take (String.length a) (a +:+ b) = a.
Proof.
  induction a as [|c a IH]; [done|]. rewrite app_String. simpl. by rewrite IH.
Qed.

Lemma str_drop_app_length a b : str_drop (String.length a) (a +:+ b) = b.
Proof. induction a as [|c a IH]; [done|]. by rewrite app_String. Qed.

Lemma str_drop_length i s : String.length (str_drop i s) = String.length s - i.
Proof. revert s. induction i as [|i IH]; intros [|a s]; simpl; auto. Qed.

Lemma rfind_app c s t :
  rfind c (s +:+ t)
  = match rfind c t with
    | Some j => Some (String.length s + j)
    | None => rfind c s
    end.
Proof.
  induction s as [|a s IH].
  - rewrite app_empty_l. by destruct (rfind c t).
  - rewrite app_String. simpl. rewrite IH. by destruct (rfind c t).
Qed.

Lemma rfind_drop c s i : rfind c s = Some i → rfind c (str_drop i s) = Some 0.
Proof.
  revert i. induction s as [|a s IH]; intros i; [done|]. simpl.
  destruct (rfind c s) as [j|] eqn:Hj.
  - intros [= <-]. simpl. by apply IH.
  - case_decide; [|done]. intros [= <-]. simpl. rewrite Hj. by rewrite decide_True.
Qed.

(** *** The candidates of [get_unique_path] *)

Lemma suffix_index_Some nm i :
  suffix_index nm = Some i →
  rfind "." nm = Some i ∧ 0 < i ∧ i < String.length nm - 1.
Proof.
  unfold suffix_index. destruct (rfind "." nm) as [j|]; [|done].
  case_decide; [|done]. intros [= <-]. by repeat split; try lia.
Qed.

Lemma suffix_index_candidate (new : Path) counter i :
  suffix_index (name new) = Some i →
  suffix_index (candidate_name new counter)
  = Some (String.length (str_take i (name new) +:+ "_" +:+ str_nat counter)).
Proof.
  intros Hi. pose proof (suffix_index_Some _ _ Hi) as (Hr & H0 & Hlen).
  unfold candidate_name, stem, suffix. rewrite Hi.
  set (x := str_drop i (name new)).
  assert (Hx : rfind "." x = Some 0) by by apply rfind_drop.
  assert (Hxlen : 2 ≤ String.length x).
  { unfold x. rewrite str_drop_length. lia. }
  unfold suffix_index.
  replace (str_take i (name new) +:+ "_" +:+ str_nat counter +:+ x)
    with ((str_take i (name new) +:+ "_" +:+ str_nat counter) +:+ x).
  2:{ by rewrite !app_assoc_str. }
  rewrite rfind_app, Hx, Nat.add_0_r.
  rewrite decide_True; [done|].
  rewrite !length_app_str. simpl. lia.
Qed.

Lemma candidate_suffix_stem (new : Path) counter :
  contains "/" (name new) = false → suffix new ≠ "" →
  suffix (candidate new counter) = suffix new
  ∧ stem (candidate new counter) = stem new +:+ "_" +:+ str_nat counter.
Proof.
  intros Hsep Hsuf. rewrite candidate_snoc by done.
  unfold suffix, stem in *. rewrite name_snoc.
  destruct (suffix_index (name new)) as [i|] eqn:Hi; [|done].
  rewrite (suffix_index_candidate new counter i Hi).
  unfold candidate_name, stem, suffix. rewrite Hi.
  replace (str_take i (name new) +:+ "_" +:+ str_nat counter +:+ str_drop i (name new))
    with ((str_take i (name new) +:+ "_" +:+ str_nat counter) +:+ str_drop i (name new))
    by (by rewrite !app_assoc_str).
  by rewrite str_drop_app_length, str_take_app_length.
Qed.

(** X1.  When the destination is taken, [get_unique_path] returns the
    candidate of the least counter from 1 on whose path neither exists nor
    is reserved: every smaller counter was tried and found taken.  The name
    returned is the stem, an underscore, the counter and the suffix. *)
Theorem get_unique_path_least_counter (old new : Path) (st : State) :
  contains "/" (name new) = false → is_free st new = false →
  ∃ k st',
    get_unique_path old new st = Some (candidate new k, st')
    ∧ 1 ≤ k
    ∧ is_free st (candidate new k) = true
    ∧ (∀ j, 1 ≤ j < k → is_free st (candidate new j) = false)
    ∧ name (candidate new k) = stem new +:+ "_" +:+ str_nat k +:+ suffix new
    ∧ parent (candidate new k) = parent new.
Proof.
  intros Hsep Htaken.
  destruct (get_unique_path_total old new st Hsep) as [[p st'] Hg].
  pose proof (get_unique_path_inv _ _ _ _ _ Hg) as (Hfree & _ & _ & _ & _ & _ & _ & Hcase).
  destruct Hcase as [[-> _]|(k & Hk & -> & _ & Hlt & _)]; [congruence|].
  exists k, st'. do 4 (split; [done|]).
  by rewrite candidate_snoc, name_snoc, parent_snoc.
Qed.

Lemma get_unique_path_least_counter_witness :
  ∃ k st',
    get_unique_path ["r"; "a.txt"] ["r"; "b.txt"] (module_loaded swap_disk)
    = Some (candidate ["r"; "b.txt"] k, st')
    ∧ 1 ≤ k.
Proof.
  destruct (get_unique_path_least_counter ["r"; "a.txt"] ["r"; "b.txt"]
              (module_loaded swap_disk) eq_refl eq_refl) as (k & st' & Hg & Hk & _).
  by exists k, st'.
Defined.

(** X2.  A call to [get_unique_path] touches only the reserved set and the
    conflict log.  A free destination is returned as it is and nothing is
    logged; otherwise exactly one entry is appended to the conflict log,
    naming the old path and the new name.  The returned path is reserved
    afterwards. *)
Theorem get_unique_path_effect (old new : Path) (st : State) :
  contains "/" (name new) = false →
  ∃ p st',
    get_unique_path old new st = Some (p, st')
    ∧ fs st' = fs st ∧ error_log st' = error_log st
    ∧ file_counter st' = file_counter st ∧ folder_counter st' = folder_counter st
    ∧ reserved_paths st' = {[ p ]} ∪ reserved_paths st
    ∧ (if is_free st new
       then p = new ∧ conflict_log st' = conflict_log st
       else p ≠ new
            ∧ conflict_log st'
              = conflict_log st
                ++ ["Renaming: " +:+ path_str old +:+ " -> " +:+ name p
                      +:+ " to avoid conflict"]).
Proof.
  intros Hsep.
  destruct (get_unique_path_total old new st Hsep) as [[p st'] Hg].
  exists p, st'. split; [done|].
  pose proof (get_unique_path_inv _ _ _ _ _ Hg)
    as (Hfree & Hres & Hfs & Herr & Hfc & Hdc & _ & _).
  do 5 (split; [done|]).
  unfold get_unique_path in Hg. destruct (is_free st new) eqn:Hnew.
  - by injection Hg as <- <-.
  - destruct (probe _ _ _ _) as [k|]; [|done]. injection Hg as <- <-.
    split; [intros Heq; rewrite Heq in Hfree; congruence|].
    simpl. unfold conflict_message. fold (candidate new k).
    by rewrite candidate_snoc, name_snoc.
Qed.

Lemma get_unique_path_effect_witness :
  ∃ p st',
    get_unique_path ["r"; "a.txt"] ["r"; "b.txt"] (module_loaded swap_disk) = Some (p, st')
    ∧ fs st' = swap_disk.
Proof.
  destruct (get_unique_path_effect ["r"; "a.txt"] ["r"; "b.txt"]
              (module_loaded swap_disk) eq_refl) as (p & st' & Hg & Hfs & _).
  by exists p, st'.
Defined.

(** X3.  Deconfliction keeps the extension: whatever path
    [get_unique_path] returns for a destination that has a suffix, it has
    the same suffix. *)
Theorem get_unique_path_keeps_suffix (old new : Path) (st : State) :
  contains "/" (name new) = false → suffix new ≠ "" →
  ∃ p st', get_unique_path old new st = Some (p, st') ∧ suffix p = suffix new.
Proof.
  intros Hsep Hsuf.
  destruct (get_unique_path_total old new st Hsep) as [[p st'] Hg].
  exists p, st'. split; [done|].
  apply get_unique_path_inv in Hg as (_ & _ & _ & _ & _ & _ & _ & Hcase).
  destruct Hcase as [[-> _]|(k & _ & -> & _)]; [done|].
  by apply candidate_suffix_stem.
Qed.

Lemma get_unique_path_keeps_suffix_witness :
  ∃ p st',
    get_unique_path ["r"; "a.txt"] ["r"; "b.txt"] (module_loaded swap_disk) = Some (p, st')
    ∧ suffix p = ".txt".
Proof.
  apply (get_unique_path_keeps_suffix ["r"; "a.txt"] ["r"; "b.txt"]
           (module_loaded swap_disk) eq_refl).
  by vm_compute.
Defined.

(** *** The lookup mappings, continued *)

Lemma build_map_dom rows :
  dom (build_map rows) = list_to_set ((λ row, py_str row.1) <$> rows).
Proof.
  induction rows as [|row rows IH] using rev_ind; [done|].
  rewrite build_map_snoc, dom_insert_L, IH, fmap_app, list_to_set_app_L. simpl.
  apply set_eq. intros k.
  rewrite !elem_of_union, elem_of_singleton, elem_of_empty. tauto.
Qed.

Lemma size_list_to_set_le (l : list string) :
  size (list_to_set l : gset string) ≤ length l.
Proof.
  induction l as [|x l IH]; [by rewrite list_to_set_nil, size_empty|].
  rewrite list_to_set_cons, size_union_alt, size_singleton. simpl.
  assert (size (list_to_set l ∖ {[x]} : gset string) ≤ size (list_to_set l : gset string)).
  { apply subseteq_size. by apply subseteq_difference_l. }
  lia.
Qed.

(** X4.  A key is in the dictionary built on lines 65 and 66 exactly when
    some row of the table has it as its (stringified) old name; looking up
    any other name finds nothing.  The number of mappings reported on line
    69 is the number of distinct keys: at most the number of rows, and
    equal to it when no old name occurs twice. *)
Theorem build_map_keys (rows : list (pyobj * pyobj)) (k : string) :
  (is_Some (build_map rows !! k) ↔ k ∈ (λ row, py_str row.1) <$> rows)
  ∧ (build_map rows !! k = None ↔ Forall (λ row, py_str row.1 ≠ k) rows)
  ∧ size (build_map rows) ≤ length rows
  ∧ (NoDup ((λ row, py_str row.1) <$> rows) → size (build_map rows) = length rows).
Proof.
  assert (Hdom : is_Some (build_map rows !! k) ↔ k ∈ (λ row, py_str row.1) <$> rows).
  { rewrite <- elem_of_dom, build_map_dom. apply elem_of_list_to_set. }
  split; [done|]. split; [|split].
  - rewrite eq_None_not_Some, Hdom, Forall_forall, list_elem_of_fmap. split.
    + intros Hno row Hrow Heq. apply Hno. by exists row.
    + intros Hall (row & -> & Hrow). by apply (Hall row Hrow).
  - rewrite <- size_dom, build_map_dom.
    rewrite <- (length_fmap (λ row : pyobj * pyobj, py_str row.1) rows).
    apply size_list_to_set_le.
  - intros Hnd. rewrite <- size_dom, build_map_dom, size_list_to_set by done.
    by rewrite length_fmap.
Qed.

(** X5.  Every new name stored in a lookup mapping is sanitized: it holds
    none of the nine reserved characters. *)
Theorem build_map_values_sanitized (rows : list (pyobj * pyobj)) (k v : string) :
  build_map rows !! k = Some v →
  ∀ c, reserved_char c && contains c v = false.
Proof.
  intros (row & _ & ->)%build_map_values c.
  destruct (reserved_char c) eqn:Hc; [|done]. simpl.
  by apply re_sub_class_clean.
Qed.

Lemma build_map_values_sanitized_witness :
  build_map [(PyStr "A", PyStr "x:y")] !! "A" = Some "x_y"
  ∧ reserved_char ":" && contains ":" "x_y" = false.
Proof.
  split; [reflexivity|].
  apply (build_map_values_sanitized [(PyStr "A", PyStr "x:y")] "A" "x_y").
  reflexivity.
Defined.

(** *** The sanitizer, continued *)

(** X6.  [sanitize_filename] returns its argument's string unchanged
    exactly when that string holds no reserved character. *)
Theorem sanitize_filename_fixed_iff (x : pyobj) :
  sanitize_filename x = py_str x
  ↔ ∀ c, reserved_char c && contains c (py_str x) = false.
Proof.
  unfold sanitize_filename. split.
  - intros Heq c. rewrite <- Heq. destruct (reserved_char c) eqn:Hc; [|done].
    simpl. by apply re_sub_class_clean.
  - intros Hclean. apply re_sub_class_id. intros c Hc.
    specialize (Hclean c). by rewrite Hc in Hclean.
Qed.

(** X7.  Giving an entry the sanitized new name of a table row (lines 66,
    100 and 101) raises [ValueError] exactly when the row's new name is the
    empty string or a single dot; any other value is accepted by
    [with_name] and only the final component of the path changes. *)
Theorem with_name_sanitized (p : Path) (x : pyobj) :
  name p ≠ "" →
  with_name p (sanitize_filename x)
  = if decide (py_str x = "" ∨ py_str x = ".") then None
    else Some (parent p ++ [sanitize_filename x]).
Proof.
  intros Hp. case_decide as Hx.
  - unfold with_name. rewrite decide_False by done.
    rewrite decide_True; [done|]. unfold sanitize_filename.
    destruct Hx as [-> | ->]; auto.
  - apply with_name_valid; [by intros ->|done|].
    apply sanitize_valid; intros Heq; apply Hx; auto.
Qed.

Lemma with_name_sanitized_witness :
  with_name ["r"; "x"] (sanitize_filename (PyStr "a:b")) = Some ["r"; "a_b"].
Proof. apply (with_name_sanitized ["r"; "x"] (PyStr "a:b")). done. Defined.

(** *** What a run does to the filesystem *)

Lemma replay_snoc tr e disk :
  replay (tr ++ [e]) disk
  = match ev_outcome e with
    | Renamed => fs_rename (ev_old e) (ev_new e) (replay tr disk)
    | _ => replay tr disk
    end.
Proof. unfold replay. by rewrite foldl_app. Qed.

Lemma handled_replay `{OsRename} (dry_run is_dir : bool) (old new : Path)
    (out : outcome) (st st' : State) (disk : FS) :
  handled dry_run is_dir old new out st st' →
  fs st = replay (trace st) disk → fs st' = replay (trace st') disk.
Proof.
  intros (_ & _ & _ & _ & _ & Htr & _ & _ & _ & Hout) Hfs.
  rewrite Htr, replay_snoc. simpl. destruct out.
  - destruct Hout as (_ & -> & _). done.
  - destruct Hout as (_ & _ & -> & _). by rewrite Hfs.
  - destruct Hout as (_ & _ & -> & _). done.
Qed.

Lemma length_replay tr disk : length (replay tr disk) = length disk.
Proof.
  induction tr as [|e tr IH] using rev_ind; [done|].
  rewrite replay_snoc. destruct (ev_outcome e); try done.
  unfold fs_rename. by rewrite length_fmap.
Qed.

Lemma kinds_replay tr disk : kinds (replay tr disk) = kinds disk.
Proof.
  induction tr as [|e tr IH] using rev_ind; [done|].
  rewrite replay_snoc. destruct (ev_outcome e); try done.
  unfold kinds, fs_rename in *. by rewrite <- list_fmap_compose.
Qed.



(** X9.  A run keeps the filesystem well-formed: afterwards no two entries
    have the same path (no rename has overwritten another entry), every
    entry still lies below the root directory, has a valid name, and the
    directories above it are all there. *)
Theorem run_keeps_filesystem_well_formed `{OsRename} (root_directory : Path)
    (files_csv folders_csv : list (pyobj * pyobj)) (dry_run : bool) (st : State) :
  wf_fs root_directory (fs st) →
  ∃ st', final (rename_items root_directory files_csv folders_csv dry_run st) = Some st'
    ∧ wf_fs root_directory (fs st')
    ∧ NoDup (paths (fs st'))
    ∧ ∀ p, p ∈ paths (fs st') → below root_directory p.
Proof.
  intros Hwf.
  destruct (rename_items_inv dry_run root_directory files_csv folders_csv
    (λ _, True) st) as (st' & Hfin & Hwf' & _); [done..|].
  exists st'. split; [done|]. split; [done|]. destruct Hwf' as [Hnd Hall].
  split; [done|]. intros p Hp. by destruct (Hall p Hp).
Qed.

Lemma run_keeps_filesystem_well_formed_witness :
  ∃ st', final (@rename_items always_ok ["r"] swap_csv [] false (module_loaded swap_disk))
         = Some st'
    ∧ NoDup (paths (fs st')).
Proof.
  destruct (@run_keeps_filesystem_well_formed always_ok ["r"] swap_csv [] false
              (module_loaded swap_disk) wf_swap_disk) as (st' & Hfin & _ & Hnd & _).
  by exists st'.
Defined.

Lemma handled_shape `{OsRename} (dry_run is_dir : bool) (old new : Path)
    (out : outcome) (st st' : State) (conflicts errors : list string) :
  handled dry_run is_dir old new out st st' →
  Forall (λ e, parent (ev_new e) = parent (ev_old e) ∧ valid_name (name (ev_new e)))
         (trace st)
  ∧ conflicts `prefix_of` conflict_log st ∧ errors `prefix_of` error_log st →
  Forall (λ e, parent (ev_new e) = parent (ev_old e) ∧ valid_name (name (ev_new e)))
         (trace st')
  ∧ conflicts `prefix_of` conflict_log st' ∧ errors `prefix_of` error_log st'.
Proof.
  intros (_ & _ & Hpar & Hval & _ & Htr & _ & _ & [msgs Hcl] & Hout) (Hall & Hc & He).
  split; [|split].
  - rewrite Htr. apply Forall_app. split; [done|]. by apply Forall_singleton.
  - rewrite Hcl. by apply prefix_app_r.
  - destruct out.
    + by destruct Hout as (_ & _ & ->).
    + by destruct Hout as (_ & _ & _ & ->).
    + destruct Hout as (_ & _ & _ & ->). by apply prefix_app_r.
Qed.

Lemma run_shape `{OsRename} (root_directory : Path)
    (files_csv folders_csv : list (pyobj * pyobj)) (dry_run : bool) (st : State) :
  wf_fs root_directory (fs st) →
  ∃ st', final (rename_items root_directory files_csv folders_csv dry_run st) = Some st'
    ∧ Forall (λ e, parent (ev_new e) = parent (ev_old e) ∧ valid_name (name (ev_new e)))
             (trace st')
    ∧ conflict_log st `prefix_of` conflict_log st'
    ∧ error_log st `prefix_of` error_log st'.
Proof.
  intros Hwf.
  destruct (rename_items_inv dry_run root_directory files_csv folders_csv
    (λ s, Forall (λ e, parent (ev_new e) = parent (ev_old e)
                       ∧ valid_name (name (ev_new e))) (trace s)
          ∧ conflict_log st `prefix_of` conflict_log s
          ∧ error_log st `prefix_of` error_log s) st)
    as (st' & Hfin & _ & HI & _); [| done | |by exists st'].
  - intros ????????? Hh. by eapply handled_shape.
  - split; [constructor|]. done.
Qed.

(** X10.  Every entry a run handles stays in its directory: the destination
    chosen for it has the same parent as its old path, and its new name is
    one a directory entry can have (not empty, not a single dot, without
    separator). *)
Theorem run_renames_in_place `{OsRename} (root_directory : Path)
    (files_csv folders_csv : list (pyobj * pyobj)) (dry_run : bool) (st : State) :
  wf_fs root_directory (fs st) →
  ∃ st', final (rename_items root_directory files_csv folders_csv dry_run st) = Some st'
    ∧ ∀ e, e ∈ trace st' →
        parent (ev_new e) = parent (ev_old e) ∧ valid_name (name (ev_new e)).
Proof.
  intros Hwf.
  destruct (run_shape root_directory files_csv folders_csv dry_run st Hwf)
    as (st' & Hfin & Hall & _).
  exists st'. split; [done|]. by apply Forall_forall.
Qed.

Lemma run_renames_in_place_witness :
  ∃ st', final (@rename_items always_ok ["r"] swap_csv [] false (module_loaded swap_disk))
         = Some st'
    ∧ ∀ e, e ∈ trace st' →
        parent (ev_new e) = parent (ev_old e) ∧ valid_name (name (ev_new e)).
Proof.
  apply (@run_renames_in_place always_ok ["r"] swap_csv [] false
           (module_loaded swap_disk) wf_swap_disk).
Defined.

(** X11.  Also when a run is cut short by an exception, the error log
    accounts for it: the entries it added are, in order, the messages of
    lines 93 and 112 for the renames that failed.  A dry run adds none, and
    neither does a run during which the operating system refuses nothing;
    the error log is never reset. *)
Theorem run_error_log `{OsRename} (root_directory : Path)
    (files_csv folders_csv : list (pyobj * pyobj)) (dry_run : bool) (st : State) :
  wf_fs root_directory (fs st) →
  ∃ st', final (rename_items root_directory files_csv folders_csv dry_run st) = Some st'
    ∧ error_log st' = error_log st ++ omap failure_message (trace st')
    ∧ (dry_run = true ∨ (∀ disk old new, os_error disk old new = None) →
       error_log st' = error_log st).
Proof.
  intros Hwf.
  destruct (rename_items_inv dry_run root_directory files_csv folders_csv
    (λ s, error_log s = error_log st ++ omap failure_message (trace s)
          ∧ (dry_run = true ∨ (∀ disk old new, os_error disk old new = None) →
             error_log s = error_log st)) st)
    as (st' & Hfin & _ & HI & _); [| done | |by exists st'].
  - intros is_dir d o new out s s' _ _ _ Hh [Hlog Hquiet].
    destruct Hh as (_ & _ & _ & _ & _ & Htr & _ & _ & _ & Hout).
    rewrite Htr, omap_app. unfold failure_message at 2. simpl.
    destruct out as [| |cause]; simpl.
    + destruct Hout as (_ & _ & ->). by rewrite app_nil_r.
    + destruct Hout as (_ & _ & _ & ->). by rewrite app_nil_r.
    + destruct Hout as (Hlive & Hos & _ & ->). split; [by rewrite Hlog, <- app_assoc|].
      intros [?|Hnever]; [congruence|]. by rewrite Hnever in Hos.
  - simpl. by rewrite app_nil_r.
Qed.

Lemma run_error_log_witness :
  ∃ st', final (@rename_items denying ["r"] swap_csv [] false (module_loaded swap_disk))
         = Some st'
    ∧ error_log st' = [] ++ omap failure_message (trace st').
Proof.
  destruct (@run_error_log denying ["r"] swap_csv [] false
              (module_loaded swap_disk) wf_swap_disk) as (st' & Hfin & Hlog & _).
  by exists st'.
Defined.

(** *** What a run counts *)

Lemma length_filter_entry (b : bool) (tr : list event) :
  length (filter (λ e, ev_is_dir e = b) tr)
  = length (filter (λ t : bool * Path, t.1 = b) (ev_entry <$> tr)).
Proof.
  induction tr as [|e tr IH]; [done|]. rewrite fmap_cons.
  destruct (decide (ev_is_dir e = b)) as [Hb|Hb].
  - rewrite !filter_cons_True by done. simpl. by rewrite IH.
  - by rewrite !filter_cons_False by done.
Qed.

Lemma run_counts `{OsRename} (root_directory : Path)
    (files_csv folders_csv : list (pyobj * pyobj)) (dry_run : bool) (st : State) :
  wf_fs root_directory (fs st) →
  Forall usable_row files_csv → Forall usable_row folders_csv →
  returned (rename_items root_directory files_csv folders_csv dry_run st)
  = Some
      (length (filter (λ t : bool * Path, t.1 = false)
                 (targets (build_map files_csv) (build_map folders_csv)
                    (walk_budget (fs st)) (fs st) root_directory)),
       length (filter (λ t : bool * Path, t.1 = true)
                 (targets (build_map files_csv) (build_map folders_csv)
                    (walk_budget (fs st)) (fs st) root_directory))).
Proof.
  intros Hwf Hfiles Hfolders.
  destruct (rename_items_inv dry_run root_directory files_csv folders_csv
    (λ s, file_counter s = length (filter (λ e, ev_is_dir e = false) (trace s))
          ∧ folder_counter s = length (filter (λ e, ev_is_dir e = true) (trace s))
          ∧ error_log s = error_log st ++ omap failure_message (trace s)) st)
    as (st' & _ & _ & (Hfc & Hdc & _) & Hok); [| done | |].
  - intros ????????? Hh. by eapply handled_counted.
  - simpl. by rewrite app_nil_r.
  - destruct (run_targets root_directory files_csv folders_csv dry_run st
                Hwf Hfiles Hfolders) as (st2 & Hrun & Htargets).
    rewrite (Hok Hfiles Hfolders) in Hrun. injection Hrun as <-.
    rewrite (Hok Hfiles Hfolders). simpl.
    by rewrite Hfc, Hdc, !length_filter_entry, Htargets.
Qed.

(** X12.  The pair of counters [rename_items] returns is the number of
    files and the number of directories of the initial tree that match a
    mapping, read off before the run.  It is therefore the same in a dry run
    as in a live run, and the same whatever renames fail: the dry run
    announces exactly the counts the live run reports. *)
Theorem returned_counts_independent (os1 os2 : OsRename) (root_directory : Path)
    (files_csv folders_csv : list (pyobj * pyobj)) (dry1 dry2 : bool) (st : State) :
  wf_fs root_directory (fs st) →
  Forall usable_row files_csv → Forall usable_row folders_csv →
  is_Some (returned (@rename_items os1 root_directory files_csv folders_csv dry1 st))
  ∧ returned (@rename_items os1 root_directory files_csv folders_csv dry1 st)
    = returned (@rename_items os2 root_directory files_csv folders_csv dry2 st)
  ∧ returned (@rename_items os1 root_directory files_csv folders_csv dry1 st)
    = Some
        (length (filter (λ t : bool * Path, t.1 = false)
                   (targets (build_map files_csv) (build_map folders_csv)
                      (walk_budget (fs st)) (fs st) root_directory)),
         length (filter (λ t : bool * Path, t.1 = true)
                   (targets (build_map files_csv) (build_map folders_csv)
                      (walk_budget (fs st)) (fs st) root_directory))).
Proof.
  intros Hwf Hfiles Hfolders.
  rewrite (@run_counts os1), (@run_counts os2) by done. by split; [eexists|].
Qed.

Lemma returned_counts_independent_witness :
  returned (@rename_items always_ok ["r"] swap_csv [] true (module_loaded swap_disk))
  = returned (@rename_items denying ["r"] swap_csv [] false (module_loaded swap_disk)).
Proof.
  apply (returned_counts_independent always_ok denying ["r"] swap_csv [] true false
           (module_loaded swap_disk) wf_swap_disk).
  - repeat constructor; by vm_compute.
  - constructor.
Defined.

(** *** Entries that match no mapping *)

Lemma for_each_idle {A} (body : A → State → result) (l : list A) (st : State) :
  (∀ x, x ∈ l → body x st = Ok st ∨ body x st = Diverged) →
  for_each body l st = Ok st ∨ for_each body l st = Diverged.
Proof.
  induction l as [|x l IH]; intros Hbody; [by left|]. simpl.
  destruct (Hbody x) as [-> | ->]; [by left| |by right]. simpl.
  apply IH. intros y Hy. apply Hbody. by right.
Qed.

Lemma elem_of_scandir_kind disk top n :
  (n ∈ (scandir disk top).1 → Entry (top ++ [n]) true ∈ disk)
  ∧ (n ∈ (scandir disk top).2 → Entry (top ++ [n]) false ∈ disk).
Proof.
  unfold scandir. simpl. split.
  - intros ([p k] & -> & He)%list_elem_of_fmap.
    apply list_elem_of_filter in He as [Hk He]. simpl in Hk. subst k.
    apply list_elem_of_filter in He as [Hc%is_child_iff He]. simpl in *.
    by rewrite <- Hc.
  - intros ([p k] & -> & He)%list_elem_of_fmap.
    apply list_elem_of_filter in He as [Hk He]. simpl in Hk. subst k.
    apply list_elem_of_filter in He as [Hc%is_child_iff He]. simpl in *.
    by rewrite <- Hc.
Qed.

Lemma walk_idle `{OsRename} (dry_run : bool) (file_map folder_map : gmap string string)
    (base : Path) depth top st :
  wf_fs base (fs st) →
  (∀ e, e ∈ fs st →
     if e_is_dir e then folder_map !! name (e_path e) = None
     else file_map !! stem (e_path e) = None) →
  walk dry_run file_map folder_map depth top st = Ok st
  ∨ walk dry_run file_map folder_map depth top st = Diverged.
Proof.
  intros Hwf Hnone. revert top. induction depth as [|depth IH]; intros top; [by right|].
  rewrite walk_unfold.
  destruct (for_each_idle
              (λ dir_name, walk dry_run file_map folder_map depth (truediv top dir_name))
              (scandir (fs st) top).1 st) as [-> | ->]; [by intros| |by right].
  cbn [bind].
  destruct (for_each_idle (process_file dry_run file_map top)
              (scandir (fs st) top).2 st) as [-> | ->]; [| |by right].
  { intros n Hn. left. unfold process_file.
    destruct (scandir_valid base (fs st) top n Hwf (or_intror Hn)) as [Hv _].
    apply elem_of_scandir_kind in Hn. specialize (Hnone _ Hn). simpl in Hnone.
    by rewrite truediv_valid, Hnone by done. }
  cbn [bind]. apply for_each_idle. intros n Hn. left. unfold process_dir.
  apply elem_of_scandir_kind in Hn. specialize (Hnone _ Hn). simpl in Hnone.
  by rewrite name_snoc in Hnone; rewrite Hnone.
Qed.

(** X13.  When no file's stem is a key of the file mapping and no
    directory's name is a key of the folder mapping, a run does nothing: it
    returns normally with both counters at zero, and the filesystem, the
    reserved paths and the two logs are as they were. *)
Theorem run_without_matches `{OsRename} (root_directory : Path)
    (files_csv folders_csv : list (pyobj * pyobj)) (dry_run : bool) (st : State) :
  wf_fs root_directory (fs st) →
  (∀ e, e ∈ fs st →
     if e_is_dir e then build_map folders_csv !! name (e_path e) = None
     else build_map files_csv !! stem (e_path e) = None) →
  rename_items root_directory files_csv folders_csv dry_run st = Ok (enter st)
  ∧ returned (rename_items root_directory files_csv folders_csv dry_run st) = Some (0, 0).
Proof.
  intros Hwf Hnone.
  assert (Hrun : rename_items root_directory files_csv folders_csv dry_run st
                 = Ok (enter st)).
  { unfold rename_items.
    pose proof (walk_sound dry_run (build_map files_csv) (build_map folders_csv)
                  root_directory (walk_budget (fs st)) root_directory (enter st)) as Hs.
    destruct (walk_idle dry_run (build_map files_csv) (build_map folders_csv)
                root_directory (walk_budget (fs st)) root_directory (enter st))
      as [-> | Hdiv]; [done..|].
    rewrite Hdiv in Hs. simpl in Hs. destruct Hs; try done.
    - unfold walk_budget. lia.
    - apply bounded_walk_budget. }
  by rewrite Hrun.
Qed.

Lemma run_without_matches_witness :
  @rename_items always_ok ["r"] [(PyStr "zzz", PyStr "y")] [] false (module_loaded swap_disk)
  = Ok (enter (module_loaded swap_disk)).
Proof.
  apply (@run_without_matches always_ok ["r"] [(PyStr "zzz", PyStr "y")] [] false
           (module_loaded swap_disk) wf_swap_disk).
  intros e He. apply list_elem_of_In in He. simpl in He.
  destruct He as [<-|[<-|[]]]; by vm_compute.
Defined.

Lemma handled_keeps_entry `{OsRename} (dry_run is_dir : bool) (old new : Path)
    (out : outcome) (st st' : State) (disk : FS) :
  handled dry_run is_dir old new out st st' →
  (∀ e, e ∈ disk → e ∈ fs st ∨ vacated (trace st) (e_path e)) →
  (∀ e, e ∈ disk → e ∈ fs st' ∨ vacated (trace st') (e_path e)).
Proof.
  intros (_ & _ & _ & _ & _ & Htr & _ & _ & _ & Hout) HK e He. rewrite Htr.
  destruct (HK e He) as [Hin|Hvac]; [|right; by apply vacated_app].
  destruct out.
  - destruct Hout as (_ & -> & _). by left.
  - destruct Hout as (_ & _ & -> & _).
    destruct (decide (old `prefix_of` e_path e)) as [Hpre|Hpre].
    + right. exists (Event is_dir old new Renamed). split; [|done].
      apply elem_of_app. right. by left.
    + left. unfold fs_rename. apply list_elem_of_fmap. exists e.
      rewrite reprefix_other by done. by destruct e.
  - destruct Hout as (_ & _ & -> & _). by left.
Qed.

(** X14.  An entry is left where it is unless it, or a directory above it,
    matches a mapping: every entry of the initial tree whose path has no
    target as a prefix is, with the same path and kind, in the filesystem
    the run leaves. *)
Theorem unmatched_entries_stay `{OsRename} (root_directory : Path)
    (files_csv folders_csv : list (pyobj * pyobj)) (dry_run : bool) (st : State) :
  wf_fs root_directory (fs st) →
  Forall usable_row files_csv → Forall usable_row folders_csv →
  ∃ st', rename_items root_directory files_csv folders_csv dry_run st = Ok st'
    ∧ ∀ e, e ∈ fs st →
        (∀ t, t ∈ targets (build_map files_csv) (build_map folders_csv)
                    (walk_budget (fs st)) (fs st) root_directory →
              ¬ t.2 `prefix_of` e_path e) →
        e ∈ fs st'.
Proof.
  intros Hwf Hfiles Hfolders.
  destruct (run_targets root_directory files_csv folders_csv dry_run st
              Hwf Hfiles Hfolders) as (st' & Hrun & Htargets).
  exists st'. split; [done|].
  destruct (rename_items_inv dry_run root_directory files_csv folders_csv
    (λ s, ∀ e, e ∈ fs st → e ∈ fs s ∨ vacated (trace s) (e_path e)) st)
    as (st2 & Hfin & _ & HK & _); [| done | |].
  - intros ????????? Hh. by eapply handled_keeps_entry.
  - intros e He. by left.
  - rewrite Hrun in Hfin. injection Hfin as <-.
    intros e He Hno. destruct (HK e He) as [Hin|(ev & Hev & _ & Hpre)]; [done|].
    destruct (Hno (ev_entry ev)); [|done].
    rewrite <- Htargets. by apply list_elem_of_fmap_2.
Qed.

Lemma unmatched_entries_stay_witness :
  ∃ st', @rename_items always_ok ["r"] [(PyStr "a", PyStr "z")] [] false
           (module_loaded swap_disk) = Ok st'
    ∧ Entry ["r"; "b.txt"] false ∈ fs st'.
Proof.
  destruct (@unmatched_entries_stay always_ok ["r"] [(PyStr "a", PyStr "z")] [] false
              (module_loaded swap_disk) wf_swap_disk) as (st' & Hrun & Hstay).
  - repeat constructor; by vm_compute.
  - constructor.
  - exists st'. split; [done|]. apply Hstay.
    + apply list_elem_of_In. simpl. auto.
    + intros t Ht. apply list_elem_of_In in Ht. vm_compute in Ht.
      destruct Ht as [<-|[]]. by apply (bool_decide_unpack _).
Defined.

(** *** Sources and destinations at the time of a rename *)

Lemma replay_app tr1 tr2 disk : replay (tr1 ++ tr2) disk = replay tr2 (replay tr1 disk).
Proof. unfold replay. by rewrite foldl_app. Qed.

Lemma sourced_nil disk : sourced disk [].
Proof. by intros j e ?. Qed.

Lemma sourced_app disk evs1 evs2 :
  sourced disk evs1 → sourced (replay evs1 disk) evs2 → sourced disk (evs1 ++ evs2).
Proof.
  intros H1 H2 j e Hj. destruct (decide (j < length evs1)) as [Hlt|Hge].
  - rewrite lookup_app_l in Hj by done. rewrite take_app_le by lia. by apply H1.
  - rewrite lookup_app_r in Hj by lia.
    replace j with (length evs1 + (j - length evs1)) at 1 2 by lia.
    rewrite take_app_add, replay_app. by apply H2.
Qed.

Lemma handled_keeps_path `{OsRename} (dry_run is_dir : bool) (old new : Path)
    (out : outcome) (st st' : State) (p : Path) :
  handled dry_run is_dir old new out st st' →
  ¬ old `prefix_of` p → p ∈ paths (fs st) → p ∈ paths (fs st').
Proof.
  intros (_ & _ & _ & _ & _ & _ & _ & _ & _ & Hout) Hpre Hp. destruct out.
  - by destruct Hout as (_ & -> & _).
  - destruct Hout as (_ & _ & -> & _). rewrite paths_fs_rename.
    apply list_elem_of_fmap. exists p. by rewrite reprefix_other.
  - by destruct Hout as (_ & _ & -> & _).
Qed.

Lemma handled_replay_one `{OsRename} (dry_run is_dir : bool) (old new : Path)
    (out : outcome) (st st' : State) :
  handled dry_run is_dir old new out st st' →
  fs st' = replay [Event is_dir old new out] (fs st).
Proof.
  intros (_ & _ & _ & _ & _ & _ & _ & _ & _ & Hout). unfold replay. simpl.
  destruct out.
  - by destruct Hout as (_ & -> & _).
  - by destruct Hout as (_ & _ & -> & _).
  - by destruct Hout as (_ & _ & -> & _).
Qed.

(** A walk at [top] keeps every entry that is not below [top]. *)
Lemma walk_keeps `{OsRename} (dry_run : bool) (file_map folder_map : gmap string string)
    (base : Path) depth top st (p : Path) :
  base `prefix_of` top → 1 ≤ depth →
  wf_fs base (fs st) → bounded (depth + length top) (fs st) →
  ¬ below top p → p ∈ paths (fs st) →
  ends (λ s, p ∈ paths (fs s)) (λ s, p ∈ paths (fs s))
       (walk dry_run file_map folder_map depth top st).
Proof.
  intros Hbase Hd Hwf Hb Hp Hin.
  set (R := λ s s' : State, p ∈ paths (fs s) → p ∈ paths (fs s')).
  assert (HP : PreOrder R).
  { split; [by intros ??|]. intros x y z Hxy Hyz ?. by apply Hyz, Hxy. }
  eapply ends_mono; [| |
    apply (walk_rel dry_run file_map folder_map base R top)]; try done.
  - intros s (_ & _ & HR). by apply HR.
  - intros s (_ & _ & _ & HR). by apply HR.
  - intros is_dir d o new out s s' _ Htop _ _ Hh Hps.
    eapply handled_keeps_path; [done| |done].
    intros Hpre. apply Hp. split; [by etrans; [|apply Hpre]; apply prefix_app_r|].
    intros ->. apply prefix_length in Htop, Hpre.
    rewrite length_app in Hpre. simpl in Hpre. lia.
Qed.

Lemma scandir_disjoint disk top n :
  NoDup (paths disk) → n ∈ (scandir disk top).1 → n ∈ (scandir disk top).2 → False.
Proof.
  intros Hnd H1%elem_of_scandir_kind H2%elem_of_scandir_kind.
  by pose proof (NoDup_fmap_inj_on e_path disk _ _ Hnd H1 H2 eq_refl).
Qed.

Lemma snoc_not_prefix (top : Path) n n' : n ≠ n' → ¬ top ++ [n] `prefix_of` top ++ [n'].
Proof.
  intros Hne Hpre. apply Hne.
  assert (Heq : top ++ [n] = top ++ [n']).
  { apply (prefix_same_length _ _ (top ++ [n'])); [done..|]. by rewrite !length_app. }
  apply app_inv_head in Heq. by injection Heq.
Qed.

Section sources.
Context `{OsRename} (dry_run : bool) (file_map folder_map : gmap string string).
Context (base : Path).

Local Abbreviation sound N := (λ s, wf_fs base (fs s) ∧ bounded N (fs s)).
Local Abbreviation traced st0 :=
  (λ s, ∃ evs, trace s = trace st0 ++ evs
               ∧ fs s = replay evs (fs st0) ∧ sourced (fs st0) evs).

Lemma traced_trans st0 st1 s : traced st0 st1 → traced st1 s → traced st0 s.
Proof.
  intros (evs1 & Htr1 & Hfs1 & Hs1) (evs2 & Htr2 & Hfs2 & Hs2).
  exists (evs1 ++ evs2). rewrite Htr2, Htr1, <- app_assoc. split; [done|].
  rewrite replay_app, <- Hfs1. split; [done|].
  apply sourced_app; [done|]. by rewrite <- Hfs1.
Qed.

Lemma leaf_loop_sources is_dir (names : list string) (others : list string)
    (map_ : gmap string string)
    (key : string → string) (new_name : string → string → string) top st0 st N :
  base `prefix_of` top → (∀ n, n ∈ names → valid_name n) →
  NoDup names → (∀ n, n ∈ names → n ∉ others) →
  sound N st → traced st0 st →
  (∀ n, n ∈ names ∨ n ∈ others → top ++ [n] ∈ paths (fs st)) →
  ends (λ s, sound N s ∧ traced st0 s
             ∧ ∀ n, n ∈ others → top ++ [n] ∈ paths (fs s))
       (traced st0)
       (for_each (λ n s,
          match map_ !! key n with
          | Some v => rename_to dry_run is_dir (truediv top n) (new_name v n) s
          | None => Ok s
          end) names st).
Proof.
  intros Hbase Hv Hnd Hdisj Hsound Htraced Hin.
  eapply ends_mono; [| |
    apply (for_each_rule _ (λ done s, sound N s ∧ traced st0 s
             ∧ ∀ n, (n ∈ names ∧ n ∉ done) ∨ n ∈ others → top ++ [n] ∈ paths (fs s))
             (traced st0))].
  { intros s (? & ? & Hrest). split; [done|]. split; [done|].
    intros n Hn. apply Hrest. by right. }
  { done. }
  { split; [done|]. split; [done|]. intros n [[Hn _]|Hn]; apply Hin; auto. }
  intros done n rest s Hl ([Hwf Hb] & Htr & Hpend).
  assert (Hn : n ∈ names) by (rewrite Hl; apply elem_of_app; right; by left).
  assert (Hfresh : n ∉ done).
  { rewrite Hl in Hnd. apply NoDup_app in Hnd as (_ & Hnd & _).
    intros Hd. apply (Hnd n Hd). by left. }
  assert (Hnext : ∀ s',
            (∀ n', n' ≠ n → top ++ [n'] ∈ paths (fs s) → top ++ [n'] ∈ paths (fs s')) →
            ∀ n', (n' ∈ names ∧ n' ∉ done ++ [n]) ∨ n' ∈ others →
                  top ++ [n'] ∈ paths (fs s')).
  { intros s' Hkeep n' Hn'. apply Hkeep.
    - destruct Hn' as [[_ Hnot]|Ho].
      + intros ->. apply Hnot. apply elem_of_app. right. by left.
      + intros ->. by apply (Hdisj n).
    - apply Hpend. destruct Hn' as [[? Hnot]|?]; [left|by right].
      split; [done|]. intros Hd. apply Hnot. apply elem_of_app. by left. }
  destruct (map_ !! key n) as [v|]; simpl.
  2:{ split; [done|]. split; [done|]. by apply Hnext. }
  rewrite truediv_valid by by apply Hv.
  pose proof (rename_to_inv dry_run is_dir (top ++ [n]) (new_name v n) s) as Hinv.
  destruct (rename_to _ _ _ _ _) as [s'|e s'|]; simpl; [| |done].
  - destruct Hinv as (new & out & Hh). split; [by eapply handled_fs|].
    split.
    + eapply traced_trans; [done|].
      pose proof Hh as (Hfree & _ & _ & _ & _ & Htr' & _).
      exists [Event is_dir (top ++ [n]) new out]. split; [done|]. split.
      * by apply (handled_replay_one _ _ _ _ _ _ _ Hh).
      * intros j e Hj. destruct j as [|j]; [|done]. injection Hj as <-. simpl.
        apply is_free_spec in Hfree as (Hnew & _). split; [|done].
        apply Hpend. left. done.
    + apply Hnext. intros n' Hne Hin'.
      eapply handled_keeps_path; [done| |done]. by apply snoc_not_prefix.
  - destruct Hinv as [-> _]. done.
Qed.
End sources.

Section sources_walk.
Context `{OsRename} (dry_run : bool) (file_map folder_map : gmap string string).
Context (base : Path).

Local Abbreviation sound N := (λ s, wf_fs base (fs s) ∧ bounded N (fs s)).
Local Abbreviation traced st0 :=
  (λ s, ∃ evs, trace s = trace st0 ++ evs
               ∧ fs s = replay evs (fs st0) ∧ sourced (fs st0) evs).

Lemma traced_refl st : traced st st.
Proof. exists []. rewrite app_nil_r. split; [done|]. split; [done|]. apply sourced_nil. Qed.

Lemma walk_sources depth top st :
  base `prefix_of` top → 1 ≤ depth →
  wf_fs base (fs st) → bounded (depth + length top) (fs st) →
  ends (traced st) (traced st) (walk dry_run file_map folder_map depth top st).
Proof.
  revert top st. induction depth as [|depth IH]; intros top st Hbase Hd Hwf Hb;
    [lia|].
  rewrite walk_unfold.
  set (dirs := (scandir (fs st) top).1). set (files := (scandir (fs st) top).2).
  set (N := S depth + length top).
  assert (Hnames : ∀ n, n ∈ dirs ∨ n ∈ files →
            valid_name n ∧ top ++ [n] ∈ paths (fs st)).
  { intros n Hn. by apply (scandir_valid base (fs st) top). }
  destruct (scandir_NoDup (fs st) top) as [Hnd_dirs Hnd_files]; [apply Hwf|].
  assert (Hdisj : ∀ n, n ∈ files → n ∉ dirs).
  { intros n Hf Hdn. eapply scandir_disjoint; [apply Hwf|exact Hdn|exact Hf]. }
  eapply (ends_bind _ (λ s, sound N s ∧ traced st s
                            ∧ ∀ n, n ∈ dirs → top ++ [n] ∈ paths (fs s)));
    [eapply (ends_bind _ (λ s, sound N s ∧ traced st s
               ∧ ∀ n, n ∈ files ∨ n ∈ dirs → top ++ [n] ∈ paths (fs s)))|].
  - apply (for_each_rule _ (λ _ s, sound N s ∧ traced st s
             ∧ ∀ n, n ∈ files ∨ n ∈ dirs → top ++ [n] ∈ paths (fs s))).
    { split; [done|]. split; [apply traced_refl|].
      intros n [?|?]; apply Hnames; auto. }
    intros done dn rest s Hl ([Hwfs Hbs] & Htr & Hin).
    assert (Hdn : dn ∈ dirs) by (rewrite Hl; apply elem_of_app; right; by left).
    destruct (Hnames dn (or_introl Hdn)) as [Hvalid Hdnin].
    assert (HN : depth + length (top ++ [dn]) = N).
    { rewrite length_app. simpl. unfold N. lia. }
    assert (Hdepth : 1 ≤ depth).
    { apply Hb in Hdnin. rewrite length_app in Hdnin. simpl in Hdnin. lia. }
    assert (Hbase' : base `prefix_of` top ++ [dn]) by by apply prefix_app_r.
    rewrite <- HN in Hbs. rewrite truediv_valid by done.
    pose proof (IH (top ++ [dn]) s Hbase' Hdepth Hwfs Hbs) as Hsrc.
    pose proof (walk_sound dry_run file_map folder_map base depth (top ++ [dn]) s
                  Hbase' Hdepth Hwfs Hbs) as Hgood.
    assert (Hkeep : ∀ n, n ∈ files ∨ n ∈ dirs →
              ends (λ s', top ++ [n] ∈ paths (fs s')) (λ s', top ++ [n] ∈ paths (fs s'))
                   (walk dry_run file_map folder_map depth (top ++ [dn]) s)).
    { intros n Hn. apply (walk_keeps dry_run file_map folder_map base); try done.
      - intros Hbelow%below_length. rewrite !length_app in Hbelow. simpl in Hbelow. lia.
      - by apply Hin. }
    rewrite HN in Hgood.
    destruct (walk _ _ _ _ _ _) as [s'|e s'|]; simpl in *; [| |done].
    + split; [done|]. split; [by eapply traced_trans|]. intros n Hn. by apply Hkeep.
    + by eapply traced_trans.
  - intros s1 (Hsound1 & Htr1 & Hin1).
    apply (leaf_loop_sources dry_run base false files dirs file_map
             (λ n, stem (truediv top n)) (λ v n, v +:+ suffix (truediv top n))
             top st s1 N); try done.
    intros n Hn. by apply Hnames; right.
  - intros s2 (Hsound2 & Htr2 & Hin2).
    eapply ends_mono; [| |
      apply (leaf_loop_sources dry_run base true dirs [] folder_map
               (λ n, n) (λ v _, v) top st s2 N)]; try done.
    + by intros s (_ & ? & _).
    + intros n Hn. by apply Hnames; left.
    + intros n _. apply not_elem_of_nil.
    + intros n [Hn|Hn%elem_of_nil]; [by apply Hin2|done].
Qed.
End sources_walk.

(** X15.  Whenever a run handles an entry, on the filesystem as the renames
    before it have left it, the entry's old path exists and the destination
    chosen for it does not: the run never asks to rename something its own
    earlier renames moved away, and never onto an existing entry. *)
Theorem run_sources_exist `{OsRename} (root_directory : Path)
    (files_csv folders_csv : list (pyobj * pyobj)) (dry_run : bool) (st : State) :
  wf_fs root_directory (fs st) →
  ∃ st', final (rename_items root_directory files_csv folders_csv dry_run st) = Some st'
    ∧ ∀ i e, trace st' !! i = Some e →
        ev_old e ∈ paths (replay (take i (trace st')) (fs st))
        ∧ ev_new e ∉ paths (replay (take i (trace st')) (fs st)).
Proof.
  intros Hwf.
  assert (Hsrc : ends (λ s, sourced (fs st) (trace s)) (λ s, sourced (fs st) (trace s))
                      (rename_items root_directory files_csv folders_csv dry_run st)).
  { unfold rename_items. eapply ends_mono; [| |
      apply (walk_sources dry_run _ _ root_directory)]; try done.
    - by intros s (evs & -> & _ & Hs).
    - by intros s (evs & -> & _ & Hs).
    - unfold walk_budget. lia.
    - apply bounded_walk_budget. }
  destruct (rename_items _ _ _ _ _) as [st'|e st'|]; simpl in *; [| |done];
    by exists st'.
Qed.

Lemma run_sources_exist_witness :
  ∃ st', final (@rename_items always_ok ["r"] swap_csv [] false (module_loaded swap_disk))
         = Some st'
    ∧ ∀ i e, trace st' !! i = Some e →
        ev_old e ∈ paths (replay (take i (trace st')) swap_disk)
        ∧ ev_new e ∉ paths (replay (take i (trace st')) swap_disk).
Proof.
  apply (@run_sources_exist always_ok ["r"] swap_csv [] false
           (module_loaded swap_disk) wf_swap_disk).
Defined.

(** *** The names a run gives *)

Lemma attempt_conflict_log `{OsRename} (dry_run is_dir : bool) (old new : Path)
    (st st' : State) :
  attempt dry_run is_dir old new st = Ok st' → conflict_log st' = conflict_log st.
Proof.
  unfold attempt. destruct dry_run; [by intros [= <-]|].
  destruct (os_error _ _ _); by intros [= <-].
Qed.

Lemma rename_to_Ok `{OsRename} (dry_run is_dir : bool) (old : Path) (n : string)
    (st st' : State) :
  rename_to dry_run is_dir old n st = Ok st' →
  ∃ new out, handled dry_run is_dir old new out st st' ∧ valid_name n
             ∧ named_after n (Event is_dir old new out)
             ∧ conflict_log st'
               = conflict_log st
                 ++ (if decide (new = parent old ++ [n]) then []
                     else [conflict_message old (name new)]).
Proof.
  unfold rename_to. destruct (with_name old n) as [desired|] eqn:Hwn; [|done].
  apply with_name_Some in Hwn as (Hold & Hn & ->).
  destruct (get_unique_path old (parent old ++ [n]) st) as [[p st1]|] eqn:Hg; [|done].
  intros Hat.
  assert (Hsep : contains "/" (name (parent old ++ [n])) = false).
  { rewrite name_snoc. apply Hn. }
  pose proof (get_unique_path_inv _ _ _ _ _ Hg)
    as (Hfree & Hres & Hfs & Herr & Hfc & Hdc & Htr & Hcase).
  assert (Hshape : (p = parent old ++ [n]
                    ∨ ∃ k, 1 ≤ k ∧ p = candidate (parent old ++ [n]) k)
                   ∧ parent p = parent old ∧ valid_name (name p)
                   ∧ conflict_log st1
                     = conflict_log st
                       ++ (if decide (p = parent old ++ [n]) then []
                           else [conflict_message old (name p)])).
  { destruct Hcase as [[-> Hcl]|(k & Hk & -> & Htaken & _ & Hcl)].
    - rewrite parent_snoc, name_snoc. split; [by left|]. split; [done|].
      split; [done|]. by rewrite decide_True, app_nil_r.
    - split; [right; by exists k|].
      rewrite decide_False by (intros Heq; rewrite Heq in Hfree; congruence).
      rewrite candidate_snoc, !parent_snoc, name_snoc by done.
      split; [done|]. split; [|done].
      split; [by apply candidate_name_not_special|].
      split; [by apply candidate_name_not_special|].
      by apply candidate_name_no_sep. }
  destruct Hshape as (Hnamed & Hpar & Hval & Hcl).
  destruct (attempt_handled dry_run is_dir old p st st1) as (out & st2 & Hat' & Hh);
    try done; [by eexists|].
  rewrite Hat in Hat'. injection Hat' as <-. exists p, out.
  by rewrite (attempt_conflict_log _ _ _ _ _ _ Hat).
Qed.

Section named.
Context `{OsRename} (dry_run : bool) (file_map folder_map : gmap string string).
Context (base : Path).
Variable R : State → State → Prop.
Context `{!PreOrder R}.
Hypothesis R_step : ∀ is_dir (d : Path) o n new out st st',
  base `prefix_of` d → valid_name o → wf_fs base (fs st) →
  mapped_name file_map folder_map is_dir (d ++ [o]) n → valid_name n →
  handled dry_run is_dir (d ++ [o]) new out st st' →
  named_after n (Event is_dir (d ++ [o]) new out) →
  conflict_log st'
  = conflict_log st
    ++ (if decide (new = parent (d ++ [o]) ++ [n]) then []
        else [conflict_message (d ++ [o]) (name new)]) →
  R st st'.

Local Abbreviation good N st0 :=
  (λ st', wf_fs base (fs st') ∧ bounded N (fs st') ∧ R st0 st').

Lemma good_named_trans N st0 st1 r :
  R st0 st1 → ends (good N st1) (good N st1) r → ends (good N st0) (good N st0) r.
Proof.
  intros HR. apply ends_mono; intros st (Hw & Hb & HR');
    (split; [done|]; split; [done|]; by etrans).
Qed.

Lemma rename_to_named is_dir (d : Path) o n st N :
  base `prefix_of` d → valid_name o →
  mapped_name file_map folder_map is_dir (d ++ [o]) n →
  wf_fs base (fs st) → bounded N (fs st) →
  ends (good N st) (good N st) (rename_to dry_run is_dir (d ++ [o]) n st).
Proof.
  intros Hbase Ho Hmap Hwf Hb.
  pose proof (rename_to_inv dry_run is_dir (d ++ [o]) n st) as Hinv.
  destruct (rename_to _ _ _ _ _) as [st'|e st'|] eqn:Hrun; simpl; [| |done].
  - apply rename_to_Ok in Hrun as (new & out & Hh & Hn & Hnamed & Hcl).
    destruct (handled_fs dry_run base is_dir d o new out st st' N Hbase Hwf Hb Hh).
    eauto 10.
  - destruct Hinv as [-> _]. done.
Qed.

Lemma walk_named depth top st :
  base `prefix_of` top → 1 ≤ depth →
  wf_fs base (fs st) → bounded (depth + length top) (fs st) →
  ends (good (depth + length top) st) (good (depth + length top) st)
       (walk dry_run file_map folder_map depth top st).
Proof.
  revert top st.
  induction depth as [|depth IH]; intros top st Hbase Hd Hwf Hb; [lia|].
  rewrite walk_unfold.
  set (dirs := (scandir (fs st) top).1). set (files := (scandir (fs st) top).2).
  set (N := S depth + length top).
  assert (Hnames : ∀ n, n ∈ dirs ∨ n ∈ files →
            valid_name n ∧ top ++ [n] ∈ paths (fs st)).
  { intros n Hn. by apply (scandir_valid base (fs st) top). }
  assert (Hloop : ∀ is_dir (names : list string) (map_ : gmap string string)
            (key : string → string)
            (new_name : string → string → string) st1,
            (∀ n, n ∈ names → valid_name n) →
            (∀ n v, valid_name n → map_ !! key n = Some v →
               mapped_name file_map folder_map is_dir (top ++ [n]) (new_name v n)) →
            wf_fs base (fs st1) → bounded N (fs st1) →
            ends (good N st1) (good N st1)
              (for_each (λ n s,
                 match map_ !! key n with
                 | Some v => rename_to dry_run is_dir (truediv top n) (new_name v n) s
                 | None => Ok s
                 end) names st1)).
  { intros is_dir names map_ key new_name st1 Hv Hnew Hwf1 Hb1.
    apply (for_each_rule _ (λ _, good N st1)); [done|].
    intros done n rest s Hl (Hwfs & Hbs & HR).
    assert (Hn : valid_name n).
    { apply Hv. rewrite Hl. apply elem_of_app. right. by left. }
    destruct (map_ !! key n) as [v|] eqn:Hlook; [|done].
    rewrite truediv_valid by done.
    eapply good_named_trans; [done|]. apply rename_to_named; try done.
    by apply Hnew. }
  eapply ends_bind; [eapply ends_bind|].
  - apply (for_each_rule _ (λ _, good N st)); [done|].
    intros done dn rest s Hl (Hwfs & Hbs & HR).
    assert (Hdn : dn ∈ dirs) by (rewrite Hl; apply elem_of_app; right; by left).
    destruct (Hnames dn (or_introl Hdn)) as [Hv Hin].
    rewrite truediv_valid by done.
    assert (HN : depth + length (top ++ [dn]) = N).
    { rewrite length_app. simpl. unfold N. lia. }
    eapply good_named_trans; [done|]. rewrite <- HN. apply IH; rewrite ?HN; try done.
    + by apply prefix_app_r.
    + apply Hb in Hin. rewrite length_app in Hin. simpl in Hin. lia.
  - intros st1 (Hwf1 & Hb1 & HR1). eapply good_named_trans; [done|].
    apply (Hloop false files file_map (λ n, stem (truediv top n))
             (λ v n, v +:+ suffix (truediv top n))); try done.
    + intros n Hn. by apply Hnames; right.
    + intros n v Hn Hlook. rewrite truediv_valid in * by done. by exists v.
  - intros st2 (Hwf2 & Hb2 & HR2). eapply good_named_trans; [done|].
    apply (Hloop true dirs folder_map (λ n, n) (λ v _, v)); try done.
    + intros n Hn. by apply Hnames; left.
    + intros n v Hn Hlook. unfold mapped_name. by rewrite name_snoc.
Qed.
End named.

Lemma run_named `{OsRename} (root_directory : Path)
    (files_csv folders_csv : list (pyobj * pyobj)) (dry_run : bool) (st : State) :
  wf_fs root_directory (fs st) →
  ∃ st', final (rename_items root_directory files_csv folders_csv dry_run st) = Some st'
    ∧ Forall (λ e, ∃ n,
                mapped_name (build_map files_csv) (build_map folders_csv)
                  (ev_is_dir e) (ev_old e) n
                ∧ valid_name n ∧ valid_name (name (ev_old e)) ∧ named_after n e)
             (trace st').
Proof.
  intros Hwf.
  set (I := λ s : State,
         Forall (λ e, ∃ n,
                   mapped_name (build_map files_csv) (build_map folders_csv)
                     (ev_is_dir e) (ev_old e) n
                   ∧ valid_name n ∧ valid_name (name (ev_old e)) ∧ named_after n e)
                (trace s)).
  assert (HP : PreOrder (λ s s' : State, I s → I s')).
  { split; [by intros ?|]. intros x y z Hxy Hyz ?. eauto. }
  assert (Hstep : ∀ is_dir (d : Path) o n new out s s',
            root_directory `prefix_of` d → valid_name o → wf_fs root_directory (fs s) →
            mapped_name (build_map files_csv) (build_map folders_csv) is_dir (d ++ [o]) n →
            valid_name n →
            handled dry_run is_dir (d ++ [o]) new out s s' →
            named_after n (Event is_dir (d ++ [o]) new out) →
            conflict_log s'
            = conflict_log s
              ++ (if decide (new = parent (d ++ [o]) ++ [n]) then []
                  else [conflict_message (d ++ [o]) (name new)]) →
            I s → I s').
  { intros is_dir d o n new out s s' _ Ho _ Hmap Hn Hh Hnamed _ HI'.
    pose proof Hh as (_ & _ & _ & _ & _ & Htr & _).
    unfold I. rewrite Htr. apply Forall_app. split; [done|].
    apply Forall_singleton. exists n. simpl. by rewrite name_snoc. }
  assert (Hdepth : 1 ≤ walk_budget (fs st)) by (unfold walk_budget; lia).
  pose proof (walk_named dry_run (build_map files_csv) (build_map folders_csv)
                root_directory (λ s s', I s → I s') Hstep
                (walk_budget (fs st)) root_directory (enter st)
                (reflexivity _) Hdepth Hwf (bounded_walk_budget _ _)) as Hwalk.
  unfold rename_items.
  destruct (walk _ _ _ _ _ _) as [st'|e st'|]; simpl in Hwalk; [| |done].
  - exists st'. split; [done|]. destruct Hwalk as (_ & _ & HI). apply HI. constructor.
  - exists st'. split; [done|]. destruct Hwalk as (_ & _ & HI). apply HI. constructor.
Qed.

Lemma stem_suffix_snoc (q : Path) n : stem (q ++ [n]) = stem [n] ∧ suffix (q ++ [n]) = suffix [n].
Proof. unfold stem, suffix. by rewrite name_snoc. Qed.

(** X16.  The destination of every handled entry is, in the entry's own
    directory, the name lines 81 and 100 compute for it (the mapped stem
    followed by the old extension for a file, the mapped name for a
    directory), or that name with an underscore and a counter from 1 on
    inserted before its suffix. *)
Theorem run_destination_names `{OsRename} (root_directory : Path)
    (files_csv folders_csv : list (pyobj * pyobj)) (dry_run : bool) (st : State) :
  wf_fs root_directory (fs st) →
  ∃ st', final (rename_items root_directory files_csv folders_csv dry_run st) = Some st'
    ∧ ∀ e, e ∈ trace st' →
        ∃ n, mapped_name (build_map files_csv) (build_map folders_csv)
               (ev_is_dir e) (ev_old e) n
             ∧ (ev_new e = parent (ev_old e) ++ [n]
                ∨ ∃ k, 1 ≤ k
                       ∧ ev_new e
                         = parent (ev_old e)
                             ++ [stem [n] +:+ "_" +:+ str_nat k +:+ suffix [n]]).
Proof.
  intros Hwf.
  destruct (run_named root_directory files_csv folders_csv dry_run st Hwf)
    as (st' & Hfin & Hall).
  exists st'. split; [done|]. rewrite Forall_forall in Hall. intros e He.
  destruct (Hall e He) as (n & Hmap & Hn & _ & Hnamed). exists n.
  split; [done|]. destruct Hnamed as [?|(k & Hk & Hnew)]; [by left|right].
  exists k. split; [done|]. rewrite Hnew, candidate_snoc, parent_snoc.
  - unfold candidate_name. by destruct (stem_suffix_snoc (parent (ev_old e)) n) as [-> ->].
  - rewrite name_snoc. apply Hn.
Qed.

Lemma run_destination_names_witness :
  ∃ st', final (@rename_items always_ok ["r"] swap_csv [] true (module_loaded swap_disk))
         = Some st'
    ∧ ∀ e, e ∈ trace st' →
        ∃ n, mapped_name (build_map swap_csv) (build_map []) (ev_is_dir e) (ev_old e) n
             ∧ (ev_new e = parent (ev_old e) ++ [n]
                ∨ ∃ k, 1 ≤ k
                       ∧ ev_new e
                         = parent (ev_old e)
                             ++ [stem [n] +:+ "_" +:+ str_nat k +:+ suffix [n]]).
Proof.
  apply (@run_destination_names always_ok ["r"] swap_csv [] true
           (module_loaded swap_disk) wf_swap_disk).
Defined.

Lemma suffix_with_extension (q old : Path) v :
  v ≠ "" → suffix old ≠ "" → suffix (q ++ [v +:+ suffix old]) = suffix old.
Proof.
  intros Hv Hext. unfold suffix in *. rewrite name_snoc.
  destruct (suffix_index (name old)) as [i|] eqn:Hi; [|done].
  pose proof (suffix_index_Some _ _ Hi) as (Hr & H0 & Hlen).
  set (ext := str_drop i (name old)).
  assert (Hx : rfind "." ext = Some 0) by by apply rfind_drop.
  assert (Hxlen : 2 ≤ String.length ext).
  { unfold ext. rewrite str_drop_length. lia. }
  unfold suffix_index. rewrite rfind_app, Hx, Nat.add_0_r.
  rewrite decide_True.
  - apply str_drop_app_length.
  - rewrite length_app_str. destruct v; [done|]. simpl. lia.
Qed.

Lemma build_map_values_nonempty rows k v :
  Forall (λ row : pyobj * pyobj, py_str row.2 ≠ "") rows →
  build_map rows !! k = Some v → v ≠ "".
Proof.
  intros Hrows (row & Hrow & ->)%build_map_values Hempty.
  rewrite Forall_forall in Hrows. apply (Hrows row Hrow).
  apply (f_equal String.length) in Hempty. unfold sanitize_filename in Hempty.
  rewrite re_sub_class_length in Hempty. by destruct (py_str row.2).
Qed.

(** X17.  A renamed file keeps its extension: when no new name in the file
    table is empty, the destination of every handled file that has a suffix
    has the same suffix, also after deconfliction. *)
Theorem run_keeps_extensions `{OsRename} (root_directory : Path)
    (files_csv folders_csv : list (pyobj * pyobj)) (dry_run : bool) (st : State) :
  wf_fs root_directory (fs st) →
  Forall (λ row : pyobj * pyobj, py_str row.2 ≠ "") files_csv →
  ∃ st', final (rename_items root_directory files_csv folders_csv dry_run st) = Some st'
    ∧ ∀ e, e ∈ trace st' → ev_is_dir e = false → suffix (ev_old e) ≠ "" →
        suffix (ev_new e) = suffix (ev_old e).
Proof.
  intros Hwf Hrows.
  destruct (run_named root_directory files_csv folders_csv dry_run st Hwf)
    as (st' & Hfin & Hall).
  exists st'. split; [done|]. rewrite Forall_forall in Hall. intros e He Hfile Hext.
  destruct (Hall e He) as (n & Hmap & Hn & _ & Hnamed). rewrite Hfile in Hmap.
  destruct Hmap as (v & Hv & ->).
  apply (build_map_values_nonempty _ _ _ Hrows) in Hv.
  pose proof (suffix_with_extension (parent (ev_old e)) (ev_old e) v Hv Hext) as Hdesired.
  destruct Hnamed as [->|(k & _ & ->)]; [done|].
  destruct (candidate_suffix_stem (parent (ev_old e) ++ [v +:+ suffix (ev_old e)]) k)
    as [Hs _].
  - rewrite name_snoc. apply Hn.
  - by rewrite Hdesired.
  - by rewrite Hs.
Qed.

Lemma run_keeps_extensions_witness :
  ∃ st', final (@rename_items always_ok ["r"] swap_csv [] false (module_loaded swap_disk))
         = Some st'
    ∧ ∀ e, e ∈ trace st' → ev_is_dir e = false → suffix (ev_old e) ≠ "" →
        suffix (ev_new e) = suffix (ev_old e).
Proof.
  apply (@run_keeps_extensions always_ok ["r"] swap_csv [] false
           (module_loaded swap_disk) wf_swap_disk).
  repeat constructor; by vm_compute.
Defined.

(** ** The entries a run handles *)

Lemma elem_of_concat {A} (ls : list (list A)) x :
  x ∈ concat ls ↔ ∃ l, l ∈ ls ∧ x ∈ l.
Proof.
  induction ls as [|l ls IH]; simpl.
  - split; [by intros ?%elem_of_nil|]. by intros (? & ?%elem_of_nil & _).
  - rewrite elem_of_app, IH. split.
    + intros [?|(l' & ? & ?)]; [exists l|exists l']; split; try done;
        [by left|by right].
    + intros (l' & [->|?]%elem_of_cons & ?); [by left|right; by exists l'].
Qed.

Lemma NoDup_concat_fmap {A B} (f : A → list B) (l : list A) :
  NoDup l → (∀ a, a ∈ l → NoDup (f a)) →
  (∀ a a' x, a ∈ l → a' ∈ l → x ∈ f a → x ∈ f a' → a = a') →
  NoDup (concat (f <$> l)).
Proof.
  induction 1 as [|a l Ha Hnd IH]; intros Heach Hsep; simpl; [constructor|].
  apply NoDup_app. split; [apply Heach; by left|]. split.
  - intros x Hx (l' & (a' & -> & Ha')%list_elem_of_fmap & Hx')%elem_of_concat.
    apply Ha. rewrite (Hsep a a' x); try done; [by left|by right].
  - apply IH.
    + intros a' ?. apply Heach. by right.
    + intros a1 a2 x ? ?. apply Hsep; by right.
Qed.

Lemma scandir_kind_iff disk top n b :
  n ∈ (if b : bool then (scandir disk top).1 else (scandir disk top).2)
  ↔ Entry (top ++ [n]) b ∈ disk.
Proof.
  split.
  - destruct (elem_of_scandir_kind disk top n) as [H1 H2]. by destruct b; auto.
  - intros He.
    assert (Hc : is_child top (Entry (top ++ [n]) b)).
    { apply is_child_iff. simpl. by rewrite name_snoc. }
    unfold scandir. destruct b; simpl; apply list_elem_of_fmap;
      [exists (Entry (top ++ [n]) true)|exists (Entry (top ++ [n]) false)];
      simpl; rewrite name_snoc; (split; [done|]);
      by rewrite !list_elem_of_filter.
Qed.

Lemma targets_spec (file_map folder_map : gmap string string) (base : Path)
    (disk : FS) depth top b p :
  wf_fs base disk → bounded (depth + length top) disk →
  (b, p) ∈ targets file_map folder_map depth disk top
  ↔ Entry p b ∈ disk ∧ below top p ∧ reachable disk top p
    ∧ matched file_map folder_map b p.
Proof.
  intros Hwf. revert top. induction depth as [|depth IH]; intros top Hb.
  { simpl. split; [by intros ?%elem_of_nil|]. intros (He & Hbelow%below_length & _).
    assert (Hp : p ∈ paths disk) by (apply list_elem_of_fmap; by exists (Entry p b)).
    apply Hb in Hp. simpl in Hp. lia. }
  assert (Hnames : ∀ n, n ∈ (scandir disk top).1 ∨ n ∈ (scandir disk top).2 →
            valid_name n ∧ top ++ [n] ∈ paths disk).
  { intros n Hn. by apply (scandir_valid base disk top). }
  rewrite targets_unfold, !elem_of_app, elem_of_concat, !list_elem_of_omap. split.
  - intros [(l & (n & -> & Hn)%list_elem_of_fmap & Hin)|[(n & Hn & Hf)|(n & Hn & Hf)]].
    + destruct (Hnames n (or_introl Hn)) as [Hv Hpn].
      rewrite (truediv_valid _ _ Hv) in Hin. apply IH in Hin.
      2:{ intros q Hq. apply Hb in Hq. rewrite length_app. simpl. lia. }
      destruct Hin as (He & Hbelow & Hreach & Hm).
      split; [done|]. split; [by eapply below_prefix_l; [apply prefix_app_r|]|].
      split; [|done]. intros q Hq1 Hq2.
      destruct (decide (q = top ++ [n])) as [->|Hne].
      { by apply (scandir_kind_iff disk top n true). }
      apply Hreach; [|done]. split; [|done].
      destruct Hq2 as [Hq2 _]. destruct Hbelow as [Hbelow _].
      destruct (prefix_weak_total _ _ _ Hq2 Hbelow) as [Hpre|Hpre]; [|done].
      exfalso. apply Hne. apply (prefix_same_length _ _ p); try done.
      apply prefix_length in Hpre. apply below_length in Hq1.
      rewrite length_app in *. simpl in *. lia.
    + destruct (Hnames n (or_intror Hn)) as [Hv Hpn].
      rewrite (truediv_valid _ _ Hv) in Hf.
      destruct (file_map !! stem (top ++ [n])) as [v|] eqn:Hv'; [|done].
      simpl in Hf. injection Hf as <- <-.
      split; [by apply (scandir_kind_iff disk top n false)|].
      split; [apply below_snoc|]. split.
      * intros q Hq1%below_length Hq2%below_length.
        rewrite length_app in Hq2. simpl in Hq2. lia.
      * unfold matched. by rewrite Hv'.
    + destruct (Hnames n (or_introl Hn)) as [Hv Hpn].
      rewrite (truediv_valid _ _ Hv) in Hf.
      destruct (folder_map !! n) as [v|] eqn:Hv'; [|done].
      simpl in Hf. injection Hf as <- <-.
      split; [by apply (scandir_kind_iff disk top n true)|].
      split; [apply below_snoc|]. split.
      * intros q Hq1%below_length Hq2%below_length.
        rewrite length_app in Hq2. simpl in Hq2. lia.
      * unfold matched. by rewrite name_snoc, Hv'.
  - intros (He & Hbelow & Hreach & Hm).
    destruct Hbelow as [[k Hk] Hne].
    destruct k as [|n k]; [by rewrite app_nil_r in Hk|].
    destruct k as [|n' k].
    + subst p. right.
      pose proof (proj2 (scandir_kind_iff disk top n b) He) as Hn.
      destruct b; [right|left]; exists n; (split; [done|]);
        destruct (Hnames n) as [Hv _]; [by left| |by right|];
        rewrite (truediv_valid _ _ Hv); unfold matched in Hm;
        [rewrite name_snoc in Hm|]; destruct Hm as [v ->]; done.
    + left.
      assert (Hq : Entry (top ++ [n]) true ∈ disk).
      { apply Hreach; [apply below_snoc|]. subst p. split.
        - exists (n' :: k). by rewrite <- app_assoc.
        - intros Heq. apply (f_equal length) in Heq.
          rewrite !length_app in Heq. simpl in Heq. lia. }
      apply (scandir_kind_iff disk top n true) in Hq.
      destruct (Hnames n (or_introl Hq)) as [Hv _].
      exists (targets file_map folder_map depth disk (truediv top n)).
      split; [apply list_elem_of_fmap; by exists n|].
      rewrite (truediv_valid _ _ Hv). apply IH.
      { intros q Hq'. apply Hb in Hq'. rewrite length_app. simpl. lia. }
      assert (Hbelow' : below (top ++ [n]) p).
      { subst p. split.
        - exists (n' :: k). by rewrite <- app_assoc.
        - intros Heq. apply (f_equal length) in Heq.
          rewrite !length_app in Heq. simpl in Heq. lia. }
      split; [done|]. split; [done|]. split; [|done].
      intros q Hq1 Hq2. apply Hreach; [|done].
      by eapply below_prefix_l; [apply prefix_app_r|].
Qed.

Lemma NoDup_omap_inj {A B} (f : A → option B) (l : list A) :
  NoDup l →
  (∀ a a' y, a ∈ l → a' ∈ l → f a = Some y → f a' = Some y → a = a') →
  NoDup (omap f l).
Proof.
  induction 1 as [|a l Ha Hnd IH]; intros Hinj; simpl; [constructor|].
  assert (Hrest : NoDup (omap f l)).
  { apply IH. intros a1 a2 y ? ?. apply Hinj; by right. }
  destruct (f a) as [y|] eqn:Hy; [|done].
  constructor; [|done]. intros (a' & Ha' & Hy')%list_elem_of_omap.
  apply Ha. rewrite (Hinj a a' y); try done; [by left|by right].
Qed.

Lemma targets_NoDup (file_map folder_map : gmap string string) (base : Path)
    (disk : FS) depth top :
  wf_fs base disk → bounded (depth + length top) disk →
  NoDup (targets file_map folder_map depth disk top).
Proof.
  intros Hwf. revert top. induction depth as [|depth IH]; intros top Hb;
    [constructor|].
  assert (Hnames : ∀ n, n ∈ (scandir disk top).1 ∨ n ∈ (scandir disk top).2 →
            valid_name n ∧ top ++ [n] ∈ paths disk).
  { intros n Hn. by apply (scandir_valid base disk top). }
  assert (Hb' : ∀ n, bounded (depth + length (top ++ [n])) disk).
  { intros n q Hq. apply Hb in Hq. rewrite length_app. simpl. lia. }
  destruct (scandir_NoDup disk top (proj1 Hwf)) as [Hndd Hndf].
  assert (Hleaf : ∀ (b : bool) (f : string → option (bool * Path)) l,
            NoDup l →
            (∀ n y, n ∈ l → f n = Some y → y = (b, truediv top n) ∧ valid_name n) →
            NoDup (omap f l)).
  { intros b f l Hl Hf. apply NoDup_omap_inj; [done|].
    intros n n' y Hn Hn' Hy Hy'.
    destruct (Hf n y Hn Hy) as [-> Hv]. destruct (Hf n' _ Hn' Hy') as [Heq Hv'].
    rewrite !truediv_valid in Heq by done. injection Heq as Heq.
    by apply app_inj_tail in Heq as [_ ?]. }
  rewrite targets_unfold. apply NoDup_app. split; [|split].
  - apply NoDup_concat_fmap; [done| |].
    + intros n Hn. destruct (Hnames n (or_introl Hn)) as [Hv _].
      rewrite (truediv_valid _ _ Hv). apply IH, Hb'.
    + intros n n' [b p] Hn Hn' Hx Hx'.
      destruct (Hnames n (or_introl Hn)) as [Hv _].
      destruct (Hnames n' (or_introl Hn')) as [Hv' _].
      rewrite (truediv_valid _ _ Hv) in Hx. rewrite (truediv_valid _ _ Hv') in Hx'.
      apply (targets_spec _ _ base) in Hx as (_ & [Hp _] & _); [|done|apply Hb'].
      apply (targets_spec _ _ base) in Hx' as (_ & [Hp' _] & _); [|done|apply Hb'].
      assert (Heq : top ++ [n] = top ++ [n']).
      { apply (prefix_same_length _ _ p); try done. by rewrite !length_app. }
      by apply app_inj_tail in Heq as [_ ?].
  - intros [b p] (l & (n & -> & Hn)%list_elem_of_fmap & Hin)%elem_of_concat Hleafs.
    destruct (Hnames n (or_introl Hn)) as [Hv _].
    rewrite (truediv_valid _ _ Hv) in Hin.
    apply (targets_spec _ _ base) in Hin as (_ & Hlen%below_length & _);
      [|done|apply Hb'].
    rewrite length_app in Hlen. simpl in Hlen.
    assert (Hshort : ∃ n', valid_name n' ∧ p = truediv top n').
    { apply elem_of_app in Hleafs as [(n' & Hn' & Hf)%list_elem_of_omap
                                     |(n' & Hn' & Hf)%list_elem_of_omap];
        exists n'.
      - destruct (Hnames n' (or_intror Hn')) as [Hv' _]. split; [done|].
        destruct (file_map !! _); [|done]. simpl in Hf. by injection Hf as _ ->.
      - destruct (Hnames n' (or_introl Hn')) as [Hv' _]. split; [done|].
        destruct (folder_map !! _); [|done]. simpl in Hf. by injection Hf as _ ->. }
    destruct Hshort as (n' & Hv' & ->). rewrite (truediv_valid _ _ Hv') in Hlen.
    rewrite length_app in Hlen. simpl in Hlen. lia.
  - apply NoDup_app. split; [|split].
    + apply (Hleaf false); [done|]. intros n y Hn Hy.
      destruct (file_map !! _); [|done]. simpl in Hy. injection Hy as <-.
      split; [done|]. by apply Hnames; right.
    + intros [b p] (n & Hn & Hf)%list_elem_of_omap (n' & Hn' & Hf')%list_elem_of_omap.
      destruct (file_map !! _); [|done]. destruct (folder_map !! _); [|done].
      simpl in *. congruence.
    + apply (Hleaf true); [done|]. intros n y Hn Hy.
      destruct (folder_map !! _); [|done]. simpl in Hy. injection Hy as <-.
      split; [done|]. by apply Hnames; left.
Qed.

(** X18.  With usable tables a run handles each matching entry once and
    nothing else: the entries of its events are, without repetition, the
    entries of the filesystem as it was before the run that the walk gets
    to through directories and whose stem (for a file) or name (for a
    directory) is a key of the respective table.  This holds for a live
    run too, although the paths change while it walks. *)
Theorem run_handles_each_match_once `{OsRename} (root_directory : Path)
    (files_csv folders_csv : list (pyobj * pyobj)) (dry_run : bool) (st : State) :
  wf_fs root_directory (fs st) →
  Forall usable_row files_csv → Forall usable_row folders_csv →
  ∃ st', rename_items root_directory files_csv folders_csv dry_run st = Ok st'
    ∧ NoDup (ev_entry <$> trace st')
    ∧ ∀ is_dir p,
        (is_dir, p) ∈ ev_entry <$> trace st'
        ↔ Entry p is_dir ∈ fs st ∧ reachable (fs st) root_directory p
          ∧ matched (build_map files_csv) (build_map folders_csv) is_dir p.
Proof.
  intros Hwf Hfiles Hfolders.
  destruct (run_targets root_directory files_csv folders_csv dry_run st
              Hwf Hfiles Hfolders) as (st' & Hrun & Ht).
  exists st'. split; [done|]. rewrite Ht. split.
  - apply (targets_NoDup _ _ root_directory); [done|apply bounded_walk_budget].
  - intros is_dir p.
    rewrite (targets_spec _ _ root_directory); [|done|apply bounded_walk_budget].
    split; [intros (? & _ & ? & ?); done|]. intros (He & Hreach & Hm).
    split; [done|]. split; [|done]. apply Hwf, list_elem_of_fmap.
    by exists (Entry p is_dir).
Qed.

Lemma run_handles_each_match_once_witness :
  ∃ st', @rename_items always_ok ["r"] [(PyStr "doc", PyStr "paper")]
           [(PyStr "OldFolder", PyStr "NewFolder")] false (module_loaded tree_disk)
         = Ok st'
    ∧ NoDup (ev_entry <$> trace st')
    ∧ ∀ is_dir p,
        (is_dir, p) ∈ ev_entry <$> trace st'
        ↔ Entry p is_dir ∈ tree_disk ∧ reachable tree_disk ["r"] p
          ∧ matched (build_map [(PyStr "doc", PyStr "paper")])
              (build_map [(PyStr "OldFolder", PyStr "NewFolder")]) is_dir p.
Proof.
  apply (@run_handles_each_match_once always_ok ["r"] [(PyStr "doc", PyStr "paper")]
           [(PyStr "OldFolder", PyStr "NewFolder")] false (module_loaded tree_disk)
           wf_tree_disk); repeat constructor; by vm_compute.
Defined.

Lemma mapped_desired_name (file_map folder_map : gmap string string)
    (is_dir : bool) (old new : Path) (out : outcome) (n : string) :
  mapped_name file_map folder_map is_dir old n →
  desired_name file_map folder_map (Event is_dir old new out) = Some n.
Proof.
  unfold mapped_name, desired_name, asked_name. simpl. destruct is_dir; [done|].
  by intros (v & -> & ->).
Qed.

(** X19.  The conflict log is never reset, and a run appends to it exactly
    one entry for each handled entry whose destination is not the name asked
    for, in the order of handling: the text of line 50 with the old path and
    the name of the destination. *)
Theorem run_conflict_log `{OsRename} (root_directory : Path)
    (files_csv folders_csv : list (pyobj * pyobj)) (dry_run : bool) (st : State) :
  wf_fs root_directory (fs st) →
  ∃ st', final (rename_items root_directory files_csv folders_csv dry_run st) = Some st'
    ∧ conflict_log st'
      = conflict_log st
        ++ omap (logged_conflict (build_map files_csv) (build_map folders_csv))
             (trace st').
Proof.
  intros Hwf.
  set (I := λ s : State,
         conflict_log s
         = conflict_log st
           ++ omap (logged_conflict (build_map files_csv) (build_map folders_csv))
                (trace s)).
  assert (HP : PreOrder (λ s s' : State, I s → I s')).
  { split; [by intros ?|]. intros x y z Hxy Hyz ?. eauto. }
  assert (Hstep : ∀ is_dir (d : Path) o n new out s s',
            root_directory `prefix_of` d → valid_name o → wf_fs root_directory (fs s) →
            mapped_name (build_map files_csv) (build_map folders_csv) is_dir (d ++ [o]) n →
            valid_name n →
            handled dry_run is_dir (d ++ [o]) new out s s' →
            named_after n (Event is_dir (d ++ [o]) new out) →
            conflict_log s'
            = conflict_log s
              ++ (if decide (new = parent (d ++ [o]) ++ [n]) then []
                  else [conflict_message (d ++ [o]) (name new)]) →
            I s → I s').
  { intros is_dir d o n new out s s' _ _ _ Hmap _ Hh _ Hcl HI.
    pose proof Hh as (_ & _ & _ & _ & _ & Htr & _).
    unfold I. rewrite Hcl, HI, Htr, omap_app, <- app_assoc. f_equal. f_equal.
    simpl. unfold logged_conflict.
    rewrite (mapped_desired_name _ _ _ _ new out _ Hmap). simpl.
    by destruct (decide _). }
  assert (Hdepth : 1 ≤ walk_budget (fs st)) by (unfold walk_budget; lia).
  pose proof (walk_named dry_run (build_map files_csv) (build_map folders_csv)
                root_directory (λ s s', I s → I s') Hstep
                (walk_budget (fs st)) root_directory (enter st)
                (reflexivity _) Hdepth Hwf (bounded_walk_budget _ _)) as Hwalk.
  assert (HI0 : I (enter st)) by (unfold I; simpl; by rewrite app_nil_r).
  unfold rename_items.
  destruct (walk _ _ _ _ _ _) as [st'|e st'|]; simpl in Hwalk; [| |done];
    exists st'; (split; [done|]); destruct Hwalk as (_ & _ & HI); by apply HI.
Qed.

Lemma run_conflict_log_witness :
  ∃ st', final (@rename_items always_ok ["r"] swap_csv [] false (module_loaded swap_disk))
         = Some st'
    ∧ conflict_log st'
      = [] ++ omap (logged_conflict (build_map swap_csv) (build_map [])) (trace st').
Proof.
  apply (@run_conflict_log always_ok ["r"] swap_csv [] false
           (module_loaded swap_disk) wf_swap_disk).
Defined.

(** ** Where a run stops *)

Lemma for_each_value_error {A} (body : A → State → result) (l : list A) (st : State) :
  (∀ x s, value_error_only (body x s)) → value_error_only (for_each body l st).
Proof.
  intros Hbody. revert st. induction l as [|x l IH]; intros st; simpl; [done|].
  pose proof (Hbody x st) as Hx. destruct (body x st); simpl; [apply IH|done..].
Qed.

Lemma bind_value_error (r : result) (k : State → result) :
  value_error_only r → (∀ s, value_error_only (k s)) → value_error_only (r >>= k).
Proof. destruct r; simpl; auto. Qed.

Lemma rename_to_value_error `{OsRename} (dry_run is_dir : bool) (old : Path)
    (n : string) (st : State) :
  value_error_only (rename_to dry_run is_dir old n st).
Proof.
  unfold rename_to. destruct (with_name old n); [|done].
  destruct (get_unique_path _ _ _) as [[q st1]|]; [|done].
  unfold attempt. destruct dry_run; [done|]. by destruct (os_error _ _ _).
Qed.

Lemma walk_value_error `{OsRename} (dry_run : bool)
    (file_map folder_map : gmap string string) depth (top : Path) (st : State) :
  value_error_only (walk dry_run file_map folder_map depth top st).
Proof.
  revert top st. induction depth as [|depth IH]; intros top st; [done|].
  rewrite walk_unfold. repeat apply bind_value_error.
  - apply for_each_value_error. intros dn s. apply IH.
  - intros s. apply for_each_value_error. intros n s'. unfold process_file.
    destruct (file_map !! _); [apply rename_to_value_error|done].
  - intros s. apply for_each_value_error. intros n s'. unfold process_dir.
    destruct (folder_map !! _); [apply rename_to_value_error|done].
Qed.

Section stopping.
Context `{OsRename} (dry_run : bool) (file_map folder_map : gmap string string).
Context (base : Path).

Local Abbreviation sound N := (λ s, wf_fs base (fs s) ∧ bounded N (fs s)).
Local Abbreviation through st L :=
  (λ s, ∃ evs, trace s = trace st ++ evs ∧ ev_entry <$> evs = L).
Local Abbreviation stopped st L :=
  (λ s, ∃ evs t rest, trace s = trace st ++ evs
                      ∧ L = (ev_entry <$> evs) ++ t :: rest
                      ∧ refused file_map folder_map t).

Lemma stopped_later (st s1 s : State) evs1 (L2 L3 : list (bool * Path)) :
  trace s1 = trace st ++ evs1 → stopped s1 L2 s →
  stopped st ((ev_entry <$> evs1) ++ L2 ++ L3) s.
Proof.
  intros Htr1 (evs & t & rest & Htr & -> & Hre).
  exists (evs1 ++ evs), t, (rest ++ L3). split; [by rewrite Htr, Htr1, <- app_assoc|].
  split; [|done]. by rewrite fmap_app, <- !app_assoc.
Qed.

Lemma leaf_loop_stops is_dir (names : list string) (map_ : gmap string string)
    (key : string → string) (new_name : string → string → string) top st N :
  base `prefix_of` top → (∀ n, n ∈ names → valid_name n) →
  (∀ n v, valid_name n → map_ !! key n = Some v →
     asked_name file_map folder_map (is_dir, top ++ [n]) = Some (new_name v n)) →
  sound N st →
  ends (λ s, sound N s
             ∧ through st
                 (omap (λ n, (λ _, (is_dir, truediv top n)) <$> map_ !! key n) names) s)
       (stopped st
          (omap (λ n, (λ _, (is_dir, truediv top n)) <$> map_ !! key n) names))
       (for_each (λ n s,
          match map_ !! key n with
          | Some v => rename_to dry_run is_dir (truediv top n) (new_name v n) s
          | None => Ok s
          end) names st).
Proof.
  intros Hbase Hv Hnew Hsound.
  apply (for_each_rule _ (λ done s, sound N s
           ∧ through st
               (omap (λ n, (λ _, (is_dir, truediv top n)) <$> map_ !! key n) done) s)).
  { split; [done|]. exists []. by rewrite app_nil_r. }
  intros done n rest s Hl [[Hwf Hb] (evs & Htr & Hproj)].
  assert (Hn : valid_name n).
  { apply Hv. rewrite Hl. apply elem_of_app. right. by left. }
  rewrite omap_app. simpl.
  destruct (map_ !! key n) as [v|] eqn:Hlook; simpl.
  - rewrite truediv_valid by done.
    pose proof (rename_to_inv dry_run is_dir (top ++ [n]) (new_name v n) s) as Hinv.
    destruct (rename_to _ _ _ _ _) as [s'|e s'|]; simpl; [| |done].
    + destruct Hinv as (new & out & Hh). split; [by eapply handled_fs|].
      destruct Hh as (_ & _ & _ & _ & _ & Htr' & _).
      exists (evs ++ [Event is_dir (top ++ [n]) new out]).
      rewrite Htr', Htr, <- app_assoc. split; [done|].
      by rewrite fmap_app, Hproj.
    + destruct Hinv as [-> Hw].
      exists evs, (is_dir, top ++ [n]),
        (omap (λ n, (λ _, (is_dir, truediv top n)) <$> map_ !! key n) rest).
      split; [done|]. split.
      * rewrite Hl, omap_app, Hproj. simpl. rewrite Hlook. simpl.
        by rewrite truediv_valid.
      * exists (new_name v n). split; [by apply Hnew|]. intros Hvalid.
        rewrite with_name_valid in Hw; [done|by destruct top|..|done].
        rewrite name_snoc. apply Hn.
  - split; [done|]. exists evs. by rewrite app_nil_r.
Qed.

Lemma walk_stops depth top st :
  base `prefix_of` top → 1 ≤ depth →
  wf_fs base (fs st) → bounded (depth + length top) (fs st) →
  ends (through st (targets file_map folder_map depth (fs st) top))
       (stopped st (targets file_map folder_map depth (fs st) top))
       (walk dry_run file_map folder_map depth top st).
Proof.
  revert top st. induction depth as [|depth IH]; intros top st Hbase Hd Hwf Hb;
    [lia|].
  rewrite walk_unfold, targets_unfold.
  set (dirs := (scandir (fs st) top).1). set (files := (scandir (fs st) top).2).
  set (N := S depth + length top).
  set (below_dirs := λ done : list string,
         concat ((λ dn, targets file_map folder_map depth (fs st) (truediv top dn))
                   <$> done)).
  set (of_files := omap (λ n, (λ _, (false, truediv top n))
                                <$> file_map !! stem (truediv top n)) files).
  set (of_dirs := omap (λ n, (λ _, (true, truediv top n)) <$> folder_map !! n) dirs).
  assert (Hnames : ∀ n, n ∈ dirs ∨ n ∈ files →
            valid_name n ∧ top ++ [n] ∈ paths (fs st)).
  { intros n Hn. by apply (scandir_valid base (fs st) top). }
  assert (Hnd : NoDup dirs) by (apply scandir_NoDup, Hwf).
  eapply (ends_bind _ (λ s, sound N s
            ∧ through st (below_dirs dirs ++ of_files) s));
    [eapply (ends_bind _ (λ s, sound N s ∧ through st (below_dirs dirs) s))|].
  - eapply ends_mono; [| |
      apply (for_each_rule _ (λ done s, sound N s
               ∧ (∀ d, (∀ dn, dn ∈ done → ¬ top ++ [dn] `prefix_of` d) →
                    scandir (fs s) d = scandir (fs st) d)
               ∧ through st (below_dirs done) s)
               (stopped st (below_dirs dirs ++ of_files ++ of_dirs)))].
    { by intros s (? & _ & ?). }
    { done. }
    { split; [done|]. split; [done|]. exists []. by rewrite app_nil_r. }
    intros done dn rest s Hl ([Hwfs Hbs] & Hframe & evs & Htr & Hproj).
    fold dirs in Hl.
    assert (Hdn : dn ∈ dirs) by (rewrite Hl; apply elem_of_app; right; by left).
    assert (Hfresh : dn ∉ done).
    { rewrite Hl in Hnd. apply NoDup_app in Hnd as (_ & Hnd & _).
      intros Hin. apply (Hnd dn Hin). by left. }
    destruct (Hnames dn (or_introl Hdn)) as [Hvalid Hin].
    assert (HN : depth + length (top ++ [dn]) = N).
    { rewrite length_app. simpl. unfold N. lia. }
    assert (Hdepth : 1 ≤ depth).
    { apply Hb in Hin. rewrite length_app in Hin. simpl in Hin. lia. }
    assert (Hbase' : base `prefix_of` top ++ [dn]) by by apply prefix_app_r.
    assert (Hsame : targets file_map folder_map depth (fs s) (top ++ [dn])
                    = targets file_map folder_map depth (fs st) (top ++ [dn])).
    { apply (targets_ext _ _ base); [done|]. intros d Hpre. apply Hframe.
      intros dn' Hdn' Hpre'. apply Hfresh.
      assert (Heq : top ++ [dn'] = top ++ [dn]).
      { apply (prefix_same_length _ _ d); [done..|]. by rewrite !length_app. }
      apply app_inv_head in Heq. injection Heq as ->. done. }
    assert (Hsplit : below_dirs dirs
                     = below_dirs done
                       ++ targets file_map folder_map depth (fs st) (top ++ [dn])
                       ++ below_dirs rest).
    { unfold below_dirs. rewrite Hl, fmap_app, concat_app. simpl.
      by rewrite truediv_valid by done. }
    rewrite <- HN in Hbs.
    pose proof (IH (top ++ [dn]) s Hbase' Hdepth Hwfs Hbs) as Htargets.
    pose proof (walk_frame dry_run file_map folder_map base depth (top ++ [dn]) s
                  Hbase' Hdepth Hwfs Hbs) as Hfr.
    rewrite HN in Hfr.
    pose proof (ends_and _ _ _ _ _ Hfr Htargets) as Hboth.
    rewrite truediv_valid by done.
    eapply ends_mono; [| |exact Hboth]; simpl.
    + intros s' [(Hwf' & Hb' & Hframe') (evs' & Htr' & Hproj')].
      split; [done|]. split.
      * intros d Hd'. rewrite Hframe'.
        -- apply Hframe. intros dn' Hdn'. apply Hd'. apply elem_of_app. by left.
        -- apply Hd'. apply elem_of_app. right. by left.
      * exists (evs ++ evs'). rewrite Htr', Htr, <- app_assoc. split; [done|].
        rewrite fmap_app, Hproj, Hproj', Hsame. unfold below_dirs.
        rewrite fmap_app, concat_app. simpl.
        by rewrite truediv_valid, app_nil_r by done.
    + intros s' [_ Hstop]. rewrite Hsame in Hstop.
      rewrite Hsplit, <- Hproj, <- !app_assoc.
      by apply (stopped_later st s s').
  - intros s1 [Hsound1 (evs1 & Htr1 & Hproj1)].
    eapply ends_mono; [| |
      apply (leaf_loop_stops false files file_map (λ n, stem (truediv top n))
               (λ v n, v +:+ suffix (truediv top n)) top s1 N)]; try done.
    + intros s [Hsound (evs & Htr & Hproj)]. split; [done|].
      exists (evs1 ++ evs). rewrite Htr, Htr1, <- app_assoc. split; [done|].
      by rewrite fmap_app, Hproj1, Hproj.
    + intros s Hstop.
      pose proof (stopped_later st s1 s evs1 of_files of_dirs Htr1 Hstop) as Hst.
      by rewrite Hproj1 in Hst.
    + intros n Hn. by apply Hnames; right.
    + intros n v Hn Hlook. unfold asked_name. simpl.
      rewrite truediv_valid in * by done. by rewrite Hlook.
  - intros s2 [Hsound2 (evs2 & Htr2 & Hproj2)].
    eapply ends_mono; [| |
      apply (leaf_loop_stops true dirs folder_map (λ n, n) (λ v _, v) top s2 N)];
      try done.
    + intros s [Hsound (evs & Htr & Hproj)].
      exists (evs2 ++ evs). rewrite Htr, Htr2, <- app_assoc. split; [done|].
      by rewrite fmap_app, Hproj2, Hproj, <- app_assoc.
    + intros s Hstop.
      pose proof (stopped_later st s2 s evs2 of_dirs [] Htr2 Hstop) as Hst.
      by rewrite app_nil_r, Hproj2, <- !app_assoc in Hst.
    + intros n Hn. by apply Hnames; left.
    + intros n v Hn Hlook. unfold asked_name. simpl. by rewrite name_snoc.
Qed.
End stopping.

Lemma mapped_not_refused (file_map folder_map : gmap string string) (e : event) n :
  mapped_name file_map folder_map (ev_is_dir e) (ev_old e) n → valid_name n →
  ¬ refused file_map folder_map (ev_entry e).
Proof.
  intros Hmap Hn (n' & Hasked & Hbad). destruct e as [is_dir old new out].
  pose proof (mapped_desired_name _ _ _ _ new out _ Hmap) as Hd.
  unfold desired_name in Hd. simpl in *. congruence.
Qed.


